(** * MCP geo servers: directions, transit and places

    A shallow embedding of the request handlers of the three servers of the
    repository

      - googlemaps-directions-server (src/index.ts and its compiled src/index.js),
      - navitime-transit-server      (src/index.ts),
      - places-server                (src/index.ts),

    together with the fragment of the JavaScript runtime they rely on:
    values as [JSON.parse] produces them, property access, truthiness,
    [typeof], [String.prototype.includes], template literals,
    [decodeURIComponent] and the one regular expression of the sources.

    The handlers are asynchronous functions with a single suspension point,
    the GET issued through axios.  They are embedded as a two-node tree
    ([Async]): either the handler settles without touching the network, or it
    issues one GET and continues with its outcome. *)

From Stdlib Require Import List NArith ZArith Bool String Ascii Lia.
From Corelib Require Import PrimFloat.
Import ListNotations.

Set Implicit Arguments.
Set Warnings "-register-all,-inexact-float".

(* ================================================================= *)
(** ** JavaScript strings *)

(** A JavaScript string is a sequence of UTF-16 code units. *)
Definition code_unit := N.
Definition JsString := list code_unit.

(** Source literals are ASCII; [lit] reads one as a sequence of code units. *)
Definition lit (s : string) : JsString :=
  map N_of_ascii (list_ascii_of_string s).

Fixpoint JsString_eqb (a b : JsString) : bool :=
  match a, b with
  | [], [] => true
  | x :: a', y :: b' => N.eqb x y && JsString_eqb a' b'
  | _, _ => false
  end.

Infix "=?s" := JsString_eqb (at level 70, no associativity).

(** [startsWith a s]: [a] is a prefix of [s]; on success the remainder. *)
Fixpoint strip_prefix (a s : JsString) : option JsString :=
  match a, s with
  | [], _ => Some s
  | x :: a', y :: s' => if N.eqb x y then strip_prefix a' s' else None
  | _ :: _, [] => None
  end.

(** [String.prototype.includes(searchString)] from position 0. *)
Fixpoint String_includes (s sub : JsString) : bool :=
  match strip_prefix sub s with
  | Some _ => true
  | None => match s with
            | [] => false
            | _ :: s' => String_includes s' sub
            end
  end.

(* ================================================================= *)
(** ** JavaScript values

    The arguments of a tool call and the body of an HTTP response are what
    [JSON.parse] builds, plus [undefined].  An object keeps its properties in
    insertion order, as [JSON.stringify] later enumerates them, so it is an
    association list.  Numbers are IEEE 754 binary64. *)

Inductive Value : Type :=
| VUndefined
| VNull
| VBool (b : bool)
| VNum (x : float)
| VStr (s : JsString)
| VArr (elems : list Value)
| VObj (props : list (JsString * Value)).

Definition Props := list (JsString * Value).

Inductive TypeTag := TUndefined | TObject | TBoolean | TNumber | TString.

(** The [typeof] operator: [null] and arrays are ['object']. *)
Definition typeof (v : Value) : TypeTag :=
  match v with
  | VUndefined => TUndefined
  | VNull => TObject
  | VBool _ => TBoolean
  | VNum _ => TNumber
  | VStr _ => TString
  | VArr _ => TObject
  | VObj _ => TObject
  end.

Definition TypeTag_eqb (a b : TypeTag) : bool :=
  match a, b with
  | TUndefined, TUndefined | TObject, TObject | TBoolean, TBoolean
  | TNumber, TNumber | TString, TString => true
  | _, _ => false
  end.

(** [ToBoolean]: [undefined], [null], [false], [+0], [-0], [NaN] and the
    empty string are falsy; everything else, every object and array
    included, is truthy. *)
Definition ToBoolean (v : Value) : bool :=
  match v with
  | VUndefined | VNull => false
  | VBool b => b
  | VNum x => negb (PrimFloat.eqb x 0%float || negb (PrimFloat.eqb x x))
  | VStr s => match s with [] => false | _ => true end
  | VArr _ | VObj _ => true
  end.

Definition is_nullish (v : Value) : bool :=
  match v with VUndefined | VNull => true | _ => false end.

Definition is_undefined (v : Value) : bool :=
  match v with VUndefined => true | _ => false end.

Definition is_null (v : Value) : bool :=
  match v with VNull => true | _ => false end.

Definition Array_isArray (v : Value) : bool :=
  match v with VArr _ => true | _ => false end.

(** [v === 'literal'] *)
Definition strict_eq_string (v : Value) (s : JsString) : bool :=
  match v with VStr t => t =?s s | _ => false end.

(** [a || b] and [a ?? b] on values. *)
Definition or_else (a b : Value) : Value := if ToBoolean a then a else b.
Definition nullish_else (a b : Value) : Value := if is_nullish a then b else a.

(** Own properties of an object. *)
Fixpoint lookup (k : JsString) (o : Props) : option Value :=
  match o with
  | [] => None
  | (k', v) :: o' => if k' =?s k then Some v else lookup k o'
  end.

(** [o.k = v] on an object: an existing property keeps its place, a new one
    goes last. *)
Fixpoint assign (k : JsString) (v : Value) (o : Props) : Props :=
  match o with
  | [] => [(k, v)]
  | (k', v') :: o' => if k' =?s k then (k', v) :: o' else (k', v') :: assign k v o'
  end.

(* ================================================================= *)
(** ** Exceptions and completions *)

Inductive ErrorCode := MethodNotFound | InvalidParams | InvalidRequest | InternalError.

(** What a handler can throw.  An axios error carries the body of the
    response when there was one ([error.response?.data]) and its own
    message. *)
Inductive Exception : Type :=
| McpError (code : ErrorCode) (message : JsString)
| AxiosError (response_data : option Value) (message : JsString)
| TypeError
| URIError
| OtherError (message : JsString).

(** [axios.isAxiosError(e)] *)
Definition isAxiosError (e : Exception) : bool :=
  match e with AxiosError _ _ => true | _ => false end.

Inductive Exc (A : Type) : Type :=
| Ok (a : A)
| Throw (e : Exception).
Arguments Ok {A} a.
Arguments Throw {A} e.

Definition bind {A B} (m : Exc A) (f : A -> Exc B) : Exc B :=
  match m with
  | Ok a => f a
  | Throw e => Throw e
  end.

Notation "x <- m ;; k" := (bind m (fun x => k))
  (at level 61, m at next level, right associativity).

(** Short-circuit [&&] and [||] over conditions that may throw. *)
Definition andb_exc (a b : Exc bool) : Exc bool :=
  x <- a ;; if x then b else Ok false.
Definition orb_exc (a b : Exc bool) : Exc bool :=
  x <- a ;; if x then Ok true else b.
Infix "&&&" := andb_exc (at level 40, left associativity).
Infix "|||" := orb_exc (at level 50, left associativity).

Fixpoint mapM {A B} (f : A -> Exc B) (l : list A) : Exc (list B) :=
  match l with
  | [] => Ok []
  | x :: l' => y <- f x ;; ys <- mapM f l' ;; Ok (y :: ys)
  end.

(** [v.k] for the property names the servers read.  None of them is a
    built-in property of strings, numbers, booleans or arrays, so on those
    the access yields [undefined]; on [undefined] and [null] it throws. *)
Definition Get (v : Value) (k : JsString) : Exc Value :=
  match v with
  | VUndefined | VNull => Throw TypeError
  | VObj o => Ok (match lookup k o with Some x => x | None => VUndefined end)
  | _ => Ok VUndefined
  end.

(** [v?.k] *)
Definition Get_opt (v : Value) (k : JsString) : Value :=
  match v with
  | VObj o => match lookup k o with Some x => x | None => VUndefined end
  | _ => VUndefined
  end.

(** [o.k = v].  In the sources an assignment always follows a read that
    found a defined property on the same target, so the target is an object;
    a module is strict code, where assigning to a property of a primitive
    throws. *)
Definition Set_ (target : Value) (k : JsString) (v : Value) : Exc Value :=
  match target with
  | VObj o => Ok (VObj (assign k v o))
  | _ => Throw TypeError
  end.

(* ================================================================= *)
(** ** Runtime built-ins taken as given

    [Number::toString] (the shortest decimal that reads back as the same
    binary64) and [JSON.stringify(data, null, 2)] belong to the engine, not
    to the repository.  The handlers are parametric in them.
    [JSON.stringify] yields a string, or [undefined] on [undefined]. *)

Record Runtime : Type := {
  Number_toString : float -> JsString;
  JSON_stringify : Value -> Value
}.

Section Conversions.

Variable rt : Runtime.

(** [ToString], as a template literal or a string concatenation applies it.
    An array is joined with commas, [undefined] and [null] elements giving
    the empty string and every other element being converted in turn.  An
    object goes through [toString] and [valueOf]: a parsed object has no
    callable property of its own, so when it owns a [toString] key the
    inherited method is hidden, [valueOf] (own and not callable, or inherited
    and returning the object) gives no primitive, and the conversion throws a
    [TypeError]; otherwise the inherited method answers
    ['[object Object]']. *)
Fixpoint ToString (v : Value) : Exc JsString :=
  match v with
  | VUndefined => Ok (lit "undefined")
  | VNull => Ok (lit "null")
  | VBool true => Ok (lit "true")
  | VBool false => Ok (lit "false")
  | VNum x => Ok (Number_toString rt x)
  | VStr s => Ok s
  | VArr elems =>
      (fix join (l : list Value) : Exc JsString :=
         match l with
         | [] => Ok []
         | x :: l' =>
             s <- match x with VUndefined | VNull => Ok [] | _ => ToString x end ;;
             match l' with
             | [] => Ok s
             | _ :: _ => rest <- join l' ;; Ok (s ++ lit "," ++ rest)
             end
         end) elems
  | VObj props =>
      match lookup (lit "toString") props with
      | Some _ => Throw TypeError
      | None => Ok (lit "[object Object]")
      end
  end.

End Conversions.

(** [Array.prototype.includes(s)] for a string [s]: SameValueZero against
    each element. *)
Definition Array_includes (elems : list Value) (s : JsString) : bool :=
  existsb (fun x => strict_eq_string x s) elems.

(* ================================================================= *)
(** ** decodeURIComponent  (ECMA-262, Decode with an empty preserved set) *)

Definition hex_digit (c : code_unit) : option N :=
  (if (48 <=? c) && (c <=? 57) then Some (c - 48)
   else if (65 <=? c) && (c <=? 70) then Some (c - 55)
   else if (97 <=? c) && (c <=? 102) then Some (c - 87)
   else None)%N.

Definition ParseHexOctet (h1 h2 : code_unit) : option N :=
  match hex_digit h1, hex_digit h2 with
  | Some a, Some b => Some (16 * a + b)%N
  | _, _ => None
  end.

(** The number of leading 1 bits of an octet (5 stands for "five or more"). *)
Definition leading_ones (B : N) : nat :=
  if (B <? 128)%N then 0
  else if (B <? 192)%N then 1
  else if (B <? 224)%N then 2
  else if (B <? 240)%N then 3
  else if (B <? 248)%N then 4
  else 5.

Definition is_continuation (B : N) : bool := ((128 <=? B) && (B <? 192))%N.

(** The code point a well-formed UTF-8 sequence encodes; [None] on a stray
    or missing continuation octet, an overlong form, a surrogate, or a value
    above U+10FFFF. *)
Definition utf8_code_point (octets : list N) : option N :=
  (match octets with
  | [b0; b1] =>
      let cp := (b0 - 192) * 64 + (b1 - 128) in
      if is_continuation b1 && (128 <=? cp) then Some cp else None
  | [b0; b1; b2] =>
      let cp := (b0 - 224) * 4096 + (b1 - 128) * 64 + (b2 - 128) in
      if is_continuation b1 && is_continuation b2 && (2048 <=? cp)
         && negb ((55296 <=? cp) && (cp <=? 57343))
      then Some cp else None
  | [b0; b1; b2; b3] =>
      let cp := (b0 - 240) * 262144 + (b1 - 128) * 4096 + (b2 - 128) * 64 + (b3 - 128) in
      if is_continuation b1 && is_continuation b2 && is_continuation b3
         && (65536 <=? cp) && (cp <=? 1114111)
      then Some cp else None
  | _ => None
  end)%N.

Definition UTF16EncodeCodePoint (cp : N) : JsString :=
  (if cp <=? 65535 then [cp]
   else [(cp - 65536) / 1024 + 55296; (cp - 65536) mod 1024 + 56320])%N.

(** The decoding loop.  [pending] is [Some (j, octets)] while a multi-octet
    sequence is being collected: [j] escapes are still to be read and
    [octets] are the ones read so far. *)
Fixpoint Decode (pending : option (nat * list N)) (s : JsString) : Exc JsString :=
  match s with
  | [] =>
      match pending with
      | None => Ok []
      | Some _ => Throw URIError
      end
  | c :: rest =>
      match pending with
      | None =>
          if (c =? 37)%N then
            match rest with
            | h1 :: h2 :: rest' =>
                match ParseHexOctet h1 h2 with
                | None => Throw URIError
                | Some B =>
                    match leading_ones B with
                    | 0 => R <- Decode None rest' ;; Ok (B :: R)
                    | 2 => Decode (Some (1, [B])) rest'
                    | 3 => Decode (Some (2, [B])) rest'
                    | 4 => Decode (Some (3, [B])) rest'
                    | _ => Throw URIError
                    end
                end
            | _ => Throw URIError
            end
          else R <- Decode None rest ;; Ok (c :: R)
      | Some (j, octets) =>
          if (c =? 37)%N then
            match rest with
            | h1 :: h2 :: rest' =>
                match ParseHexOctet h1 h2 with
                | None => Throw URIError
                | Some B =>
                    match j with
                    | S (S j') => Decode (Some (S j', octets ++ [B])) rest'
                    | _ =>
                        match utf8_code_point (octets ++ [B]) with
                        | None => Throw URIError
                        | Some V =>
                            R <- Decode None rest' ;;
                            Ok (UTF16EncodeCodePoint V ++ R)
                        end
                    end
                end
            | _ => Throw URIError
            end
          else Throw URIError
      end
  end.

Definition decodeURIComponent (s : JsString) : Exc JsString := Decode None s.

(* ================================================================= *)
(** ** The regular expression of the directions server

    [/^directions:\/\/(.+)\/(.+)$/] has no flags.  It is a sequence of three
    kinds of node: literal characters, a capturing group around a greedy
    [.+], and the end anchor.  [^] without the [m] flag pins the match at
    index 0, which is where [exec] starts. *)

Inductive Node :=
| Chars (s : JsString)
| GroupDotPlus
| EndAnchor.

(** [.] matches any code unit but the line terminators LF, CR, U+2028 and
    U+2029. *)
Definition is_line_terminator (c : code_unit) : bool :=
  ((c =? 10) || (c =? 13) || (c =? 8232) || (c =? 8233))%N.

(** Greedy [.+] followed by the continuation [k]: it first tries to take one
    more character, and gives back one at a time when the rest of the
    pattern fails. *)
Fixpoint dot_plus (A : Type) (s : JsString) (k : JsString -> JsString -> option A)
  : option A :=
  match s with
  | [] => None
  | c :: rest =>
      if is_line_terminator c then None
      else match dot_plus rest (fun m r => k (c :: m) r) with
           | Some res => Some res
           | None => k [c] rest
           end
  end.

(** The backtracking matcher; the captures come out in order. *)
Fixpoint regex_exec (p : list Node) (s : JsString) (caps : list JsString)
  : option (list JsString) :=
  match p with
  | [] => Some (rev caps)
  | Chars l :: p' =>
      match strip_prefix l s with
      | Some rest => regex_exec p' rest caps
      | None => None
      end
  | GroupDotPlus :: p' => dot_plus s (fun g rest => regex_exec p' rest (g :: caps))
  | EndAnchor :: p' =>
      match s with
      | [] => regex_exec p' s caps
      | _ :: _ => None
      end
  end.

(** [str.match(regex)]: [None] is [null], otherwise the captures
    [match[1]], [match[2]], ... *)
Definition String_match (s : JsString) (regex : list Node) : option (list JsString) :=
  regex_exec regex s [].

(** [match[i]] for [i >= 1]. *)
Definition group (caps : list JsString) (i : nat) : JsString := nth (i - 1) caps [].

(* ================================================================= *)
(** ** Asynchronous handlers

    The only effect is the GET through the axios instance.  A handler is a
    tree, a leaf when it settles and a node at each [await get(...)]. *)

Record GetCall : Type := {
  url : JsString;
  params : Props
}.

Inductive GetOutcome : Type :=
| Resolved (data : Value)
| Rejected (error : Exception).

Inductive Async (R : Type) : Type :=
| Settled (c : Exc R)
| Await (call : GetCall) (k : GetOutcome -> Async R).
Arguments Settled {R} c.
Arguments Await {R} call k.

Fixpoint Async_bind {A B} (a : Async A) (f : A -> Async B) : Async B :=
  match a with
  | Settled (Ok x) => f x
  | Settled (Throw e) => Settled (Throw e)
  | Await c k => Await c (fun o => Async_bind (k o) f)
  end.

Notation "x <~ a ;; k" := (Async_bind a (fun x => k))
  (at level 61, a at next level, right associativity).

(** A synchronous step inside an async function. *)
Definition sync {A} (m : Exc A) : Async A := Settled m.

(** [await axiosInstance.get(url, { params })], yielding [response.data]. *)
Definition axios_get (u : JsString) (ps : Props) : Async Value :=
  Await {| url := u; params := ps |}
        (fun o => match o with
                  | Resolved data => Settled (Ok data)
                  | Rejected error => Settled (Throw error)
                  end).

(** [try { body } catch (error) { handler }] *)
Fixpoint try_catch {R} (body : Async R) (handler : Exception -> Async R) : Async R :=
  match body with
  | Settled (Ok r) => Settled (Ok r)
  | Settled (Throw e) => handler e
  | Await c k => Await c (fun o => try_catch (k o) handler)
  end.

(** Running a handler against the network: the calls issued, in order, and
    how the handler settles. *)
Fixpoint run {R} (h : Async R) (net : GetCall -> GetOutcome) : list GetCall * Exc R :=
  match h with
  | Settled c => ([], c)
  | Await call k =>
      let (calls, c) := run (k (net call)) net in (call :: calls, c)
  end.

(** The result envelope of a tool call. *)
Record TextContent : Type := {
  type : JsString;
  text : Value
}.

Record ToolResult : Type := {
  content : list TextContent;
  isError : option bool
}.

(* ================================================================= *)
(** ** googlemaps-directions-server *)

Module Directions.

(** The resource-read envelope. *)
Module Resource.

Record Contents : Type := {
  uri : JsString;
  mimeType : JsString;
  text : Value
}.

Record ReadResult : Type := {
  contents : list Contents
}.

End Resource.

Section Server.

Variable rt : Runtime.

(** [process.env.GOOGLE_MAPS_API_KEY]; the module throws at load time when it
    is missing. *)
Variable API_KEY : JsString.

Definition isValidDirectionsArgs (args : Value) : Exc bool :=
  Ok (TypeTag_eqb (typeof args) TObject) &&&
  Ok (negb (is_null args)) &&&
  (origin <- Get args (lit "origin") ;; Ok (TypeTag_eqb (typeof origin) TString)) &&&
  (destination <- Get args (lit "destination") ;;
   Ok (TypeTag_eqb (typeof destination) TString)) &&&
  ((mode <- Get args (lit "mode") ;; Ok (is_undefined mode)) |||
   (mode <- Get args (lit "mode") ;; Ok (TypeTag_eqb (typeof mode) TString))).

(** [/^directions:\/\/(.+)\/(.+)$/] *)
Definition regex : list Node :=
  [Chars (lit "directions://"); GroupDotPlus; Chars (lit "/"); GroupDotPlus; EndAnchor].

(** [error.response?.data?.error_message || error.message], for an axios
    error with the given response body and message. *)
Definition error_message (response : option Value) (message : JsString) : Value :=
  or_else (match response with
           | Some data => Get_opt data (lit "error_message")
           | None => VUndefined
           end)
          (VStr message).

(** The handler registered for [ReadResourceRequestSchema]. *)
Definition ReadResource (request_uri : JsString) : Async Resource.ReadResult :=
  match String_match request_uri regex with
  | None =>
      sync (Throw (McpError InvalidRequest (lit "Invalid URI: " ++ request_uri)))
  | Some match_ =>
      origin <~ sync (decodeURIComponent (group match_ 1)) ;;
      destination <~ sync (decodeURIComponent (group match_ 2)) ;;
      try_catch
        (data <~ axios_get []
                   [(lit "origin", VStr origin);
                    (lit "destination", VStr destination);
                    (lit "key", VStr API_KEY)] ;;
         sync (Ok {| Resource.contents :=
                       [ {| Resource.uri := request_uri;
                            Resource.mimeType := lit "application/json";
                            Resource.text := JSON_stringify rt data |} ] |}))
        (fun error =>
           match error with
           | AxiosError response message =>
               sync (reason <- ToString rt (error_message response message) ;;
                     Throw (McpError InternalError
                              (lit "Google Maps API error: " ++ reason)))
           | _ => sync (Throw error)
           end)
  end.

(** The handler registered for [CallToolRequestSchema]. *)
Definition CallTool (name : JsString) (arguments : Value) : Async ToolResult :=
  if negb (name =?s lit "get_directions") then
    sync (Throw (McpError MethodNotFound (lit "Unknown tool: " ++ name)))
  else
    valid <~ sync (isValidDirectionsArgs arguments) ;;
    if negb valid then
      sync (Throw (McpError InvalidParams (lit "Invalid directions arguments")))
    else
      origin <~ sync (Get arguments (lit "origin")) ;;
      destination <~ sync (Get arguments (lit "destination")) ;;
      mode <~ sync (m <- Get arguments (lit "mode") ;;
                    Ok (or_else m (VStr (lit "driving")))) ;;
      try_catch
        (data <~ axios_get []
                   [(lit "origin", origin);
                    (lit "destination", destination);
                    (lit "mode", mode);
                    (lit "key", VStr API_KEY)] ;;
         sync (Ok {| content := [ {| type := lit "text";
                                     text := JSON_stringify rt data |} ];
                     isError := None |}))
        (fun error =>
           match error with
           | AxiosError response message =>
               sync (reason <- ToString rt (error_message response message) ;;
                     Ok {| content :=
                             [ {| type := lit "text";
                                  text := VStr (lit "Google Maps API error: " ++ reason) |} ];
                           isError := Some true |})
           | _ => sync (Throw error)
           end).

End Server.

End Directions.

(* ================================================================= *)
(** ** navitime-transit-server *)

Module Transit.

Definition string_or_absent (args : Value) (k : string) : Exc bool :=
  (v <- Get args (lit k) ;; Ok (is_undefined v)) |||
  (v <- Get args (lit k) ;; Ok (TypeTag_eqb (typeof v) TString)).

Definition isValidRouteTransitArgs (args : Value) : Exc bool :=
  Ok (TypeTag_eqb (typeof args) TObject) &&&
  Ok (negb (is_null args)) &&&
  (start <- Get args (lit "start") ;; Ok (TypeTag_eqb (typeof start) TString)) &&&
  (goal <- Get args (lit "goal") ;; Ok (TypeTag_eqb (typeof goal) TString)) &&&
  string_or_absent args "start_time" &&&
  string_or_absent args "term" &&&
  string_or_absent args "limit" &&&
  string_or_absent args "datum" &&&
  string_or_absent args "coord_unit".

(** [(timeStr: string) => timeStr.includes('+') ? timeStr : timeStr + '+09:00'];
    the source declares this arrow function twice, as [normalizeTime] for the
    request and as [addTimezone] for the response. *)
Definition normalizeTime (timeStr : JsString) : JsString :=
  if String_includes timeStr (lit "+") then timeStr else timeStr ++ lit "+09:00".

Definition addTimezone (timeStr : JsString) : JsString :=
  if String_includes timeStr (lit "+") then timeStr else timeStr ++ lit "+09:00".

Section Server.

Variable rt : Runtime.

(** The same arrow function applied to a value of any type, as the handler
    does on the parsed body: on a string it is [addTimezone]; an array has an
    [includes] method of its own and is concatenated through [ToString],
    which can throw;
    anything else has no [includes] to call. *)
Definition apply_addTimezone (timeStr : Value) : Exc Value :=
  match timeStr with
  | VStr s => Ok (VStr (addTimezone s))
  | VArr elems =>
      if Array_includes elems (lit "+") then Ok timeStr
      else joined <- ToString rt timeStr ;; Ok (VStr (joined ++ lit "+09:00"))
  | _ => Throw TypeError
  end.

Definition apply_normalizeTime (timeStr : Value) : Exc Value :=
  match timeStr with
  | VStr s => Ok (VStr (normalizeTime s))
  | VArr elems =>
      if Array_includes elems (lit "+") then Ok timeStr
      else joined <- ToString rt timeStr ;; Ok (VStr (joined ++ lit "+09:00"))
  | _ => Throw TypeError
  end.

(** [const startTime = args.start_time ? normalizeTime(args.start_time)
                                       : '2024-02-11T12:00:00+09:00'] *)
Definition startTime (arguments : Value) : Exc Value :=
  st <- Get arguments (lit "start_time") ;;
  if ToBoolean st then
    st' <- Get arguments (lit "start_time") ;; apply_normalizeTime st'
  else Ok (VStr (lit "2024-02-11T12:00:00+09:00")).

(** [args.k || 'default'] *)
Definition field_or (arguments : Value) (k : string) (default : string) : Exc Value :=
  v <- Get arguments (lit k) ;; Ok (or_else v (VStr (lit default))).

(** The [params] object of the GET. *)
Definition request_params (arguments : Value) : Exc Props :=
  start_time <- startTime arguments ;;
  start <- Get arguments (lit "start") ;;
  goal <- Get arguments (lit "goal") ;;
  term <- field_or arguments "term" "60" ;;
  limit <- field_or arguments "limit" "3" ;;
  datum <- field_or arguments "datum" "wgs84" ;;
  coord_unit <- field_or arguments "coord_unit" "degree" ;;
  Ok [(lit "start", start);
      (lit "goal", goal);
      (lit "start_time", start_time);
      (lit "term", term);
      (lit "limit", limit);
      (lit "datum", datum);
      (lit "coord_unit", coord_unit)].

(** The callback of [item.sections.map]. *)
Definition map_section (section : Value) : Exc Value :=
  ty <- Get section (lit "type") ;;
  if strict_eq_string ty (lit "move") then
    from_time <- Get section (lit "from_time") ;;
    section1 <- (if ToBoolean from_time then
                   t <- Get section (lit "from_time") ;;
                   t' <- apply_addTimezone t ;;
                   Set_ section (lit "from_time") t'
                 else Ok section) ;;
    to_time <- Get section1 (lit "to_time") ;;
    (if ToBoolean to_time then
       t <- Get section1 (lit "to_time") ;;
       t' <- apply_addTimezone t ;;
       Set_ section1 (lit "to_time") t'
     else Ok section1)
  else Ok section.

(** The callback of [data.items.map].  The source mutates [item.summary.move]
    in place; the body is a tree fresh from the parser, so the mutation is
    the rebuilding of the path down to the property. *)
Definition map_item (item : Value) : Exc Value :=
  summary <- Get item (lit "summary") ;;
  has_move <- (if ToBoolean summary then
                 move <- Get summary (lit "move") ;; Ok (ToBoolean move)
               else Ok false) ;;
  item1 <- (if has_move then
              move <- Get summary (lit "move") ;;
              from_time <- Get move (lit "from_time") ;;
              from_time' <- apply_addTimezone from_time ;;
              move1 <- Set_ move (lit "from_time") from_time' ;;
              to_time <- Get move1 (lit "to_time") ;;
              to_time' <- apply_addTimezone to_time ;;
              move2 <- Set_ move1 (lit "to_time") to_time' ;;
              summary' <- Set_ summary (lit "move") move2 ;;
              Set_ item (lit "summary") summary'
            else Ok item) ;;
  sections <- Get item1 (lit "sections") ;;
  if ToBoolean sections && Array_isArray sections then
    match sections with
    | VArr elems =>
        mapped <- mapM map_section elems ;;
        Set_ item1 (lit "sections") (VArr mapped)
    | _ => Ok item1
    end
  else Ok item1.

(** The reshaping of [response.data] (the statements between the GET and
    the [return] of the handler). *)
Definition transform (data : Value) : Exc Value :=
  items <- Get data (lit "items") ;;
  if ToBoolean items && Array_isArray items then
    match items with
    | VArr elems =>
        mapped <- mapM map_item elems ;;
        Set_ data (lit "items") (VArr mapped)
    | _ => Ok data
    end
  else Ok data.

(** [error.response?.data?.message ?? error.message] *)
Definition error_message (response : option Value) (message : JsString) : Value :=
  nullish_else (match response with
                | Some data => Get_opt data (lit "message")
                | None => VUndefined
                end)
               (VStr message).

(** The handler registered for [CallToolRequestSchema]. *)
Definition CallTool (name : JsString) (arguments : Value) : Async ToolResult :=
  if negb (name =?s lit "route_transit") then
    sync (Throw (McpError MethodNotFound (lit "Unknown tool: " ++ name)))
  else
    valid <~ sync (isValidRouteTransitArgs arguments) ;;
    if negb valid then
      sync (Throw (McpError InvalidParams (lit "Invalid route_transit arguments")))
    else
      try_catch
        (ps <~ sync (request_params arguments) ;;
         data <~ axios_get (lit "/route_transit") ps ;;
         data' <~ sync (transform data) ;;
         sync (Ok {| content := [ {| type := lit "text";
                                     text := JSON_stringify rt data' |} ];
                     isError := None |}))
        (fun error =>
           match error with
           | AxiosError response message =>
               sync (reason <- ToString rt (error_message response message) ;;
                     Ok {| content :=
                             [ {| type := lit "text";
                                  text := VStr (lit "Navitime API error: " ++ reason) |} ];
                           isError := Some true |})
           | _ => sync (Throw error)
           end).

End Server.

End Transit.

(* ================================================================= *)
(** ** places-server *)

Module Places.

Section Server.

Variable rt : Runtime.

(** [process.env.GOOGLE_PLACES_API_KEY]; the axios instance sends it as the
    [key] parameter of every request, next to the parameters of the call. *)
Variable API_KEY : JsString.

Definition axiosInstance_params : Props := [(lit "key", VStr API_KEY)].

Definition result_of (data : Value) : ToolResult :=
  {| content := [ {| type := lit "text"; text := JSON_stringify rt data |} ];
     isError := None |}.

Definition handleSearchPlaces (args : Value) : Async ToolResult :=
  ps <~ sync (query <- Get args (lit "query") ;;
              language <- Get args (lit "language") ;;
              Ok [(lit "input", query);
                  (lit "inputtype", VStr (lit "textquery"));
                  (lit "language", or_else language (VStr (lit "ja")));
                  (lit "fields",
                   VStr (lit "formatted_address,name,rating,opening_hours,geometry,place_id"))]) ;;
  data <~ axios_get (lit "/findplacefromtext/json") ps ;;
  sync (Ok (result_of data)).

Definition handleGetPlaceDetails (args : Value) : Async ToolResult :=
  ps <~ sync (placeId <- Get args (lit "placeId") ;;
              language <- Get args (lit "language") ;;
              Ok [(lit "place_id", placeId);
                  (lit "language", or_else language (VStr (lit "ja")));
                  (lit "fields",
                   VStr (lit "name,rating,formatted_phone_number,formatted_address,opening_hours,website,reviews,price_level,photos"))]) ;;
  data <~ axios_get (lit "/details/json") ps ;;
  sync (Ok (result_of data)).

(** The [params] object of the nearby search;
    [location] is the template literal [`${args.location.lat},${args.location.lng}`],
    which converts each substitution to a string as soon as it is read. *)
Definition nearby_params (args : Value) : Exc Props :=
  location <- Get args (lit "location") ;;
  lat <- Get location (lit "lat") ;;
  lat_text <- ToString rt lat ;;
  location' <- Get args (lit "location") ;;
  lng <- Get location' (lit "lng") ;;
  lng_text <- ToString rt lng ;;
  radius <- Get args (lit "radius") ;;
  type_ <- Get args (lit "type") ;;
  language <- Get args (lit "language") ;;
  Ok [(lit "location", VStr (lat_text ++ lit "," ++ lng_text));
      (lit "radius", or_else radius (VNum 1000%float));
      (lit "type", type_);
      (lit "language", or_else language (VStr (lit "ja")))].

Definition handleNearbySearch (args : Value) : Async ToolResult :=
  ps <~ sync (nearby_params args) ;;
  data <~ axios_get (lit "/nearbysearch/json") ps ;;
  sync (Ok (result_of data)).

(** [error.response?.data?.error_message || error.message] *)
Definition error_message (response : option Value) (message : JsString) : Value :=
  or_else (match response with
           | Some data => Get_opt data (lit "error_message")
           | None => VUndefined
           end)
          (VStr message).

(** The handler registered for [CallToolRequestSchema]: the [switch] on the
    tool name sits inside the [try]. *)
Definition CallTool (name : JsString) (arguments : Value) : Async ToolResult :=
  try_catch
    (if name =?s lit "search_places" then handleSearchPlaces arguments
     else if name =?s lit "get_place_details" then handleGetPlaceDetails arguments
     else if name =?s lit "nearby_search" then handleNearbySearch arguments
     else sync (Throw (McpError MethodNotFound (lit "Unknown tool: " ++ name))))
    (fun error =>
       match error with
       | AxiosError response message =>
           sync (reason <- ToString rt (error_message response message) ;;
                 Ok {| content :=
                         [ {| type := lit "text";
                              text := VStr (lit "Google Places API error: " ++ reason) |} ];
                       isError := Some true |})
       | _ => sync (Throw error)
       end).

End Server.

End Places.

(* ================================================================= *)
(** ** Definitions used to state the properties *)

(** How a run ended up on the network: the one GET it issued, if any. *)
Definition issued {R} (r : list GetCall * Exc R) : list GetCall := fst r.
Definition outcome {R} (r : list GetCall * Exc R) : Exc R := snd r.

(** The value sent for parameter [k] by a run that issued exactly one GET. *)
Definition sent_param {R} (r : list GetCall * Exc R) (k : string) : option Value :=
  match issued r with
  | [call] => lookup (lit k) (params call)
  | _ => None
  end.

(** The first GET of a run, or a request for nothing when there is none. *)
Definition first_call {R} (r : list GetCall * Exc R) : GetCall :=
  match issued r with
  | call :: _ => call
  | [] => {| url := []; params := [] |}
  end.

Definition is_string (v : Value) : bool :=
  match v with VStr _ => true | _ => false end.

(** The error envelope of a tool call. *)
Definition error_result (message : JsString) : ToolResult :=
  {| content := [ {| type := lit "text"; text := VStr message |} ];
     isError := Some true |}.

(** The message of the upstream body under [field], when the axios error
    carries a response ([error.response?.data?.field]). *)
Definition upstream_message (field : string) (response : option Value) : Value :=
  match response with
  | Some data => Get_opt data (lit field)
  | None => VUndefined
  end.

(** A value that a template literal can convert, and the text it gives. *)
Definition can_stringify (rt : Runtime) (v : Value) : bool :=
  match ToString rt v with Ok _ => true | Throw _ => false end.

Definition string_of (rt : Runtime) (v : Value) : JsString :=
  match ToString rt v with Ok s => s | Throw _ => [] end.

(** An optional field that is absent, or present and the empty string. *)
Definition absent_or_empty (v : Value) : Prop := v = VUndefined \/ v = VStr [].

(** An optional number that is absent, or present and zero. *)
Definition absent_or_zero (v : Value) : Prop := v = VUndefined \/ v = VNum 0%float.

(** *** The shape contracts, as the specification words them *)

(** A value fails the contract "non-null object with string fields
    [required], and [optional] fields absent or strings" in one of the ways
    the specification lists. *)
Inductive malformed (required optional : list string) (args : Value) : Prop :=
| is_null_value : args = VNull -> malformed required optional args
| not_an_object : typeof args <> TObject -> malformed required optional args
| required_missing k :
    In k required -> Get_opt args (lit k) = VUndefined ->
    malformed required optional args
| required_not_string k :
    In k required -> typeof (Get_opt args (lit k)) <> TString ->
    malformed required optional args
| optional_not_string k :
    In k optional ->
    Get_opt args (lit k) <> VUndefined -> typeof (Get_opt args (lit k)) <> TString ->
    malformed required optional args.

(** The same contract as a boolean. *)
Definition shape_ok (required optional : list string) (args : Value) : bool :=
  TypeTag_eqb (typeof args) TObject && negb (is_null args)
  && forallb (fun k => TypeTag_eqb (typeof (Get_opt args (lit k))) TString) required
  && forallb (fun k => is_undefined (Get_opt args (lit k))
                       || TypeTag_eqb (typeof (Get_opt args (lit k))) TString) optional.

(** The field contracts of the two validated tools. *)
Definition directions_required : list string := ["origin"; "destination"]%string.
Definition directions_optional : list string := ["mode"]%string.
Definition transit_required : list string := ["start"; "goal"]%string.
Definition transit_optional : list string :=
  ["start_time"; "term"; "limit"; "datum"; "coord_unit"]%string.


Definition places_tools : list JsString :=
  [lit "search_places"; lit "get_place_details"; lit "nearby_search"].

(** *** The response normalizer, as the specification words it

    "For each item: if it has a summary.move object, append +09:00 to
    from_time/to_time unless they already contain a +; if it has a sections
    array, for each section with type move, apply the same suffixing to its
    own from_time/to_time when present."  [update_prop] touches the value of
    one property and nothing else. *)

Fixpoint update_first (k : JsString) (f : Value -> Value) (o : Props) : Props :=
  match o with
  | [] => []
  | (k', v) :: o' =>
      if k' =?s k then (k', f v) :: o' else (k', v) :: update_first k f o'
  end.

Definition update_prop (k : string) (f : Value -> Value) (v : Value) : Value :=
  match v with
  | VObj o => VObj (update_first (lit k) f o)
  | _ => v
  end.

Definition update_elements (f : Value -> Value) (v : Value) : Value :=
  match v with
  | VArr elems => VArr (map f elems)
  | _ => v
  end.

Definition suffix_time (v : Value) : Value :=
  match v with
  | VStr s => VStr (Transit.addTimezone s)
  | _ => v
  end.

(** "when present": an empty string counts as not present. *)
Definition suffix_time_when_present (v : Value) : Value :=
  if ToBoolean v then suffix_time v else v.

Definition suffix_times (f : Value -> Value) (v : Value) : Value :=
  update_prop "to_time" f (update_prop "from_time" f v).

Definition normalize_section (section : Value) : Value :=
  if strict_eq_string (Get_opt section (lit "type")) (lit "move")
  then suffix_times suffix_time_when_present section
  else section.

Definition normalize_item (item : Value) : Value :=
  update_prop "sections" (update_elements normalize_section)
    (update_prop "summary"
       (update_prop "move"
          (fun move => if ToBoolean move then suffix_times suffix_time move else move))
       item).

Definition normalize (data : Value) : Value :=
  update_prop "items" (update_elements normalize_item) data.

(** The bodies on which the normalizer is specified: the time fields that
    it reads are strings ([summary.move] has both; a section of type
    [move] may lack them), and no item or section is [null]. *)
Definition time_when_present (v : Value) : bool :=
  negb (ToBoolean v) || is_string v.

Definition section_ok (section : Value) : bool :=
  negb (is_nullish section) &&
  (if strict_eq_string (Get_opt section (lit "type")) (lit "move")
   then time_when_present (Get_opt section (lit "from_time"))
        && time_when_present (Get_opt section (lit "to_time"))
   else true).

Definition item_ok (item : Value) : bool :=
  negb (is_nullish item) &&
  (let move := Get_opt (Get_opt item (lit "summary")) (lit "move") in
   if ToBoolean move
   then is_string (Get_opt move (lit "from_time"))
        && is_string (Get_opt move (lit "to_time"))
   else true) &&
  (match Get_opt item (lit "sections") with
   | VArr sections => forallb section_ok sections
   | _ => true
   end).

Definition body_ok (data : Value) : bool :=
  negb (is_nullish data) &&
  (match Get_opt data (lit "items") with
   | VArr items => forallb item_ok items
   | _ => true
   end).

(** *** "Only the time fields change"

    Two property lists are related when they have the same names in the same
    order and the values under each name [k] are related by [R k]: nothing is
    added, nothing removed, nothing reordered. *)
Definition props_rel (R : JsString -> Value -> Value -> Prop) (o o' : Props) : Prop :=
  Forall2 (fun p p' => fst p = fst p' /\ R (fst p) (snd p) (snd p')) o o'.

Definition objects_rel (R : JsString -> Value -> Value -> Prop) (v v' : Value) : Prop :=
  v' = v \/ exists o o', v = VObj o /\ v' = VObj o' /\ props_rel R o o'.

Definition arrays_rel (R : Value -> Value -> Prop) (v v' : Value) : Prop :=
  v' = v \/ exists l l', v = VArr l /\ v' = VArr l' /\ Forall2 R l l'.


Definition at_prop (k : string) (R : Value -> Value -> Prop)
           (k' : JsString) (v v' : Value) : Prop :=
  if k' =?s lit k then R v v' else v' = v.





(** *** A runtime for closed examples

    Every property below holds for an arbitrary [Runtime]; the closed
    examples are evaluated at this one.  None of them renders a number, and
    leaving the body unserialised keeps it readable. *)
Definition sample_runtime : Runtime :=
  {| Number_toString := fun _ => lit "0";
     JSON_stringify := fun data => data |}.

Definition no_network : GetCall -> GetOutcome :=
  fun _ => Rejected (AxiosError None (lit "Network Error")).

(** *** Resource URIs *)

(** Every code unit of [s] is one that [.] matches. *)
Definition dot_matches_all (s : JsString) : bool :=
  forallb (fun c => negb (is_line_terminator c)) s.

Definition has_slash (s : JsString) : bool := existsb (N.eqb 47) s.

Definition count_slashes (s : JsString) : nat := List.length (filter (N.eqb 47) s).

(** The text before the last ['/'] of [s] and the segment after it. *)
Fixpoint before_last_slash (s : JsString) : JsString :=
  match s with
  | [] => []
  | c :: s' => if has_slash s' then c :: before_last_slash s' else []
  end.

Fixpoint after_last_slash (s : JsString) : JsString :=
  match s with
  | [] => []
  | c :: s' =>
      if has_slash s' then after_last_slash s'
      else if N.eqb 47 c then s' else c :: s'
  end.

(** The GET of the read handler for a decoded origin and destination. *)
Definition resource_call (API_KEY origin destination : JsString) : GetCall :=
  {| url := [];
     params := [(lit "origin", VStr origin);
                (lit "destination", VStr destination);
                (lit "key", VStr API_KEY)] |}.

(** The GETs of the three places tools, with the values read from the
    arguments. *)
Section PlacesCalls.

Variable rt : Runtime.





End PlacesCalls.

(** *** Sample inputs *)

Definition str (s : string) : Value := VStr (lit s).

Definition obj (fields : list (string * Value)) : Value :=
  VObj (map (fun p => (lit (fst p), snd p)) fields).

(** An upstream that answers 403 with [{ error_message: 'key invalid' }]. *)
Definition key_invalid : GetCall -> GetOutcome :=
  fun _ => Rejected (AxiosError (Some (obj [("error_message", str "key invalid")]%string))
                                (lit "Request failed with status code 403")).

(** An upstream that answers 401 with [{ message: 'unauthorized' }]. *)
Definition unauthorized : GetCall -> GetOutcome :=
  fun _ => Rejected (AxiosError (Some (obj [("message", str "unauthorized")]%string))
                                (lit "Request failed with status code 401")).

(** An upstream whose error body carries, under both names, a message that
    is an object with a [toString] key, as [JSON.parse] builds from
    [{"error_message": {"toString": 1}, "message": {"toString": 1}}]. *)
Definition unprintable : Value := obj [("toString", VNum 1%float)]%string.

Definition unprintable_failure : GetCall -> GetOutcome :=
  fun _ => Rejected (AxiosError (Some (obj [("error_message", unprintable);
                                            ("message", unprintable)]%string))
                                (lit "Request failed with status code 400")).

Definition tokyo_osaka : Value :=
  obj [("origin", str "Tokyo, Japan"); ("destination", str "Osaka, Japan")]%string.

Definition transit_call_with (start_time : Value) : Value :=
  obj [("start", str "35.681,139.767"); ("goal", str "34.702,135.495");
       ("start_time", start_time)]%string.

(** A transit call with every optional field present and empty. *)
Definition transit_all_empty : Value :=
  obj [("start", str "35.681,139.767"); ("goal", str "34.702,135.495");
       ("start_time", str ""); ("term", str ""); ("limit", str "");
       ("datum", str ""); ("coord_unit", str "")]%string.

Definition nearby_zero_radius : Value :=
  obj [("location", obj [("lat", VNum 35.6%float); ("lng", VNum 139.7%float)]);
       ("radius", VNum 0%float); ("language", str "")]%string.

Definition nearby_location_only : Value :=
  obj [("location", obj [("lat", VNum 35.6%float); ("lng", VNum 139.7%float)])]%string.



(** A transit body with one item: a [summary.move] and two sections, the
    second of type ['move'] with an empty [from_time]. *)
Definition sample_body (section_from_time : string) : Value :=
  obj [("items",
        VArr [obj [("summary",
                    obj [("no", str "1");
                         ("move", obj [("from_time", str "2024-02-11T12:00:00");
                                       ("to_time", str "2024-02-11T12:30:00+09:00");
                                       ("distance", str "1200")])]);
                   ("sections",
                    VArr [obj [("type", str "point"); ("name", str "start")];
                          obj [("type", str "move");
                               ("from_time", str section_from_time);
                               ("to_time", str "2024-02-11T12:30:00")]])]]);
       ("unit", obj [("datum", str "wgs84")])]%string.

Definition sample_body_normalized (section_from_time : string) : Value :=
  obj [("items",
        VArr [obj [("summary",
                    obj [("no", str "1");
                         ("move", obj [("from_time", str "2024-02-11T12:00:00+09:00");
                                       ("to_time", str "2024-02-11T12:30:00+09:00");
                                       ("distance", str "1200")])]);
                   ("sections",
                    VArr [obj [("type", str "point"); ("name", str "start")];
                          obj [("type", str "move");
                               ("from_time", str section_from_time);
                               ("to_time", str "2024-02-11T12:30:00+09:00")]])]]);
       ("unit", obj [("datum", str "wgs84")])]%string.

(** A body whose [summary.move] has no [from_time]. *)
Definition body_without_from_time : Value :=
  obj [("items",
        VArr [obj [("summary",
                    obj [("move", obj [("to_time", str "2024-02-11T12:30:00")])])]])]%string.

(** *** Proof automation for runs of a handler *)

(** The handler settled before any GET. *)
Ltac no_call := simpl; let E := fresh in intros E; injection E as <- _; intros [].

(** The handler issued its GET at the failing call. *)
Ltac one_call net Hnet :=
  match goal with
  | |- context [net ?c] =>
      let E := fresh "E" in
      let H := fresh "H" in
      destruct (net c) as [? | []] eqn:E;
      cbn; intros H; injection H as <- <-; intros [<- | []];
      rewrite Hnet in E; try discriminate;
      injection E as <- <-; reflexivity
  end.

(** The handler issued its GET at the call rejected with [error], which is
    not an axios error. *)
Ltac rethrown net Hnet He :=
  match goal with
  | |- context [net ?c] =>
      let E := fresh "E" in
      let H := fresh "H" in
      destruct (net c) as [? | []] eqn:E;
      cbn; intros H; injection H as <- <-; intros [<- | []];
      rewrite Hnet in E; try discriminate;
      inversion E; subst; try discriminate He; reflexivity
  end.

(** Both sides of the goal depend on the outcome of the same GET. *)
Ltac run_one net :=
  match goal with
  | |- context [net ?c] => destruct (net c) as [? | []]; reflexivity
  end.

(* ================================================================= *)
(** ** The catalogues the servers advertise

    The list handlers return literals.  A tool is kept with its name and
    its [inputSchema]; descriptions are free text and are left out. *)

(** The fragment of JSON Schema the catalogues use: [type], [properties],
    [required] and [default]. *)
Inductive Schema : Type :=
| SString (default : option Value)
| SNumber (default : option Value)
| SObject (properties : list (string * Schema)) (required : list string).

Record Tool : Type := {
  tool_name : JsString;
  inputSchema : Schema
}.

(** [ListToolsRequestSchema] handler of the directions server. *)
Definition directions_tools : list Tool :=
  [ {| tool_name := lit "get_directions";
       inputSchema :=
         SObject [("origin", SString None);
                  ("destination", SString None);
                  ("mode", SString (Some (VStr (lit "driving"))))]
                 ["origin"; "destination"] |} ]%string.

(** [ListToolsRequestSchema] handler of the transit server. *)
Definition transit_tools : list Tool :=
  [ {| tool_name := lit "route_transit";
       inputSchema :=
         SObject [("start", SString None);
                  ("goal", SString None);
                  ("start_time", SString None);
                  ("term", SString None);
                  ("limit", SString None);
                  ("datum", SString None);
                  ("coord_unit", SString None)]
                 ["start"; "goal"] |} ]%string.

(** [ListToolsRequestSchema] handler of the places server. *)
Definition places_catalogue : list Tool :=
  [ {| tool_name := lit "search_places";
       inputSchema :=
         SObject [("query", SString None);
                  ("language", SString (Some (VStr (lit "ja"))))]
                 ["query"] |};
    {| tool_name := lit "get_place_details";
       inputSchema :=
         SObject [("placeId", SString None);
                  ("language", SString (Some (VStr (lit "ja"))))]
                 ["placeId"] |};
    {| tool_name := lit "nearby_search";
       inputSchema :=
         SObject [("location",
                   SObject [("lat", SNumber None); ("lng", SNumber None)]
                           ["lat"; "lng"]);
                  ("radius", SNumber (Some (VNum 1000%float)));
                  ("type", SString None);
                  ("language", SString (Some (VStr (lit "ja"))))]
                 ["location"] |} ]%string.

(** [ListResourcesRequestSchema] handler of the directions server: the URIs
    of the resources it lists. *)
Definition directions_resources : list JsString :=
  [lit "directions://ExampleRoute"].

(** What it means for a value to satisfy a schema of this fragment: an
    [object] is neither an array nor [null], every [required] name is
    present, and every declared property that is present satisfies its own
    schema.  Undeclared properties are allowed. *)
Fixpoint conforms (s : Schema) (v : Value) : bool :=
  match s with
  | SString _ => is_string v
  | SNumber _ => TypeTag_eqb (typeof v) TNumber
  | SObject properties required =>
      match v with
      | VObj _ =>
          forallb (fun k => negb (is_undefined (Get_opt v (lit k)))) required
          && (fix each (ps : list (string * Schema)) : bool :=
                match ps with
                | [] => true
                | (k, s') :: ps' =>
                    (is_undefined (Get_opt v (lit k)) || conforms s' (Get_opt v (lit k)))
                    && each ps'
                end) properties
      | _ => false
      end
  end.

(** The default a schema declares for a property of an object. *)
Definition declared_default (s : Schema) (k : string) : option Value :=
  match s with
  | SObject properties _ =>
      match find (fun p => String.eqb (fst p) k) properties with
      | Some (_, SString d) => d
      | Some (_, SNumber d) => d
      | _ => None
      end
  | _ => None
  end.

(** The prefix of the resource URIs. *)
Definition scheme : JsString := lit "directions://".

(** A URI of two non-empty segments that [.] can match. *)
Definition two_segments (request_uri X Y : JsString) : Prop :=
  request_uri = scheme ++ X ++ lit "/" ++ Y /\
  X <> [] /\ Y <> [] /\
  dot_matches_all X = true /\ dot_matches_all Y = true.

Definition has_percent (s : JsString) : bool := existsb (N.eqb 37) s.

(** The read envelope for a body. *)
Definition read_result (rt : Runtime) (request_uri : JsString) (data : Value)
  : Directions.Resource.ReadResult :=
  {| Directions.Resource.contents :=
       [ {| Directions.Resource.uri := request_uri;
            Directions.Resource.mimeType := lit "application/json";
            Directions.Resource.text := JSON_stringify rt data |} ] |}.

(** *** The frame of the normalizer, whatever the time values are

    As [only_times_changed], with no constraint on what a time field
    becomes. *)
Definition any_time (k : JsString) (v v' : Value) : Prop :=
  if (k =?s lit "from_time") || (k =?s lit "to_time") then True else v' = v.

Definition section_frame (v v' : Value) : Prop :=
  v' = v \/ (Get_opt v (lit "type") = VStr (lit "move") /\ objects_rel any_time v v').

Definition item_frame : Value -> Value -> Prop :=
  objects_rel (fun k v v' =>
    if k =?s lit "summary" then objects_rel (at_prop "move" (objects_rel any_time)) v v'
    else if k =?s lit "sections" then arrays_rel section_frame v v'
    else v' = v).

Definition body_frame : Value -> Value -> Prop :=
  objects_rel (at_prop "items" (arrays_rel item_frame)).

(** A time value the arrow function can be applied to. *)
Definition has_includes (v : Value) : bool :=
  match v with VStr _ | VArr _ => true | _ => false end.

(** How a resource read settles once its GET has an outcome. *)
Definition read_settle (rt : Runtime) (request_uri : JsString) (o : GetOutcome)
  : Exc Directions.Resource.ReadResult :=
  match o with
  | Resolved data => Ok (read_result rt request_uri data)
  | Rejected (AxiosError response message) =>
      let upstream := upstream_message "error_message" response in
      let reason := if ToBoolean upstream then upstream else VStr message in
      if can_stringify rt reason
      then Throw (McpError InternalError
                    (lit "Google Maps API error: " ++ string_of rt reason))
      else Throw TypeError
  | Rejected error => Throw error
  end.

(** *** Handlers that suspend at most once *)

Definition settles {R} (h : Async R) : Prop := exists c, h = Settled c.

Definition single_await {R} (h : Async R) : Prop :=
  match h with
  | Settled _ => True
  | Await _ k => forall o, settles (k o)
  end.

(** A decoding that does not succeed. *)
Definition undecodable (s : JsString) : Prop :=
  forall decoded, decodeURIComponent s <> Ok decoded.

(** A directions call in an unknown travel mode, and a nearby search with a
    negative radius and a numeric language. *)
Definition directions_by_teleport : Value :=
  obj [("origin", str "Tokyo"); ("destination", str "Osaka");
       ("mode", str "teleport")]%string.

Definition nearby_negative_radius : Value :=
  obj [("location", obj [("lat", VNum 35.6%float); ("lng", VNum 139.7%float)]);
       ("radius", VNum (-5)%float); ("language", VNum 7%float)]%string.

(** A computation whose only way to fail is a [TypeError]. *)
Definition only_TypeError {A} (m : Exc A) : Prop :=
  forall e, m = Throw e -> e = TypeError.

(** The success envelope of a tool call. *)
Definition text_result (rt : Runtime) (data : Value) : ToolResult :=
  {| content := [ {| type := lit "text"; text := JSON_stringify rt data |} ];
     isError := None |}.

(** A body whose only item has a [summary.move] with a numeric [to_time]. *)
Definition body_with_numeric_time : Value :=
  obj [("items",
        VArr [obj [("summary",
                    obj [("move", obj [("from_time", str "2024-02-11T12:00:00");
                                       ("to_time", VNum 1230%float)])])]])]%string.

(** A body in which a time of [summary.move] is an array: arrays have an
    [includes] of their own, and the concatenation turns them into a
    string. *)
Definition body_with_array_time : Value :=
  obj [("items",
        VArr [obj [("id", str "r1");
                   ("summary",
                    obj [("move", obj [("from_time", VArr [str "12:00"; str "12:05"]);
                                       ("to_time", VArr [str "+"])])])]]);
       ("unit", str "wgs84")]%string.

Definition body_with_array_time_normalized : Value :=
  obj [("items",
        VArr [obj [("id", str "r1");
                   ("summary",
                    obj [("move", obj [("from_time", str "12:00,12:05+09:00");
                                       ("to_time", VArr [str "+"])])])]]);
       ("unit", str "wgs84")]%string.

(** The [location] of a nearby search can be written into the request: it
    is neither [null] nor [undefined], and its [lat] and [lng] convert to
    strings. *)
Definition location_converts (rt : Runtime) (args : Value) : bool :=
  let location := Get_opt args (lit "location") in
  negb (is_nullish location)
  && can_stringify rt (Get_opt location (lit "lat"))
  && can_stringify rt (Get_opt location (lit "lng")).

(** The run raised "method not found" for [name] before sending anything. *)
Definition method_not_found {R} (r : list GetCall * Exc R) (name : JsString) : Prop :=
  r = ([], Throw (McpError MethodNotFound (lit "Unknown tool: " ++ name))).

(** An upstream body that carries an empty message under [k]. *)
Definition empty_message (k : string) (data : Value) : Prop :=
  Get_opt data (lit k) = VStr [].

(** An upstream that answers 500 with an empty message under both names. *)
Definition empty_failure_body : Value :=
  obj [("message", VStr []); ("error_message", VStr [])]%string.

Definition fails_without_message : GetCall -> GetOutcome :=
  fun _ => Rejected (AxiosError (Some empty_failure_body)
                                (lit "Request failed with status code 500")).

(** The arguments of [get_directions] that name the two places of a
    resource URI. *)
Definition route_arguments (origin destination : JsString) : Value :=
  VObj [(lit "origin", VStr origin); (lit "destination", VStr destination)].

(* ================================================================= *)
(** * Properties *)

Unset Implicit Arguments.

(** ** Strings *)

Lemma JsString_eqb_eq (a b : JsString) : (a =?s b) = true <-> a = b.
Proof.
  revert b; induction a as [|x a IH]; intros [|y b]; simpl; split; intros H;
    try reflexivity; try discriminate.
  - apply andb_true_iff in H as [Hx Hab].
    apply N.eqb_eq in Hx. apply IH in Hab. congruence.
  - injection H as -> ->. rewrite N.eqb_refl. simpl. now apply IH.
Qed.

Lemma JsString_eqb_refl (a : JsString) : (a =?s a) = true.
Proof. now apply JsString_eqb_eq. Qed.

Lemma JsString_eqb_neq (a b : JsString) : (a =?s b) = false <-> a <> b.
Proof.
  split; intros H.
  - intros E. apply JsString_eqb_eq in E. congruence.
  - destruct (a =?s b) eqn:E; [|reflexivity].
    apply JsString_eqb_eq in E. contradiction.
Qed.

(** A string with a ['+'] somewhere includes ['+']. *)
Lemma String_includes_plus_app (a b : JsString) :
  String_includes (a ++ lit "+" ++ b) (lit "+") = true.
Proof.
  induction a as [|c a IH].
  - reflexivity.
  - change ((c :: a) ++ lit "+" ++ b) with (c :: (a ++ lit "+" ++ b)).
    cbn [String_includes]. rewrite IH.
    destruct (strip_prefix (lit "+") (c :: a ++ lit "+" ++ b)); reflexivity.
Qed.

Lemma String_includes_suffixed (s : JsString) :
  String_includes (s ++ lit "+09:00") (lit "+") = true.
Proof. exact (String_includes_plus_app s (lit "09:00")). Qed.

(** C5.  The timezone suffixing of the transit server is idempotent:
    [addTimezone (addTimezone s) = addTimezone s] for every string [s]; once
    a value contains ['+'] it is never suffixed again. *)
Theorem addTimezone_idempotent (s : JsString) :
  Transit.addTimezone (Transit.addTimezone s) = Transit.addTimezone s.
Proof.
  unfold Transit.addTimezone.
  destruct (String_includes s (lit "+")) eqn:E.
  - now rewrite E.
  - now rewrite String_includes_suffixed.
Qed.

(** ** String conversion *)

Lemma Value_elements_ind (P : Value -> Prop) :
  P VUndefined -> P VNull -> (forall b, P (VBool b)) -> (forall x, P (VNum x)) ->
  (forall s, P (VStr s)) ->
  (forall elems, Forall P elems -> P (VArr elems)) ->
  (forall props, P (VObj props)) ->
  forall v, P v.
Proof.
  intros Hu Hn Hb Hx Hs Ha Ho.
  fix IH 1.
  intros [| | b | x | s | elems | props];
    [exact Hu | exact Hn | apply Hb | apply Hx | apply Hs | | apply Ho].
  apply Ha. induction elems as [|x l IHl]; constructor; [apply IH | exact IHl].
Qed.

Lemma ToString_TypeError (rt : Runtime) (v : Value) (e : Exception) :
  ToString rt v = Throw e -> e = TypeError.
Proof.
  revert e. induction v as [| | [|] | x | s | elems IH | props] using Value_elements_ind;
    intros e; simpl; try discriminate.
  - induction IH as [|x l Hx _ IHl]; [discriminate|].
    destruct (match x with
              | VUndefined | VNull => Ok []
              | _ => ToString rt x
              end) as [s|e'] eqn:Ex; cbn [bind].
    + destruct l as [|y l]; [discriminate|].
      match goal with
      | |- context [bind ?m _] => destruct m as [rest|e''] eqn:El
      end; cbn [bind]; [discriminate|].
      intros [= <-]. now apply IHl.
    + intros [= <-]. destruct x; try discriminate; exact (Hx _ Ex).
  - destruct (lookup (lit "toString") props); [now intros [= <-] | discriminate].
Qed.

Lemma can_stringify_Ok (rt : Runtime) (v : Value) :
  can_stringify rt v = true -> ToString rt v = Ok (string_of rt v).
Proof. unfold can_stringify, string_of. now destruct (ToString rt v). Qed.

Lemma can_stringify_Throw (rt : Runtime) (v : Value) :
  can_stringify rt v = false -> ToString rt v = Throw TypeError.
Proof.
  unfold can_stringify. destruct (ToString rt v) as [s|e] eqn:E; [discriminate|].
  intros _. now rewrite (ToString_TypeError rt v e E).
Qed.

(** ** Property access and short-circuit evaluation *)

Lemma Get_defined (v : Value) (k : JsString) :
  is_nullish v = false -> Get v k = Ok (Get_opt v k).
Proof. destruct v; simpl; intros H; try discriminate; reflexivity. Qed.

Lemma andb_exc_Ok (a b : bool) : Ok a &&& Ok b = Ok (a && b).
Proof. destruct a; reflexivity. Qed.

Lemma orb_exc_Ok (a b : bool) : Ok a ||| Ok b = Ok (a || b).
Proof. destruct a; reflexivity. Qed.

Lemma andb_exc_false (b : Exc bool) : Ok false &&& b = Ok false.
Proof. reflexivity. Qed.

Lemma TypeTag_eqb_eq (a b : TypeTag) : TypeTag_eqb a b = true <-> a = b.
Proof. destruct a, b; simpl; split; intros H; try reflexivity; discriminate. Qed.

Lemma is_undefined_eq (v : Value) : is_undefined v = true <-> v = VUndefined.
Proof. destruct v; simpl; split; intros H; try reflexivity; discriminate. Qed.

Lemma typeof_object_not_null (v : Value) :
  TypeTag_eqb (typeof v) TObject = true -> is_null v = false -> is_nullish v = false.
Proof. destruct v; simpl; intros; try discriminate; reflexivity. Qed.

(** ** The validators *)

Lemma string_or_absent_eq (args : Value) (k : string) :
  is_nullish args = false ->
  Transit.string_or_absent args k
  = Ok (is_undefined (Get_opt args (lit k))
        || TypeTag_eqb (typeof (Get_opt args (lit k))) TString).
Proof.
  intros H. unfold Transit.string_or_absent.
  rewrite !Get_defined by exact H. simpl. apply orb_exc_Ok.
Qed.

Lemma isValidDirectionsArgs_eq (args : Value) :
  Directions.isValidDirectionsArgs args
  = Ok (shape_ok directions_required directions_optional args).
Proof.
  unfold Directions.isValidDirectionsArgs, shape_ok, directions_required, directions_optional.
  destruct (TypeTag_eqb (typeof args) TObject) eqn:Ht; [|reflexivity].
  destruct (is_null args) eqn:Hn; [reflexivity|].
  pose proof (typeof_object_not_null _ Ht Hn) as H.
  rewrite !Get_defined by exact H. cbn [bind forallb negb].
  rewrite !orb_exc_Ok, !andb_exc_Ok.
  now rewrite !andb_true_r.
Qed.

Lemma isValidRouteTransitArgs_eq (args : Value) :
  Transit.isValidRouteTransitArgs args
  = Ok (shape_ok transit_required transit_optional args).
Proof.
  unfold Transit.isValidRouteTransitArgs, shape_ok, transit_required, transit_optional.
  destruct (TypeTag_eqb (typeof args) TObject) eqn:Ht; [|reflexivity].
  destruct (is_null args) eqn:Hn; [reflexivity|].
  pose proof (typeof_object_not_null _ Ht Hn) as H.
  rewrite !string_or_absent_eq by exact H. rewrite !Get_defined by exact H. cbn [bind forallb negb].
  rewrite !andb_exc_Ok.
  now rewrite !andb_true_r, !andb_assoc.
Qed.

Lemma forallb_false_In {A} (f : A -> bool) (l : list A) :
  forallb f l = false <-> exists x, In x l /\ f x = false.
Proof.
  induction l as [|a l IH]; simpl.
  - split; [discriminate | intros (x & [] & _)].
  - rewrite andb_false_iff, IH. split.
    + intros [H | (x & Hx & Hf)]; eauto.
    + intros (x & [<- | Hx] & Hf); eauto.
Qed.

Lemma shape_ok_false_iff (required optional : list string) (args : Value) :
  shape_ok required optional args = false <-> malformed required optional args.
Proof.
  unfold shape_ok. split.
  - intros H. apply andb_false_iff in H as [H | H];
      [apply andb_false_iff in H as [H | H]; [apply andb_false_iff in H as [H | H] |] |].
    + apply not_an_object. intros E.
      apply TypeTag_eqb_eq in E. congruence.
    + apply is_null_value. destruct args; simpl in H; try discriminate; reflexivity.
    + apply forallb_false_In in H as (k & Hk & Hf).
      apply required_not_string with k; [assumption|].
      intros E. apply TypeTag_eqb_eq in E. congruence.
    + apply forallb_false_In in H as (k & Hk & Hf).
      apply orb_false_iff in Hf as [Hu Ht].
      apply optional_not_string with k; [assumption| |].
      * intros E. apply is_undefined_eq in E. congruence.
      * intros E. apply TypeTag_eqb_eq in E. congruence.
  - intros H. destruct H as [-> | Ht | k Hk Hu | k Hk Ht | k Hk Hu Ht].
    + reflexivity.
    + destruct (TypeTag_eqb (typeof args) TObject) eqn:E; [|reflexivity].
      apply TypeTag_eqb_eq in E. contradiction.
    + apply andb_false_iff. left. apply andb_false_iff. right.
      apply forallb_false_In. exists k. split; [assumption|]. now rewrite Hu.
    + apply andb_false_iff. left. apply andb_false_iff. right.
      apply forallb_false_In. exists k. split; [assumption|].
      destruct (TypeTag_eqb _ TString) eqn:E; [|reflexivity].
      apply TypeTag_eqb_eq in E. contradiction.
    + apply andb_false_iff. right.
      apply forallb_false_In. exists k. split; [assumption|].
      apply orb_false_iff. split.
      * destruct (is_undefined _) eqn:E; [|reflexivity].
        apply is_undefined_eq in E. contradiction.
      * destruct (TypeTag_eqb _ TString) eqn:E; [|reflexivity].
        apply TypeTag_eqb_eq in E. contradiction.
Qed.

(** C6.  The directions and transit validators never raise, and they return
    [false] exactly on the malformed values: [null], a non-object, an object
    missing a required string field (origin/destination, start/goal), one
    whose required field is not a string, or one whose optional field is
    present and not a string. *)
Theorem validators_reject_malformed (args : Value) :
  (exists b, Directions.isValidDirectionsArgs args = Ok b) /\
  (exists b, Transit.isValidRouteTransitArgs args = Ok b) /\
  (Directions.isValidDirectionsArgs args = Ok false
   <-> malformed directions_required directions_optional args) /\
  (Transit.isValidRouteTransitArgs args = Ok false
   <-> malformed transit_required transit_optional args).
Proof.
  rewrite isValidDirectionsArgs_eq, isValidRouteTransitArgs_eq.
  repeat split; eauto.
  - intros H. apply shape_ok_false_iff. congruence.
  - intros H. apply shape_ok_false_iff in H. congruence.
  - intros H. apply shape_ok_false_iff. congruence.
  - intros H. apply shape_ok_false_iff in H. congruence.
Qed.

(** ** Dispatch *)

Lemma shape_ok_defined (required optional : list string) (args : Value) :
  shape_ok required optional args = true -> is_nullish args = false.
Proof.
  unfold shape_ok. intros H.
  apply andb_true_iff in H as [H _]. apply andb_true_iff in H as [H _].
  apply andb_true_iff in H as [Ht Hn].
  apply typeof_object_not_null; [assumption|].
  now destruct (is_null args).
Qed.

(** C7.  In each of the three servers a tool name outside the catalogue
    makes the dispatcher raise the protocol error "method not found"; nothing
    is sent and no result envelope is returned.  In the places server the
    error is thrown inside the [try] and passes through the [catch]
    unchanged. *)
Theorem unknown_tool_is_method_not_found
        (rt : Runtime) (API_KEY name : JsString) (arguments : Value)
        (net : GetCall -> GetOutcome) :
  (name <> lit "get_directions" ->
   run (Directions.CallTool rt API_KEY name arguments) net
   = ([], Throw (McpError MethodNotFound (lit "Unknown tool: " ++ name)))) /\
  (name <> lit "route_transit" ->
   run (Transit.CallTool rt name arguments) net
   = ([], Throw (McpError MethodNotFound (lit "Unknown tool: " ++ name)))) /\
  (~ In name places_tools ->
   run (Places.CallTool rt name arguments) net
   = ([], Throw (McpError MethodNotFound (lit "Unknown tool: " ++ name)))).
Proof.
  repeat split; intros H.
  - unfold Directions.CallTool.
    apply JsString_eqb_neq in H. now rewrite H.
  - unfold Transit.CallTool.
    apply JsString_eqb_neq in H. now rewrite H.
  - unfold Places.CallTool, places_tools in *. simpl in H.
    assert (H1 : (name =?s lit "search_places") = false)
      by (apply JsString_eqb_neq; intuition).
    assert (H2 : (name =?s lit "get_place_details") = false)
      by (apply JsString_eqb_neq; intuition).
    assert (H3 : (name =?s lit "nearby_search") = false)
      by (apply JsString_eqb_neq; intuition).
    now rewrite H1, H2, H3.
Qed.

Lemma unknown_tool_witness :
  (lit "bogus_tool" <> lit "get_directions" /\
   run (Directions.CallTool sample_runtime (lit "key") (lit "bogus_tool") (VObj [])) no_network
   = ([], Throw (McpError MethodNotFound (lit "Unknown tool: bogus_tool")))) /\
  (lit "bogus_tool" <> lit "route_transit" /\
   run (Transit.CallTool sample_runtime (lit "bogus_tool") (VObj [])) no_network
   = ([], Throw (McpError MethodNotFound (lit "Unknown tool: bogus_tool")))) /\
  (~ In (lit "bogus_tool") places_tools /\
   run (Places.CallTool sample_runtime (lit "bogus_tool") (VObj [])) no_network
   = ([], Throw (McpError MethodNotFound (lit "Unknown tool: bogus_tool")))).
Proof.
  pose proof (unknown_tool_is_method_not_found
                sample_runtime (lit "key") (lit "bogus_tool") (VObj []) no_network)
    as (Hd & Ht & Hp).
  assert (N1 : lit "bogus_tool" <> lit "get_directions") by discriminate.
  assert (N2 : lit "bogus_tool" <> lit "route_transit") by discriminate.
  assert (N3 : ~ In (lit "bogus_tool") places_tools).
  { simpl. intros [E | [E | [E | []]]]; discriminate. }
  repeat split; auto.
Defined.

(** ** The read handler of the directions server *)

(** C10.  Some URI matches the [directions://{origin}/{destination}] pattern
    and still fails: on ['directions://%E0%/Osaka'] the pattern captures
    ['%E0%'] and ['Osaka'], URL-decoding the first raises a [URIError], and
    the handler settles with it before anything is sent.  It is neither the
    invalid-URI protocol error nor the internal-error mapping, and no
    envelope is produced. *)
Theorem malformed_escape_raises_URIError
        (rt : Runtime) (API_KEY : JsString) (net : GetCall -> GetOutcome) :
  String_match (lit "directions://%E0%/Osaka") Directions.regex
  = Some [lit "%E0%"; lit "Osaka"] /\
  decodeURIComponent (lit "%E0%") = Throw URIError /\
  run (Directions.ReadResource rt API_KEY (lit "directions://%E0%/Osaka")) net
  = ([], Throw URIError) /\
  (forall code message, URIError <> McpError code message).
Proof. repeat split; try reflexivity. discriminate. Qed.

(** ** Upstream failures *)

Lemma directions_upstream_failure
      (rt : Runtime) (API_KEY name : JsString) (arguments : Value)
      (net : GetCall -> GetOutcome) (call : GetCall)
      (response : option Value) (message : JsString)
      (calls : list GetCall) (result : Exc ToolResult) :
  net call = Rejected (AxiosError response message) ->
  run (Directions.CallTool rt API_KEY name arguments) net = (calls, result) ->
  In call calls ->
  result = (reason <- ToString rt (Directions.error_message response message) ;;
            Ok (error_result (lit "Google Maps API error: " ++ reason))).
Proof.
  intros Hnet. unfold Directions.CallTool, sync, axios_get.
  destruct (negb (name =?s lit "get_directions")).
  { simpl. intros E; injection E as <- _; intros []. }
  rewrite isValidDirectionsArgs_eq.
  destruct (shape_ok _ _ arguments) eqn:Hs.
  2:{ simpl. intros E; injection E as <- _; intros []. }
  apply shape_ok_defined in Hs.
  rewrite !Get_defined by exact Hs. cbn.
  match goal with |- context [net ?c] => destruct (net c) as [data | []] eqn:E end;
    cbn; intros H; injection H as <- <-; intros [<- | []];
    rewrite Hnet in E; try discriminate.
  now injection E as <- <-.
Qed.

Lemma shape_ok_optional (required optional : list string) (args : Value) (k : string) :
  shape_ok required optional args = true -> In k optional ->
  Get_opt args (lit k) = VUndefined \/ exists s, Get_opt args (lit k) = VStr s.
Proof.
  unfold shape_ok. intros H Hk.
  apply andb_true_iff in H as [_ H].
  rewrite forallb_forall in H. specialize (H k Hk).
  destruct (Get_opt args (lit k)); simpl in H; try discriminate; eauto.
Qed.

Lemma startTime_valid (rt : Runtime) (args : Value) :
  shape_ok transit_required transit_optional args = true ->
  Transit.startTime rt args
  = Ok (VStr match Get_opt args (lit "start_time") with
             | VStr (c :: s) => Transit.normalizeTime (c :: s)
             | _ => lit "2024-02-11T12:00:00+09:00"
             end).
Proof.
  intros H. unfold Transit.startTime.
  rewrite !Get_defined by exact (shape_ok_defined _ _ _ H).
  assert (Hk : In "start_time"%string transit_optional) by (simpl; tauto).
  destruct (shape_ok_optional _ _ _ _ H Hk) as [E | [s E]]; rewrite E.
  - reflexivity.
  - destruct s; reflexivity.
Qed.

Lemma request_params_valid (rt : Runtime) (args : Value) :
  shape_ok transit_required transit_optional args = true ->
  exists start_time,
    Transit.startTime rt args = Ok start_time /\
    Transit.request_params rt args
    = Ok [(lit "start", Get_opt args (lit "start"));
          (lit "goal", Get_opt args (lit "goal"));
          (lit "start_time", start_time);
          (lit "term", or_else (Get_opt args (lit "term")) (VStr (lit "60")));
          (lit "limit", or_else (Get_opt args (lit "limit")) (VStr (lit "3")));
          (lit "datum", or_else (Get_opt args (lit "datum")) (VStr (lit "wgs84")));
          (lit "coord_unit",
           or_else (Get_opt args (lit "coord_unit")) (VStr (lit "degree")))].
Proof.
  intros H. eexists. split; [apply startTime_valid; exact H|].
  unfold Transit.request_params, Transit.field_or.
  rewrite (startTime_valid rt _ H).
  rewrite !Get_defined by exact (shape_ok_defined _ _ _ H).
  reflexivity.
Qed.

Lemma transit_upstream_failure
      (rt : Runtime) (name : JsString) (arguments : Value)
      (net : GetCall -> GetOutcome) (call : GetCall)
      (response : option Value) (message : JsString)
      (calls : list GetCall) (result : Exc ToolResult) :
  net call = Rejected (AxiosError response message) ->
  run (Transit.CallTool rt name arguments) net = (calls, result) ->
  In call calls ->
  result = (reason <- ToString rt (Transit.error_message response message) ;;
            Ok (error_result (lit "Navitime API error: " ++ reason))).
Proof.
  intros Hnet. unfold Transit.CallTool, sync, axios_get.
  destruct (negb (name =?s lit "route_transit")).
  { simpl. intros E; injection E as <- _; intros []. }
  rewrite isValidRouteTransitArgs_eq.
  destruct (shape_ok _ _ arguments) eqn:Hs.
  2:{ simpl. intros E; injection E as <- _; intros []. }
  destruct (request_params_valid rt _ Hs) as (st & _ & ->). cbn.
  match goal with |- context [net ?c] => destruct (net c) as [data | []] eqn:E end.
  1: cbn; destruct (Transit.transform rt data) as [data' | []].
  all: cbn; intros H; injection H as <- <-; intros [<- | []];
    rewrite Hnet in E; try discriminate.
  now injection E as <- <-.
Qed.

Lemma nearby_params_defined (rt : Runtime) (args : Value) :
  is_nullish args = false ->
  is_nullish (Get_opt args (lit "location")) = false ->
  Places.nearby_params rt args
  = (lat_text <- ToString rt (Get_opt (Get_opt args (lit "location")) (lit "lat")) ;;
     lng_text <- ToString rt (Get_opt (Get_opt args (lit "location")) (lit "lng")) ;;
     Ok [(lit "location", VStr (lat_text ++ lit "," ++ lng_text));
         (lit "radius", or_else (Get_opt args (lit "radius")) (VNum 1000%float));
         (lit "type", Get_opt args (lit "type"));
         (lit "language", or_else (Get_opt args (lit "language")) (VStr (lit "ja")))]).
Proof.
  intros Hn Hl. unfold Places.nearby_params.
  rewrite !Get_defined by exact Hn. cbn [bind].
  rewrite !Get_defined by exact Hl. reflexivity.
Qed.

Lemma places_upstream_failure
      (rt : Runtime) (name : JsString) (arguments : Value)
      (net : GetCall -> GetOutcome) (call : GetCall)
      (response : option Value) (message : JsString)
      (calls : list GetCall) (result : Exc ToolResult) :
  net call = Rejected (AxiosError response message) ->
  run (Places.CallTool rt name arguments) net = (calls, result) ->
  In call calls ->
  result = (reason <- ToString rt (Places.error_message response message) ;;
            Ok (error_result (lit "Google Places API error: " ++ reason))).
Proof.
  intros Hnet. unfold Places.CallTool.
  destruct (name =?s lit "search_places");
    [| destruct (name =?s lit "get_place_details");
       [| destruct (name =?s lit "nearby_search"); [| no_call ] ] ].
  - unfold Places.handleSearchPlaces, sync, axios_get.
    destruct (is_nullish arguments) eqn:Hn.
    + destruct arguments; try discriminate; no_call.
    + rewrite !Get_defined by exact Hn. cbn. one_call net Hnet.
  - unfold Places.handleGetPlaceDetails, sync, axios_get.
    destruct (is_nullish arguments) eqn:Hn.
    + destruct arguments; try discriminate; no_call.
    + rewrite !Get_defined by exact Hn. cbn. one_call net Hnet.
  - unfold Places.handleNearbySearch, sync, axios_get.
    destruct (is_nullish arguments) eqn:Hn.
    + destruct arguments; try discriminate; no_call.
    + destruct (is_nullish (Get_opt arguments (lit "location"))) eqn:Hl.
      * unfold Places.nearby_params. rewrite !Get_defined by exact Hn. cbn [bind].
        destruct (Get_opt arguments (lit "location")); try discriminate; no_call.
      * rewrite nearby_params_defined by assumption.
        destruct (ToString rt (Get_opt (Get_opt arguments (lit "location")) (lit "lat")))
          as [lat_text|e1] eqn:E1;
          [|rewrite (ToString_TypeError _ _ _ E1); no_call].
        destruct (ToString rt (Get_opt (Get_opt arguments (lit "location")) (lit "lng")))
          as [lng_text|e2] eqn:E2;
          [|rewrite (ToString_TypeError _ _ _ E2); no_call].
        cbn. one_call net Hnet.
Qed.

Lemma resource_upstream_failure
      (rt : Runtime) (API_KEY request_uri : JsString)
      (net : GetCall -> GetOutcome) (call : GetCall)
      (response : option Value) (message : JsString)
      (calls : list GetCall) (result : Exc Directions.Resource.ReadResult) :
  net call = Rejected (AxiosError response message) ->
  run (Directions.ReadResource rt API_KEY request_uri) net = (calls, result) ->
  In call calls ->
  result = (reason <- ToString rt (Directions.error_message response message) ;;
            Throw (McpError InternalError (lit "Google Maps API error: " ++ reason))).
Proof.
  intros Hnet. unfold Directions.ReadResource, sync, axios_get.
  destruct (String_match request_uri Directions.regex) as [groups|]; [| no_call].
  destruct (decodeURIComponent (group groups 1)) as [origin|]; [| no_call].
  destruct (decodeURIComponent (group groups 2)) as [destination|]; [| no_call].
  cbn. one_call net Hnet.
Qed.

(** C4 (as amended).  When the GET of a tool call fails with an axios error
    (a non-2xx status, or no response at all) each of the three servers
    returns a result envelope with [isError: true] and the text
    ["<Provider> API error: "] followed by the reported message, provided
    that message converts to a string; no protocol error is raised.  The
    reported message is the [error_message] of the upstream body when it is
    truthy (directions, places), its [message] when it is neither [null] nor
    [undefined] (transit), and the message of the error itself otherwise.
    The read handler of the directions server instead raises the
    protocol-level internal error with that text. *)
Theorem upstream_failure_tool_envelope_resource_error
        (rt : Runtime) (API_KEY name request_uri : JsString) (arguments : Value)
        (net : GetCall -> GetOutcome) (call : GetCall)
        (response : option Value) (message reason : JsString) :
  net call = Rejected (AxiosError response message) ->
  let google := upstream_message "error_message" response in
  let navitime := upstream_message "message" response in
  (ToString rt (if ToBoolean google then google else VStr message) = Ok reason ->
   (forall calls result,
       run (Directions.CallTool rt API_KEY name arguments) net = (calls, result) ->
       In call calls ->
       result = Ok (error_result (lit "Google Maps API error: " ++ reason))) /\
   (forall calls result,
       run (Places.CallTool rt name arguments) net = (calls, result) ->
       In call calls ->
       result = Ok (error_result (lit "Google Places API error: " ++ reason))) /\
   (forall calls result,
       run (Directions.ReadResource rt API_KEY request_uri) net = (calls, result) ->
       In call calls ->
       result = Throw (McpError InternalError
                         (lit "Google Maps API error: " ++ reason)))) /\
  (ToString rt (if is_nullish navitime then VStr message else navitime) = Ok reason ->
   forall calls result,
     run (Transit.CallTool rt name arguments) net = (calls, result) ->
     In call calls ->
     result = Ok (error_result (lit "Navitime API error: " ++ reason))).
Proof.
  intros Hnet google navitime. split.
  - intros Hs. repeat split; intros calls result Hrun Hin.
    + rewrite (directions_upstream_failure rt API_KEY name arguments net call
                 response message calls result Hnet Hrun Hin).
      change (Directions.error_message response message)
        with (if ToBoolean google then google else VStr message).
      now rewrite Hs.
    + rewrite (places_upstream_failure rt name arguments net call
                 response message calls result Hnet Hrun Hin).
      change (Places.error_message response message)
        with (if ToBoolean google then google else VStr message).
      now rewrite Hs.
    + rewrite (resource_upstream_failure rt API_KEY request_uri net call
                 response message calls result Hnet Hrun Hin).
      change (Directions.error_message response message)
        with (if ToBoolean google then google else VStr message).
      now rewrite Hs.
  - intros Hs calls result Hrun Hin.
    rewrite (transit_upstream_failure rt name arguments net call
               response message calls result Hnet Hrun Hin).
    change (Transit.error_message response message)
      with (if is_nullish navitime then VStr message else navitime).
    now rewrite Hs.
Qed.

(** ** The request translators *)

Lemma transit_issues (rt : Runtime) (args : Value) (net : GetCall -> GetOutcome) :
  Transit.isValidRouteTransitArgs args = Ok true ->
  exists ps,
    Transit.request_params rt args = Ok ps /\
    issued (run (Transit.CallTool rt (lit "route_transit") args) net)
    = [ {| url := lit "/route_transit"; params := ps |} ].
Proof.
  intros Hv. rewrite isValidRouteTransitArgs_eq in Hv. injection Hv as Hs.
  destruct (request_params_valid rt _ Hs) as (st & _ & Hps).
  eexists. split; [exact Hps|].
  unfold Transit.CallTool, sync, axios_get.
  rewrite isValidRouteTransitArgs_eq, Hs, Hps. cbn.
  match goal with |- context [net ?c] => destruct (net c) as [data | []] end.
  1: cbn; destruct (Transit.transform rt data) as [data' | []].
  all: reflexivity.
Qed.

Lemma transit_sent (rt : Runtime) (args : Value) (net : GetCall -> GetOutcome) :
  Transit.isValidRouteTransitArgs args = Ok true ->
  let r := run (Transit.CallTool rt (lit "route_transit") args) net in
  sent_param r "start_time"
  = Some (VStr match Get_opt args (lit "start_time") with
               | VStr (c :: s) => Transit.normalizeTime (c :: s)
               | _ => lit "2024-02-11T12:00:00+09:00"
               end) /\
  sent_param r "term" = Some (or_else (Get_opt args (lit "term")) (VStr (lit "60"))) /\
  sent_param r "limit" = Some (or_else (Get_opt args (lit "limit")) (VStr (lit "3"))) /\
  sent_param r "datum" = Some (or_else (Get_opt args (lit "datum")) (VStr (lit "wgs84"))) /\
  sent_param r "coord_unit"
  = Some (or_else (Get_opt args (lit "coord_unit")) (VStr (lit "degree"))).
Proof.
  intros Hv r. subst r.
  destruct (transit_issues rt args net Hv) as (ps & Hps & Hr).
  unfold sent_param. rewrite Hr. cbn [params].
  rewrite isValidRouteTransitArgs_eq in Hv. injection Hv as Hs.
  destruct (request_params_valid rt _ Hs) as (st & Hst & Hps').
  rewrite Hps' in Hps. injection Hps as <-.
  rewrite (startTime_valid rt _ Hs) in Hst. injection Hst as <-.
  repeat split; reflexivity.
Qed.

(** C2 (as amended).  For every valid transit call the [start_time] sent
    upstream is the literal ['2024-02-11T12:00:00+09:00'] when the argument
    is omitted, the argument unchanged when it contains ['+'], and the
    argument followed by ['+09:00'] when it is a non-empty string without
    ['+'].  The empty string is falsy: it is translated to the default
    literal, as if omitted. *)
Theorem start_time_translation
        (rt : Runtime) (args : Value) (net : GetCall -> GetOutcome) :
  Transit.isValidRouteTransitArgs args = Ok true ->
  let sent := sent_param (run (Transit.CallTool rt (lit "route_transit") args) net)
                         "start_time" in
  (Get_opt args (lit "start_time") = VUndefined ->
   sent = Some (VStr (lit "2024-02-11T12:00:00+09:00"))) /\
  (forall s, Get_opt args (lit "start_time") = VStr s ->
             String_includes s (lit "+") = true ->
             sent = Some (VStr s)) /\
  (forall s, Get_opt args (lit "start_time") = VStr s ->
             s <> [] ->
             String_includes s (lit "+") = false ->
             sent = Some (VStr (s ++ lit "+09:00"))) /\
  (Get_opt args (lit "start_time") = VStr [] ->
   sent = Some (VStr (lit "2024-02-11T12:00:00+09:00"))).
Proof.
  intros Hv sent. subst sent.
  destruct (transit_sent rt args net Hv) as (-> & _).
  repeat split.
  - now intros ->.
  - intros s -> Hs. destruct s as [|c s]; [discriminate|].
    unfold Transit.normalizeTime. now rewrite Hs.
  - intros s -> Hne Hs. destruct s as [|c s]; [contradiction|].
    unfold Transit.normalizeTime. now rewrite Hs.
  - now intros ->.
Qed.

Lemma or_else_absent_or_empty (v d : Value) :
  absent_or_empty v -> or_else v d = d.
Proof. intros [-> | ->]; reflexivity. Qed.

Lemma directions_sent_mode
      (rt : Runtime) (API_KEY : JsString) (args : Value) (net : GetCall -> GetOutcome) :
  Directions.isValidDirectionsArgs args = Ok true ->
  sent_param (run (Directions.CallTool rt API_KEY (lit "get_directions") args) net) "mode"
  = Some (or_else (Get_opt args (lit "mode")) (VStr (lit "driving"))).
Proof.
  intros Hv. unfold Directions.CallTool, sync, axios_get. rewrite Hv.
  rewrite isValidDirectionsArgs_eq in Hv. injection Hv as Hs.
  apply shape_ok_defined in Hs.
  rewrite !Get_defined by exact Hs. cbn.
  match goal with |- context [net ?c] => destruct (net c) as [data | []] end;
    reflexivity.
Qed.

Lemma places_sent_language
      (rt : Runtime) (name : JsString) (args : Value) (net : GetCall -> GetOutcome) :
  name = lit "search_places" \/ name = lit "get_place_details" ->
  is_nullish args = false ->
  sent_param (run (Places.CallTool rt name args) net) "language"
  = Some (or_else (Get_opt args (lit "language")) (VStr (lit "ja"))).
Proof.
  intros [-> | ->] Hn; unfold Places.CallTool; cbn [JsString_eqb];
    [change (lit "search_places" =?s lit "search_places") with true
    |change (lit "get_place_details" =?s lit "search_places") with false;
     change (lit "get_place_details" =?s lit "get_place_details") with true];
    cbv iota;
    unfold Places.handleSearchPlaces, Places.handleGetPlaceDetails, sync, axios_get;
    rewrite !Get_defined by exact Hn; cbn;
    match goal with |- context [net ?c] => destruct (net c) as [data | []] end;
    reflexivity.
Qed.

Lemma places_sent_nearby
      (rt : Runtime) (args : Value) (net : GetCall -> GetOutcome) :
  is_nullish args = false ->
  is_nullish (Get_opt args (lit "location")) = false ->
  can_stringify rt (Get_opt (Get_opt args (lit "location")) (lit "lat")) = true ->
  can_stringify rt (Get_opt (Get_opt args (lit "location")) (lit "lng")) = true ->
  let r := run (Places.CallTool rt (lit "nearby_search") args) net in
  sent_param r "language" = Some (or_else (Get_opt args (lit "language")) (VStr (lit "ja")))
  /\ sent_param r "radius" = Some (or_else (Get_opt args (lit "radius")) (VNum 1000%float))
  /\ sent_param r "type" = Some (Get_opt args (lit "type")).
Proof.
  intros Hn Hl Hlat Hlng r. subst r. unfold Places.CallTool.
  change (lit "nearby_search" =?s lit "search_places") with false.
  change (lit "nearby_search" =?s lit "get_place_details") with false.
  change (lit "nearby_search" =?s lit "nearby_search") with true.
  cbv iota.
  unfold Places.handleNearbySearch, sync, axios_get.
  rewrite nearby_params_defined by assumption.
  rewrite (can_stringify_Ok _ _ Hlat), (can_stringify_Ok _ _ Hlng). cbn.
  match goal with |- context [net ?c] => destruct (net c) as [data | []] end;
    repeat split; reflexivity.
Qed.

(** C8.  An optional field that is present but empty is translated exactly
    as an absent one: the fixed default is sent.  Transit: [start_time ''] gives
    the literal default timestamp and [term] / [limit] / [datum] /
    [coord_unit] [''] give ['60'] / ['3'] / ['wgs84'] / ['degree'];
    directions: [mode ''] gives ['driving']; places: [language ''] gives
    ['ja'], and [radius 0] of the nearby search gives [1000].  The call has
    to reach its request: the arguments are valid (directions, transit) or
    not [null] (places), and a nearby search has a [location] whose [lat]
    and [lng] the template literal can convert to strings. *)
Theorem empty_optional_field_gets_default
        (rt : Runtime) (API_KEY : JsString) (args : Value) (net : GetCall -> GetOutcome) :
  (Transit.isValidRouteTransitArgs args = Ok true ->
   let r := run (Transit.CallTool rt (lit "route_transit") args) net in
   (absent_or_empty (Get_opt args (lit "start_time")) ->
    sent_param r "start_time" = Some (VStr (lit "2024-02-11T12:00:00+09:00"))) /\
   (absent_or_empty (Get_opt args (lit "term")) ->
    sent_param r "term" = Some (VStr (lit "60"))) /\
   (absent_or_empty (Get_opt args (lit "limit")) ->
    sent_param r "limit" = Some (VStr (lit "3"))) /\
   (absent_or_empty (Get_opt args (lit "datum")) ->
    sent_param r "datum" = Some (VStr (lit "wgs84"))) /\
   (absent_or_empty (Get_opt args (lit "coord_unit")) ->
    sent_param r "coord_unit" = Some (VStr (lit "degree")))) /\
  (Directions.isValidDirectionsArgs args = Ok true ->
   absent_or_empty (Get_opt args (lit "mode")) ->
   sent_param (run (Directions.CallTool rt API_KEY (lit "get_directions") args) net) "mode"
   = Some (VStr (lit "driving"))) /\
  (is_nullish args = false ->
   absent_or_empty (Get_opt args (lit "language")) ->
   sent_param (run (Places.CallTool rt (lit "search_places") args) net) "language"
   = Some (VStr (lit "ja")) /\
   sent_param (run (Places.CallTool rt (lit "get_place_details") args) net) "language"
   = Some (VStr (lit "ja"))) /\
  (is_nullish args = false ->
   is_nullish (Get_opt args (lit "location")) = false ->
   can_stringify rt (Get_opt (Get_opt args (lit "location")) (lit "lat")) = true ->
   can_stringify rt (Get_opt (Get_opt args (lit "location")) (lit "lng")) = true ->
   let r := run (Places.CallTool rt (lit "nearby_search") args) net in
   (absent_or_empty (Get_opt args (lit "language")) ->
    sent_param r "language" = Some (VStr (lit "ja"))) /\
   (absent_or_zero (Get_opt args (lit "radius")) ->
    sent_param r "radius" = Some (VNum 1000%float))).
Proof.
  repeat apply conj.
  - intros Hv r. subst r.
    destruct (transit_sent rt args net Hv) as (-> & -> & -> & -> & ->).
    repeat apply conj; intros H; try (now rewrite (or_else_absent_or_empty _ _ H)).
    destruct H as [-> | ->]; reflexivity.
  - intros Hv H. rewrite (directions_sent_mode rt API_KEY args net Hv).
    now rewrite (or_else_absent_or_empty _ _ H).
  - intros Hn H.
    rewrite !places_sent_language by auto.
    now rewrite (or_else_absent_or_empty _ _ H).
  - intros Hn Hl Hlat Hlng r. subst r.
    destruct (places_sent_nearby rt args net Hn Hl Hlat Hlng) as (-> & -> & _).
    split; intros H.
    + now rewrite (or_else_absent_or_empty _ _ H).
    + destruct H as [-> | ->]; reflexivity.
Qed.

(** ** The pattern of resource URIs *)

Lemma strip_prefix_app (a s : JsString) : strip_prefix a (a ++ s) = Some s.
Proof.
  induction a as [|x a IH]; simpl; [reflexivity|].
  now rewrite N.eqb_refl.
Qed.

(** When no split of [s] satisfies the rest of the pattern, [.+] fails. *)
Lemma dot_plus_none {A} (s : JsString) (k : JsString -> JsString -> option A) :
  (forall p q, s = p ++ q -> p <> [] -> k p q = None) ->
  dot_plus s k = None.
Proof.
  revert k. induction s as [|c s IH]; intros k H; simpl; [reflexivity|].
  destruct (is_line_terminator c); [reflexivity|].
  rewrite IH.
  - apply (H [c] s); [reflexivity | discriminate].
  - intros p q -> Hp. apply (H (c :: p) q); [reflexivity | discriminate].
Qed.

(** Greedy choice: [.+] takes the longest prefix after which the rest of the
    pattern succeeds. *)
Lemma dot_plus_greedy {A} (X r : JsString) (k : JsString -> JsString -> option A) (v : A) :
  X <> [] ->
  dot_matches_all X = true ->
  k X r = Some v ->
  (forall p q, r = p ++ q -> p <> [] -> k (X ++ p) q = None) ->
  dot_plus (X ++ r) k = Some v.
Proof.
  revert k. induction X as [|c X IH]; intros k Hne Hdot Hk Hlonger; [contradiction|].
  simpl in Hdot. apply andb_true_iff in Hdot as [Hc Hdot].
  apply negb_true_iff in Hc.
  change ((c :: X) ++ r) with (c :: (X ++ r)). simpl. rewrite Hc.
  destruct X as [|c' X].
  - simpl. rewrite dot_plus_none; [exact Hk|].
    intros p q -> Hp. now apply (Hlonger p q).
  - rewrite (IH (fun m r' => k (c :: m) r')); try assumption.
    + reflexivity.
    + discriminate.
Qed.

Lemma no_slash_suffix (p q : JsString) :
  has_slash (p ++ q) = false -> strip_prefix (lit "/") q = None.
Proof.
  unfold has_slash. rewrite existsb_app. intros H.
  apply orb_false_iff in H as [_ H].
  destruct q as [|c q]; [reflexivity|].
  cbn [existsb] in H. apply orb_false_iff in H as [H _].
  change (strip_prefix (lit "/") (c :: q)) with (if N.eqb 47 c then Some q else None).
  now rewrite H.
Qed.

Lemma directions_regex_match (X Y : JsString) :
  X <> [] -> Y <> [] ->
  dot_matches_all X = true -> dot_matches_all Y = true ->
  has_slash Y = false ->
  String_match (lit "directions://" ++ X ++ lit "/" ++ Y) Directions.regex
  = Some [X; Y].
Proof.
  intros HX HY HdX HdY Hs.
  unfold String_match, Directions.regex. cbn [regex_exec].
  rewrite strip_prefix_app.
  apply dot_plus_greedy; try assumption.
  - change (strip_prefix (lit "/") (lit "/" ++ Y)) with (Some Y). cbv iota.
    rewrite <- (app_nil_r Y) at 1.
    apply dot_plus_greedy; try assumption; [reflexivity|].
    intros p q E Hp. symmetry in E. apply app_eq_nil in E as [-> _]. contradiction.
  - intros p q E Hp.
    destruct p as [|c p]; [contradiction|].
    injection E as _ ->.
    now rewrite (no_slash_suffix p q Hs).
Qed.

(** C9 (as amended).  For every URI ['directions://' X '/' Y] in which [X] and
    [Y] are non-empty and free of line terminators, [Y] has no ['/'], and
    both URL-decode, the read handler accepts the URI and asks upstream for
    the route from the decoded [X] to the decoded [Y].  [X] may itself
    contain ['/']: the first group is greedy, so ['directions://A/B/C'] gives
    origin ['A/B'] and destination ['C']. *)
Theorem resource_uri_splits_at_last_slash
        (rt : Runtime) (API_KEY X Y origin destination : JsString)
        (net : GetCall -> GetOutcome) :
  X <> [] -> Y <> [] ->
  dot_matches_all X = true -> dot_matches_all Y = true ->
  has_slash Y = false ->
  decodeURIComponent X = Ok origin ->
  decodeURIComponent Y = Ok destination ->
  issued (run (Directions.ReadResource rt API_KEY
                 (lit "directions://" ++ X ++ lit "/" ++ Y)) net)
  = [resource_call API_KEY origin destination].
Proof.
  intros HX HY HdX HdY Hs Ho Hd.
  unfold Directions.ReadResource.
  rewrite directions_regex_match by assumption.
  unfold group, sync, axios_get. cbn [nth Nat.sub].
  rewrite Ho, Hd. cbn.
  match goal with |- context [net ?c] => destruct (net c) as [data | []] end;
    reflexivity.
Qed.

(** ** Property lists *)

Lemma assign_update_first (k : JsString) (f : Value -> Value) (o : Props) (x : Value) :
  lookup k o = Some x -> assign k (f x) o = update_first k f o.
Proof.
  induction o as [|[k' v] o IH]; simpl; [discriminate|].
  destruct (k' =?s k).
  - now intros [= ->].
  - intros H. now rewrite IH.
Qed.

Lemma update_first_absent (k : JsString) (f : Value -> Value) (o : Props) :
  lookup k o = None -> update_first k f o = o.
Proof.
  induction o as [|[k' v] o IH]; simpl; [reflexivity|].
  destruct (k' =?s k); [discriminate|].
  intros H. now rewrite IH.
Qed.

Lemma update_first_fixed (k : JsString) (f : Value -> Value) (o : Props) (x : Value) :
  lookup k o = Some x -> f x = x -> update_first k f o = o.
Proof.
  induction o as [|[k' v] o IH]; simpl; [discriminate|].
  destruct (k' =?s k).
  - now intros [= ->] ->.
  - intros H Hf. now rewrite IH.
Qed.

Lemma lookup_update_first_other (k k' : JsString) (f : Value -> Value) (o : Props) :
  (k =?s k') = false -> lookup k' (update_first k f o) = lookup k' o.
Proof.
  intros Hk. induction o as [|[k0 v] o IH]; simpl; [reflexivity|].
  destruct (k0 =?s k) eqn:E0; simpl.
  - apply JsString_eqb_eq in E0. subst k0. now rewrite Hk.
  - now rewrite IH.
Qed.

Lemma Get_opt_update_prop_other (k k' : string) (f : Value -> Value) (v : Value) :
  (lit k =?s lit k') = false ->
  Get_opt (update_prop k f v) (lit k') = Get_opt v (lit k').
Proof.
  intros Hk. destruct v; try reflexivity.
  simpl. now rewrite lookup_update_first_other.
Qed.

(** Reading a property, changing the value read and writing it back is
    [update_prop]. *)
Lemma write_back (k : string) (f : Value -> Value) (v x : Value) :
  Get_opt v (lit k) = x -> x <> VUndefined ->
  Set_ v (lit k) (f x) = Ok (update_prop k f v).
Proof.
  destruct v; simpl; try congruence.
  destruct (lookup (lit k) props) as [y|] eqn:E; [|congruence].
  intros <- _. now rewrite (assign_update_first _ f _ _ E).
Qed.

(** A value the function leaves alone, or no value at all: [update_prop]
    changes nothing. *)
Lemma update_prop_fixed (k : string) (f : Value -> Value) (v : Value) :
  f (Get_opt v (lit k)) = Get_opt v (lit k) -> update_prop k f v = v.
Proof.
  destruct v; try reflexivity. simpl.
  destruct (lookup (lit k) props) as [y|] eqn:E; intros H.
  - now rewrite (update_first_fixed _ f _ _ E H).
  - now rewrite update_first_absent.
Qed.

Lemma mapM_map {A B} (f : A -> Exc B) (g : A -> B) (l : list A) :
  (forall x, In x l -> f x = Ok (g x)) -> mapM f l = Ok (map g l).
Proof.
  induction l as [|a l IH]; intros H; simpl; [reflexivity|].
  rewrite (H a) by now left. simpl.
  rewrite IH by (intros x Hx; apply H; now right). reflexivity.
Qed.

(** ** The response normalizer *)

Section Normalizer.

Variable rt : Runtime.

Lemma suffix_present_step (k : string) (section : Value) :
  time_when_present (Get_opt section (lit k)) = true ->
  (if ToBoolean (Get_opt section (lit k)) then
     t' <- Transit.apply_addTimezone rt (Get_opt section (lit k)) ;;
     Set_ section (lit k) t'
   else Ok section)
  = Ok (update_prop k suffix_time_when_present section).
Proof.
  intros Hw. unfold time_when_present in Hw.
  destruct (ToBoolean (Get_opt section (lit k))) eqn:Hb.
  - simpl in Hw. destruct (Get_opt section (lit k)) as [| | | |s| |] eqn:E;
      try discriminate. cbn [Transit.apply_addTimezone bind].
    rewrite <- (write_back k suffix_time_when_present section _ E) by discriminate.
    unfold suffix_time_when_present. rewrite Hb. reflexivity.
  - rewrite update_prop_fixed; [reflexivity|].
    unfold suffix_time_when_present. now rewrite Hb.
Qed.

Lemma update_prop_defined (k : string) (f : Value -> Value) (v : Value) :
  is_nullish (update_prop k f v) = is_nullish v.
Proof. destruct v; reflexivity. Qed.

Lemma map_section_ok (section : Value) :
  section_ok section = true ->
  Transit.map_section rt section = Ok (normalize_section section).
Proof.
  unfold section_ok, Transit.map_section, normalize_section. intros H.
  apply andb_true_iff in H as [Hn H]. apply negb_true_iff in Hn.
  rewrite (Get_defined _ _ Hn). cbn [bind].
  destruct (strict_eq_string (Get_opt section (lit "type")) (lit "move"));
    [|reflexivity].
  apply andb_true_iff in H as [Hf Ht].
  rewrite !Get_defined by exact Hn. cbn [bind].
  rewrite (suffix_present_step "from_time" section Hf). cbn [bind].
  rewrite !Get_defined by now rewrite update_prop_defined.
  cbn [bind]. apply suffix_present_step.
  now rewrite Get_opt_update_prop_other.
Qed.

Lemma suffix_step (k : string) (move : Value) (s : JsString) :
  Get_opt move (lit k) = VStr s ->
  (t <- Get move (lit k) ;;
   t' <- Transit.apply_addTimezone rt t ;;
   Set_ move (lit k) t')
  = Ok (update_prop k suffix_time move).
Proof.
  intros E.
  assert (Hn : is_nullish move = false) by (destruct move; try discriminate; reflexivity).
  rewrite (Get_defined _ _ Hn), E. cbn [bind Transit.apply_addTimezone].
  rewrite <- (write_back k suffix_time move _ E) by discriminate. reflexivity.
Qed.

Lemma is_string_inv (v : Value) : is_string v = true -> exists s, v = VStr s.
Proof. destruct v; try discriminate. eauto. Qed.

Lemma Get_opt_defined_parent (v : Value) (k : JsString) :
  ToBoolean (Get_opt v k) = true -> is_nullish v = false /\ Get_opt v k <> VUndefined.
Proof.
  intros H. split.
  - destruct v; try reflexivity; discriminate.
  - intros E. rewrite E in H. discriminate.
Qed.

Lemma map_item_ok (item : Value) :
  item_ok item = true ->
  Transit.map_item rt item = Ok (normalize_item item).
Proof.
  unfold item_ok, Transit.map_item, normalize_item. intros H.
  apply andb_true_iff in H as [H Hsec]. apply andb_true_iff in H as [Hn Hmove].
  apply negb_true_iff in Hn.
  rewrite (Get_defined _ _ Hn). cbn [bind].
  set (summary := Get_opt item (lit "summary")) in *.
  set (move := Get_opt summary (lit "move")) in *.
  set (F := fun m : Value => if ToBoolean m then suffix_times suffix_time m else m).
  assert (Hhas :
    (if ToBoolean summary then m <- Get summary (lit "move") ;; Ok (ToBoolean m)
     else Ok false) = Ok (ToBoolean move)).
  { destruct (ToBoolean summary) eqn:Hb.
    - rewrite Get_defined by (destruct summary; try discriminate; reflexivity).
      reflexivity.
    - subst move. destruct summary; try discriminate; reflexivity. }
  rewrite Hhas. cbn [bind].
  assert (Hitem1 :
    (if ToBoolean move then
       m <- Get summary (lit "move") ;;
       from_time <- Get m (lit "from_time") ;;
       from_time' <- Transit.apply_addTimezone rt from_time ;;
       move1 <- Set_ m (lit "from_time") from_time' ;;
       to_time <- Get move1 (lit "to_time") ;;
       to_time' <- Transit.apply_addTimezone rt to_time ;;
       move2 <- Set_ move1 (lit "to_time") to_time' ;;
       summary' <- Set_ summary (lit "move") move2 ;;
       Set_ item (lit "summary") summary'
     else Ok item)
    = Ok (update_prop "summary" (update_prop "move" F) item)).
  { destruct (ToBoolean move) eqn:Hb.
    - apply andb_true_iff in Hmove as [Hf Ht].
      apply is_string_inv in Hf as [s1 Hf]. apply is_string_inv in Ht as [s2 Ht].
      destruct (Get_opt_defined_parent summary _ Hb) as [Hsn Hmu].
      fold move in Hmu.
      assert (Hsb : ToBoolean summary = true).
      { destruct summary; try discriminate; try reflexivity;
          subst move; simpl in Hmu; congruence. }
      destruct (Get_opt_defined_parent item _ Hsb) as [_ Hsu]. fold summary in Hsu.
      rewrite (Get_defined _ _ Hsn). fold move. cbn [bind].
      pose proof (suffix_step "from_time" move _ Hf) as S1.
      assert (Hmn : is_nullish move = false)
        by (destruct move; try discriminate; reflexivity).
      rewrite (Get_defined _ _ Hmn) in S1. cbn [bind] in S1.
      rewrite (Get_defined _ _ Hmn). cbn [bind].
      rewrite Hf in S1 |- *. cbn [bind Transit.apply_addTimezone] in S1 |- *.
      rewrite S1. cbn [bind].
      assert (Ht' : Get_opt (update_prop "from_time" suffix_time move) (lit "to_time")
                    = VStr s2) by now rewrite Get_opt_update_prop_other.
      pose proof (suffix_step "to_time" _ _ Ht') as S2.
      assert (Hm1n : is_nullish (update_prop "from_time" suffix_time move) = false)
        by now rewrite update_prop_defined.
      rewrite (Get_defined _ _ Hm1n) in S2 |- *. cbn [bind] in S2 |- *.
      rewrite Ht' in S2 |- *. cbn [bind Transit.apply_addTimezone] in S2 |- *.
      rewrite S2. cbn [bind].
      change (update_prop "to_time" suffix_time (update_prop "from_time" suffix_time move))
        with (suffix_times suffix_time move).
      assert (HF : F move = suffix_times suffix_time move)
        by (unfold F; now rewrite Hb).
      rewrite <- HF.
      rewrite (write_back "move" F summary move eq_refl Hmu). cbn [bind].
      exact (write_back "summary" (update_prop "move" F) item summary eq_refl Hsu).
    - rewrite update_prop_fixed; [reflexivity|]. fold summary.
      apply update_prop_fixed. fold move. unfold F. now rewrite Hb. }
  rewrite Hitem1. cbn [bind]. clear Hhas Hitem1.
  set (item1 := update_prop "summary" (update_prop "move" F) item).
  assert (Hn1 : is_nullish item1 = false) by (subst item1; now rewrite update_prop_defined).
  assert (Hs1 : Get_opt item1 (lit "sections") = Get_opt item (lit "sections"))
    by (subst item1; now rewrite Get_opt_update_prop_other).
  rewrite (Get_defined _ _ Hn1), Hs1. cbn [bind].
  destruct (Get_opt item (lit "sections")) as [| | | | |sections|] eqn:E;
    try (rewrite (update_prop_fixed "sections" _ item1) by (now rewrite Hs1);
         match goal with
         | |- (if ?b then _ else _) = _ => destruct b; reflexivity
         | _ => reflexivity
         end).
  cbn [ToBoolean Array_isArray andb].
  rewrite (mapM_map _ normalize_section).
  - cbn [bind].
    change (VArr (map normalize_section sections))
      with (update_elements normalize_section (VArr sections)).
    apply write_back; [exact Hs1 | discriminate].
  - intros x Hx. apply map_section_ok.
    rewrite forallb_forall in Hsec. now apply Hsec.
Qed.

Lemma transform_ok (data : Value) :
  body_ok data = true ->
  Transit.transform rt data = Ok (normalize data).
Proof.
  unfold body_ok, Transit.transform, normalize. intros H.
  apply andb_true_iff in H as [Hn Hitems]. apply negb_true_iff in Hn.
  rewrite (Get_defined _ _ Hn). cbn [bind].
  destruct (Get_opt data (lit "items")) as [| | | | |items|] eqn:E;
    try (rewrite (update_prop_fixed "items" _ data) by (now rewrite E);
         match goal with
         | |- (if ?b then _ else _) = _ => destruct b; reflexivity
         | _ => reflexivity
         end).
  cbn [ToBoolean Array_isArray andb].
  rewrite (mapM_map _ normalize_item).
  - cbn [bind].
    change (VArr (map normalize_item items))
      with (update_elements normalize_item (VArr items)).
    apply write_back; [exact E | discriminate].
  - intros x Hx. apply map_item_ok.
    rewrite forallb_forall in Hitems. now apply Hitems.
Qed.

End Normalizer.

(** ** Only the time fields change *)














(** ** The places dispatcher *)



(** ** Closed instances *)



Lemma start_time_translation_witness :
  Transit.isValidRouteTransitArgs (transit_call_with (str "2024-05-01T09:00:00")) = Ok true /\
  sent_param (run (Transit.CallTool sample_runtime (lit "route_transit")
                     (transit_call_with (str "2024-05-01T09:00:00"))) no_network)
             "start_time"
  = Some (str "2024-05-01T09:00:00+09:00") /\
  Transit.isValidRouteTransitArgs (transit_call_with (VStr [])) = Ok true /\
  sent_param (run (Transit.CallTool sample_runtime (lit "route_transit")
                     (transit_call_with (VStr []))) no_network)
             "start_time"
  = Some (str "2024-02-11T12:00:00+09:00").
Proof.
  split; [reflexivity|]. apply conj; [|split; [reflexivity|]].
  - apply (proj1 (proj2 (proj2 (start_time_translation
                           sample_runtime (transit_call_with (str "2024-05-01T09:00:00"))
                           no_network eq_refl)))
                 (lit "2024-05-01T09:00:00"));
      [reflexivity | discriminate | reflexivity].
  - exact (proj2 (proj2 (proj2 (start_time_translation
                           sample_runtime (transit_call_with (VStr []))
                           no_network eq_refl))) eq_refl).
Defined.

(** C2 as stated fails on the empty string: it contains no ['+'], yet the
    value sent is the default timestamp, not [''] followed by ['+09:00']. *)
Lemma start_time_empty_counterexample :
  Transit.isValidRouteTransitArgs (transit_call_with (str "")) = Ok true /\
  String_includes (lit "") (lit "+") = false /\
  sent_param (run (Transit.CallTool sample_runtime (lit "route_transit")
                     (transit_call_with (str ""))) no_network)
             "start_time"
  = Some (str "2024-02-11T12:00:00+09:00") /\
  str "2024-02-11T12:00:00+09:00" <> VStr (lit "" ++ lit "+09:00").
Proof. repeat split; try reflexivity. discriminate. Qed.



(** Outside the bodies of C3: a [summary.move] without [from_time] makes the
    normalizer call [includes] on [undefined]; the [TypeError] is not an
    axios error, so the handler rethrows it after the GET. *)
Example summary_move_without_from_time_throws :
  Transit.transform sample_runtime body_without_from_time = Throw TypeError /\
  run (Transit.CallTool sample_runtime (lit "route_transit") (transit_call_with VUndefined))
      (fun _ => Resolved body_without_from_time)
  = ([ {| url := lit "/route_transit";
          params := [(lit "start", str "35.681,139.767");
                     (lit "goal", str "34.702,135.495");
                     (lit "start_time", str "2024-02-11T12:00:00+09:00");
                     (lit "term", str "60"); (lit "limit", str "3");
                     (lit "datum", str "wgs84"); (lit "coord_unit", str "degree")] |} ],
     Throw TypeError).
Proof. split; reflexivity. Qed.

Lemma upstream_failure_witness :
  (outcome (run (Directions.CallTool sample_runtime (lit "key") (lit "get_directions")
                   tokyo_osaka) key_invalid)
   = Ok (error_result (lit "Google Maps API error: key invalid")) /\
   outcome (run (Places.CallTool sample_runtime (lit "search_places")
                   (obj [("query", str "ramen")]%string)) key_invalid)
   = Ok (error_result (lit "Google Places API error: key invalid")) /\
   outcome (run (Directions.ReadResource sample_runtime (lit "key")
                   (lit "directions://Tokyo/Osaka")) key_invalid)
   = Throw (McpError InternalError (lit "Google Maps API error: key invalid"))) /\
  outcome (run (Transit.CallTool sample_runtime (lit "route_transit")
                  (transit_call_with VUndefined)) unauthorized)
  = Ok (error_result (lit "Navitime API error: unauthorized")) /\
  outcome (run (Transit.CallTool sample_runtime (lit "route_transit")
                  (transit_call_with VUndefined)) no_network)
  = Ok (error_result (lit "Navitime API error: Network Error")).
Proof.
  pose (google := obj [("error_message", str "key invalid")]%string).
  pose (navitime := obj [("message", str "unauthorized")]%string).
  apply conj; [apply conj; [|apply conj] | apply conj].
  - set (r := run (Directions.CallTool sample_runtime (lit "key") (lit "get_directions")
                     tokyo_osaka) key_invalid).
    refine (proj1 (proj1 (upstream_failure_tool_envelope_resource_error
              sample_runtime (lit "key") (lit "get_directions")
              (lit "directions://Tokyo/Osaka") tokyo_osaka key_invalid
              (first_call r) (Some google) (lit "Request failed with status code 403")
              (lit "key invalid") eq_refl) eq_refl) (issued r) (outcome r) eq_refl _).
    left. reflexivity.
  - set (r := run (Places.CallTool sample_runtime (lit "search_places")
                     (obj [("query", str "ramen")]%string)) key_invalid).
    refine (proj1 (proj2 (proj1 (upstream_failure_tool_envelope_resource_error
              sample_runtime (lit "key") (lit "search_places")
              (lit "directions://Tokyo/Osaka") (obj [("query", str "ramen")]%string)
              key_invalid
              (first_call r) (Some google) (lit "Request failed with status code 403")
              (lit "key invalid") eq_refl) eq_refl)) (issued r) (outcome r) eq_refl _).
    left. reflexivity.
  - set (r := run (Directions.ReadResource sample_runtime (lit "key")
                     (lit "directions://Tokyo/Osaka")) key_invalid).
    refine (proj2 (proj2 (proj1 (upstream_failure_tool_envelope_resource_error
              sample_runtime (lit "key") (lit "get_directions")
              (lit "directions://Tokyo/Osaka") tokyo_osaka key_invalid
              (first_call r) (Some google) (lit "Request failed with status code 403")
              (lit "key invalid") eq_refl) eq_refl)) (issued r) (outcome r) eq_refl _).
    left. reflexivity.
  - set (r := run (Transit.CallTool sample_runtime (lit "route_transit")
                     (transit_call_with VUndefined)) unauthorized).
    refine (proj2 (upstream_failure_tool_envelope_resource_error
              sample_runtime (lit "key") (lit "route_transit")
              (lit "directions://Tokyo/Osaka") (transit_call_with VUndefined) unauthorized
              (first_call r) (Some navitime) (lit "Request failed with status code 401")
              (lit "unauthorized") eq_refl) eq_refl (issued r) (outcome r) eq_refl _).
    left. reflexivity.
  - set (r := run (Transit.CallTool sample_runtime (lit "route_transit")
                     (transit_call_with VUndefined)) no_network).
    refine (proj2 (upstream_failure_tool_envelope_resource_error
              sample_runtime (lit "key") (lit "route_transit")
              (lit "directions://Tokyo/Osaka") (transit_call_with VUndefined) no_network
              (first_call r) None (lit "Network Error")
              (lit "Network Error") eq_refl) eq_refl (issued r) (outcome r) eq_refl _).
    left. reflexivity.
Defined.

(** C4 as stated fails: when the upstream error body carries a message that
    is an object with a [toString] key, the template literal of the [catch]
    throws; the tool handlers return no envelope and the read handler raises
    no protocol error, all four settling with a [TypeError] after the request
    failed. *)
Lemma unprintable_upstream_message_counterexample :
  (forall call, exists response message,
      unprintable_failure call = Rejected (AxiosError response message)) /\
  run (Directions.CallTool sample_runtime (lit "key") (lit "get_directions") tokyo_osaka)
      unprintable_failure
  = ([ {| url := [];
          params := [(lit "origin", str "Tokyo, Japan");
                     (lit "destination", str "Osaka, Japan");
                     (lit "mode", str "driving");
                     (lit "key", str "key")] |} ],
     Throw TypeError) /\
  outcome (run (Transit.CallTool sample_runtime (lit "route_transit")
                  (transit_call_with VUndefined)) unprintable_failure)
  = Throw TypeError /\
  outcome (run (Places.CallTool sample_runtime (lit "search_places")
                  (obj [("query", str "ramen")]%string)) unprintable_failure)
  = Throw TypeError /\
  outcome (run (Directions.ReadResource sample_runtime (lit "key")
                  (lit "directions://Tokyo/Osaka")) unprintable_failure)
  = Throw TypeError.
Proof.
  split; [intros call; eexists; eexists; reflexivity|].
  repeat split; reflexivity.
Qed.

Lemma empty_optional_field_witness :
  Transit.isValidRouteTransitArgs transit_all_empty = Ok true /\
  absent_or_empty (Get_opt transit_all_empty (lit "start_time")) /\
  sent_param (run (Transit.CallTool sample_runtime (lit "route_transit") transit_all_empty)
                  no_network) "start_time"
  = Some (str "2024-02-11T12:00:00+09:00") /\
  absent_or_zero (Get_opt nearby_zero_radius (lit "radius")) /\
  sent_param (run (Places.CallTool sample_runtime (lit "nearby_search") nearby_zero_radius)
                  no_network) "radius"
  = Some (VNum 1000%float).
Proof.
  assert (E : absent_or_empty (Get_opt transit_all_empty (lit "start_time")))
    by (right; reflexivity).
  assert (Z : absent_or_zero (Get_opt nearby_zero_radius (lit "radius")))
    by (right; reflexivity).
  split; [reflexivity|]. split; [exact E|]. split; [|split; [exact Z|]].
  - exact (proj1 (proj1 (empty_optional_field_gets_default
                           sample_runtime (lit "key") transit_all_empty no_network)
                        eq_refl) E).
  - exact (proj2 (proj2 (proj2 (proj2 (empty_optional_field_gets_default
                           sample_runtime (lit "key") nearby_zero_radius no_network)))
                        eq_refl eq_refl eq_refl eq_refl) Z).
Defined.

Lemma resource_uri_witness :
  lit "A/B" <> [] /\ lit "C" <> [] /\
  dot_matches_all (lit "A/B") = true /\ dot_matches_all (lit "C") = true /\
  has_slash (lit "C") = false /\
  decodeURIComponent (lit "A/B") = Ok (lit "A/B") /\
  decodeURIComponent (lit "C") = Ok (lit "C") /\
  issued (run (Directions.ReadResource sample_runtime (lit "key")
                 (lit "directions://A/B/C")) no_network)
  = [resource_call (lit "key") (lit "A/B") (lit "C")].
Proof.
  assert (HX : lit "A/B" <> []) by discriminate.
  assert (HY : lit "C" <> []) by discriminate.
  repeat (split; [first [exact HX | exact HY | reflexivity] |]).
  exact (resource_uri_splits_at_last_slash
           sample_runtime (lit "key") (lit "A/B") (lit "C") (lit "A/B") (lit "C")
           no_network HX HY eq_refl eq_refl eq_refl eq_refl eq_refl).
Defined.

(** C9 as stated fails: ['a//'] and ['//'] contain two ['/'] each, but
    ['directions://a//'] resolves to origin ['a'] and destination ['/'], not
    to the text before the last ['/'] and the empty final segment, and
    ['directions:////'] is rejected as an invalid URI. *)
Lemma resource_uri_counterexample :
  count_slashes (lit "a//") = 2 /\
  before_last_slash (lit "a//") = lit "a/" /\ after_last_slash (lit "a//") = lit "" /\
  issued (run (Directions.ReadResource sample_runtime (lit "key")
                 (lit "directions://a//")) no_network)
  = [resource_call (lit "key") (lit "a") (lit "/")] /\
  count_slashes (lit "//") = 2 /\
  run (Directions.ReadResource sample_runtime (lit "key") (lit "directions:////")) no_network
  = ([], Throw (McpError InvalidRequest (lit "Invalid URI: directions:////"))).
Proof. repeat split; reflexivity. Qed.

(** ** Scenarios of the specification *)

Example validators_on_malformed_values :
  Directions.isValidDirectionsArgs VNull = Ok false /\
  Directions.isValidDirectionsArgs (str "Tokyo") = Ok false /\
  Directions.isValidDirectionsArgs (obj [("origin", str "Tokyo")]%string) = Ok false /\
  Directions.isValidDirectionsArgs
    (obj [("origin", str "Tokyo"); ("destination", VNum 1%float)]%string) = Ok false /\
  Directions.isValidDirectionsArgs
    (obj [("origin", str "Tokyo"); ("destination", str "Osaka"); ("mode", VNull)]%string)
  = Ok false /\
  Directions.isValidDirectionsArgs tokyo_osaka = Ok true /\
  Transit.isValidRouteTransitArgs VUndefined = Ok false /\
  Transit.isValidRouteTransitArgs (VArr []) = Ok false /\
  Transit.isValidRouteTransitArgs (transit_call_with (VNum 9%float)) = Ok false /\
  Transit.isValidRouteTransitArgs transit_all_empty = Ok true.
Proof. repeat split; reflexivity. Qed.

(** The nearby search with a location only: the location is rendered as
    ["{lat},{lng}"], the radius defaults to 1000, the type stays undefined
    and the language defaults to ['ja']. *)
Example nearby_search_defaults (rt : Runtime) (net : GetCall -> GetOutcome) :
  issued (run (Places.CallTool rt (lit "nearby_search") nearby_location_only) net)
  = [ {| url := lit "/nearbysearch/json";
         params :=
           [(lit "location",
             VStr (Number_toString rt 35.6%float ++ lit ","
                     ++ Number_toString rt 139.7%float));
            (lit "radius", VNum 1000%float);
            (lit "type", VUndefined);
            (lit "language", str "ja")] |} ].
Proof.
  unfold Places.CallTool, Places.handleNearbySearch, Places.nearby_params,
    sync, axios_get.
  cbn. run_one net.
Qed.

(** ** Further properties of the dispatchers *)

(** X1.  Arguments that fail the validator of the directions or the transit
    server make the dispatcher raise the protocol error "invalid params"
    before anything is sent. *)
Theorem invalid_arguments_short_circuit
        (rt : Runtime) (API_KEY : JsString) (args : Value) (net : GetCall -> GetOutcome) :
  (Directions.isValidDirectionsArgs args = Ok false ->
   run (Directions.CallTool rt API_KEY (lit "get_directions") args) net
   = ([], Throw (McpError InvalidParams (lit "Invalid directions arguments")))) /\
  (Transit.isValidRouteTransitArgs args = Ok false ->
   run (Transit.CallTool rt (lit "route_transit") args) net
   = ([], Throw (McpError InvalidParams (lit "Invalid route_transit arguments")))).
Proof.
  split; intros H.
  - unfold Directions.CallTool, sync. now rewrite H.
  - unfold Transit.CallTool, sync. now rewrite H.
Qed.

Lemma invalid_arguments_witness :
  Directions.isValidDirectionsArgs VNull = Ok false /\
  run (Directions.CallTool sample_runtime (lit "key") (lit "get_directions") VNull) no_network
  = ([], Throw (McpError InvalidParams (lit "Invalid directions arguments"))) /\
  Transit.isValidRouteTransitArgs (obj []) = Ok false /\
  run (Transit.CallTool sample_runtime (lit "route_transit") (obj [])) no_network
  = ([], Throw (McpError InvalidParams (lit "Invalid route_transit arguments"))).
Proof.
  split; [reflexivity|]. split; [|split; [reflexivity|]].
  - exact (proj1 (invalid_arguments_short_circuit
                    sample_runtime (lit "key") VNull no_network) eq_refl).
  - exact (proj2 (invalid_arguments_short_circuit
                    sample_runtime (lit "key") (obj []) no_network) eq_refl).
Defined.

(** X2.  A valid directions call issues exactly one GET, with [origin] and
    [destination] as given, the configured key, and [mode] ['driving'] when
    the argument is omitted. *)
Theorem directions_issues_one_get
        (rt : Runtime) (API_KEY : JsString) (args : Value) (net : GetCall -> GetOutcome) :
  Directions.isValidDirectionsArgs args = Ok true ->
  Get_opt args (lit "mode") = VUndefined ->
  issued (run (Directions.CallTool rt API_KEY (lit "get_directions") args) net)
  = [ {| url := [];
         params := [(lit "origin", Get_opt args (lit "origin"));
                    (lit "destination", Get_opt args (lit "destination"));
                    (lit "mode", str "driving");
                    (lit "key", VStr API_KEY)] |} ].
Proof.
  intros Hv Hm. unfold Directions.CallTool, sync, axios_get. rewrite Hv.
  rewrite isValidDirectionsArgs_eq in Hv. injection Hv as Hs.
  apply shape_ok_defined in Hs.
  rewrite !Get_defined by exact Hs. rewrite Hm. cbn.
  run_one net.
Qed.

Lemma directions_issues_one_get_witness :
  Directions.isValidDirectionsArgs tokyo_osaka = Ok true /\
  issued (run (Directions.CallTool sample_runtime (lit "key") (lit "get_directions")
                 tokyo_osaka) key_invalid)
  = [ {| url := [];
         params := [(lit "origin", str "Tokyo, Japan");
                    (lit "destination", str "Osaka, Japan");
                    (lit "mode", str "driving");
                    (lit "key", str "key")] |} ].
Proof.
  split; [reflexivity|].
  exact (directions_issues_one_get
           sample_runtime (lit "key") tokyo_osaka key_invalid eq_refl eq_refl).
Defined.



(** X4.  An exception that is not an axios error is not turned into a
    result: a tool call whose GET is rejected with one settles by throwing
    that very exception. *)
Theorem other_exceptions_propagate
        (rt : Runtime) (API_KEY name : JsString) (arguments : Value)
        (net : GetCall -> GetOutcome) (call : GetCall) (error : Exception) :
  isAxiosError error = false ->
  net call = Rejected error ->
  (forall calls result,
      run (Directions.CallTool rt API_KEY name arguments) net = (calls, result) ->
      In call calls -> result = Throw error) /\
  (forall calls result,
      run (Transit.CallTool rt name arguments) net = (calls, result) ->
      In call calls -> result = Throw error) /\
  (forall calls result,
      run (Places.CallTool rt name arguments) net = (calls, result) ->
      In call calls -> result = Throw error).
Proof.
  intros He Hnet. repeat apply conj; intros calls result.
  - unfold Directions.CallTool, sync, axios_get.
    destruct (negb (name =?s lit "get_directions")); [no_call|].
    rewrite isValidDirectionsArgs_eq.
    destruct (shape_ok _ _ arguments) eqn:Hs; [|no_call].
    apply shape_ok_defined in Hs.
    rewrite !Get_defined by exact Hs. cbn.
    rethrown net Hnet He.
  - unfold Transit.CallTool, sync, axios_get.
    destruct (negb (name =?s lit "route_transit")); [no_call|].
    rewrite isValidRouteTransitArgs_eq.
    destruct (shape_ok _ _ arguments) eqn:Hs; [|no_call].
    destruct (request_params_valid rt _ Hs) as (st & _ & ->). cbn.
    match goal with |- context [net ?c] => destruct (net c) as [data | []] eqn:E end.
    1: cbn; destruct (Transit.transform rt data) as [data' | []].
    all: cbn; intros H; injection H as <- <-; intros [<- | []];
      rewrite Hnet in E; try discriminate;
      inversion E; subst; try discriminate He; reflexivity.
  - unfold Places.CallTool.
    destruct (name =?s lit "search_places");
      [| destruct (name =?s lit "get_place_details");
         [| destruct (name =?s lit "nearby_search"); [| no_call ] ] ].
    + unfold Places.handleSearchPlaces, sync, axios_get.
      destruct (is_nullish arguments) eqn:Hn.
      * destruct arguments; try discriminate; no_call.
      * rewrite !Get_defined by exact Hn. cbn. rethrown net Hnet He.
    + unfold Places.handleGetPlaceDetails, sync, axios_get.
      destruct (is_nullish arguments) eqn:Hn.
      * destruct arguments; try discriminate; no_call.
      * rewrite !Get_defined by exact Hn. cbn. rethrown net Hnet He.
    + unfold Places.handleNearbySearch, sync, axios_get.
      destruct (is_nullish arguments) eqn:Hn.
      * destruct arguments; try discriminate; no_call.
      * destruct (is_nullish (Get_opt arguments (lit "location"))) eqn:Hl.
        -- unfold Places.nearby_params. rewrite !Get_defined by exact Hn. cbn [bind].
           destruct (Get_opt arguments (lit "location")); try discriminate; no_call.
        -- rewrite nearby_params_defined by assumption.
           destruct (ToString rt (Get_opt (Get_opt arguments (lit "location")) (lit "lat")))
             as [lat_text|e1] eqn:E1;
             [|rewrite (ToString_TypeError _ _ _ E1); no_call].
           destruct (ToString rt (Get_opt (Get_opt arguments (lit "location")) (lit "lng")))
             as [lng_text|e2] eqn:E2;
             [|rewrite (ToString_TypeError _ _ _ E2); no_call].
           cbn. rethrown net Hnet He.
Qed.

Lemma other_exceptions_witness :
  isAxiosError (OtherError (lit "boom")) = false /\
  outcome (run (Directions.CallTool sample_runtime (lit "key") (lit "get_directions")
                  tokyo_osaka)
               (fun _ => Rejected (OtherError (lit "boom"))))
  = Throw (OtherError (lit "boom")) /\
  outcome (run (Places.CallTool sample_runtime (lit "nearby_search") nearby_location_only)
               (fun _ => Rejected (OtherError (lit "boom"))))
  = Throw (OtherError (lit "boom")).
Proof.
  split; [reflexivity|]. apply conj.
  - set (r := run (Directions.CallTool sample_runtime (lit "key") (lit "get_directions")
                     tokyo_osaka)
                  (fun _ => Rejected (OtherError (lit "boom")))).
    refine (proj1 (other_exceptions_propagate
              sample_runtime (lit "key") (lit "get_directions") tokyo_osaka
              (fun _ => Rejected (OtherError (lit "boom"))) (first_call r)
              (OtherError (lit "boom")) eq_refl eq_refl) (issued r) (outcome r) eq_refl _).
    left. reflexivity.
  - set (r := run (Places.CallTool sample_runtime (lit "nearby_search")
                     nearby_location_only)
                  (fun _ => Rejected (OtherError (lit "boom")))).
    refine (proj2 (proj2 (other_exceptions_propagate
              sample_runtime (lit "key") (lit "nearby_search") nearby_location_only
              (fun _ => Rejected (OtherError (lit "boom"))) (first_call r)
              (OtherError (lit "boom")) eq_refl eq_refl)) (issued r) (outcome r) eq_refl _).
    left. reflexivity.
Defined.

(* ================================================================= *)
(** * Further properties *)

(** ** Which URIs the read handler accepts *)

Lemma strip_prefix_some (a s r : JsString) :
  strip_prefix a s = Some r -> s = a ++ r.
Proof.
  revert s. induction a as [|x a IH]; intros [|y s]; simpl; try discriminate.
  - now intros [= <-].
  - now intros [= <-].
  - destruct (N.eqb x y) eqn:E; [|discriminate].
    apply N.eqb_eq in E. subst y. intros H. now rewrite (IH _ H).
Qed.

(** When [.+] fails, every split it could have tried fails. *)
Lemma dot_plus_none_split {A} (l r : JsString) (k : JsString -> JsString -> option A) :
  l <> [] -> dot_matches_all l = true ->
  dot_plus (l ++ r) k = None -> k l r = None.
Proof.
  revert k. induction l as [|a l IH]; intros k Hne Hd; [contradiction|].
  simpl in Hd. apply andb_true_iff in Hd as [Ha Hd].
  apply negb_true_iff in Ha. simpl. rewrite Ha.
  destruct (dot_plus (l ++ r) (fun m r0 => k (a :: m) r0)) eqn:E; [discriminate|].
  destruct l as [|b l]; [now simpl|].
  intros _. apply (IH (fun m r0 => k (a :: m) r0)); [discriminate | assumption | exact E].
Qed.

(** What [.+] returns comes from a split of the input into a non-empty part
    that [.] matches and a rest accepted by the continuation, and no longer
    part is accepted. *)
Lemma dot_plus_some {A} (s : JsString) (k : JsString -> JsString -> option A) (v : A) :
  dot_plus s k = Some v ->
  exists p q,
    s = p ++ q /\ p <> [] /\ dot_matches_all p = true /\ k p q = Some v /\
    (forall p' q', s = p' ++ q' -> List.length p < List.length p' ->
                   dot_matches_all p' = true -> k p' q' = None).
Proof.
  revert k. induction s as [|c s IH]; intros k; simpl; [discriminate|].
  destruct (is_line_terminator c) eqn:Hc; [discriminate|].
  destruct (dot_plus s (fun m r => k (c :: m) r)) as [res|] eqn:E.
  - intros [= ->]. destruct (IH _ E) as (p & q & -> & Hp & Hd & Hk & Hmax).
    exists (c :: p), q. repeat split; try assumption.
    + discriminate.
    + simpl. now rewrite Hc.
    + intros [|c' p'] q' Heq Hlen Hd'; [simpl in Hlen; lia|].
      injection Heq as <- Heq. simpl in Hlen, Hd'.
      apply andb_true_iff in Hd' as [_ Hd'].
      apply (Hmax p' q'); [assumption | lia | assumption].
  - intros Hk. exists [c], s. repeat split; try assumption.
    + discriminate.
    + simpl. now rewrite Hc.
    + intros [|c' p'] q' Heq Hlen Hd'; [simpl in Hlen; lia|].
      injection Heq as <- Heq. simpl in Hlen, Hd'.
      apply andb_true_iff in Hd' as [_ Hd'].
      destruct p' as [|c'' p']; [simpl in Hlen; lia|].
      subst s.
      apply (dot_plus_none_split (c'' :: p') q' (fun m r => k (c :: m) r));
        [discriminate | assumption | exact E].
Qed.

(** If some split works, greedy [.+] succeeds. *)
Lemma dot_plus_complete {A} (p q : JsString) (k : JsString -> JsString -> option A) :
  p <> [] -> dot_matches_all p = true ->
  k p q <> None -> dot_plus (p ++ q) k <> None.
Proof.
  revert k. induction p as [|c p IH]; intros k Hne Hd Hk; [contradiction|].
  simpl in Hd. apply andb_true_iff in Hd as [Hc Hd]. apply negb_true_iff in Hc.
  simpl. rewrite Hc.
  destruct (dot_plus (p ++ q) (fun m r => k (c :: m) r)) eqn:E; [discriminate|].
  destruct p as [|c' p]; [exact Hk|].
  exfalso. revert E. apply (IH (fun m r => k (c :: m) r)); [discriminate | assumption | exact Hk].
Qed.

Lemma regex_match_sound (request_uri : JsString) (caps : list JsString) :
  String_match request_uri Directions.regex = Some caps ->
  exists X Y,
    caps = [X; Y] /\ two_segments request_uri X Y /\
    (forall X' Y', two_segments request_uri X' Y' -> List.length X' <= List.length X).
Proof.
  unfold String_match, Directions.regex. cbn [regex_exec].
  destruct (strip_prefix (lit "directions://") request_uri) as [rest|] eqn:Hp;
    [|discriminate].
  apply strip_prefix_some in Hp. intros H.
  apply dot_plus_some in H as (X & r & -> & HX & HdX & Hk & Hmax).
  destruct (strip_prefix (lit "/") r) as [r'|] eqn:Hs; [|discriminate].
  apply strip_prefix_some in Hs. subst r.
  apply dot_plus_some in Hk as (Y & e & -> & HY & HdY & Hk & _).
  destruct e; [|discriminate]. injection Hk as <-.
  rewrite app_nil_r in *.
  exists X, Y. split; [reflexivity|]. split.
  - unfold two_segments, scheme. now subst request_uri.
  - intros X' Y' (Heq & HX' & HY' & HdX' & HdY').
    destruct (Nat.le_gt_cases (List.length X') (List.length X)) as [Hle | Hgt];
      [exact Hle | exfalso].
    subst request_uri. unfold scheme in Heq. apply app_inv_head in Heq.
    specialize (Hmax X' (lit "/" ++ Y') Heq Hgt HdX').
    change (strip_prefix (lit "/") (lit "/" ++ Y')) with (Some Y') in Hmax.
    cbv iota in Hmax. revert Hmax.
    rewrite <- (app_nil_r Y') at 1.
    apply dot_plus_complete; [assumption | assumption | discriminate].
Qed.

Lemma regex_match_complete (request_uri X Y : JsString) :
  two_segments request_uri X Y ->
  String_match request_uri Directions.regex <> None.
Proof.
  intros (-> & HX & HY & HdX & HdY).
  unfold String_match, Directions.regex, scheme. cbn [regex_exec].
  rewrite strip_prefix_app.
  apply dot_plus_complete; [assumption | assumption |].
  change (strip_prefix (lit "/") (lit "/" ++ Y)) with (Some Y). cbv iota.
  rewrite <- (app_nil_r Y) at 1.
  apply dot_plus_complete; [assumption | assumption | discriminate].
Qed.

(** ** URL-decoding *)

Lemma Decode_throws_URIError (n : nat) :
  forall (s : JsString) (pending : option (nat * list N)) (e : Exception),
    List.length s <= n -> Decode pending s = Throw e -> e = URIError.
Proof.
  induction n as [|n IH]; intros s pending e Hlen.
  - destruct s; [|simpl in Hlen; lia].
    destruct pending; simpl; [now intros [= <-] | discriminate].
  - destruct s as [|c s].
    { destruct pending; simpl; [now intros [= <-] | discriminate]. }
    simpl in Hlen. cbn [Decode].
    assert (Hrec : forall (t : JsString) (p : option (nat * list N)) (f : JsString -> JsString),
               List.length t <= n ->
               (R <- Decode p t ;; Ok (f R)) = Throw e -> e = URIError).
    { intros t p f Ht. destruct (Decode p t) eqn:E; simpl; [discriminate|].
      intros [= <-]. exact (IH t p _ Ht E). }
    destruct pending as [[j octets]|].
    + destruct (N.eqb c 37); [|now intros [= <-]].
      destruct s as [|h1 [|h2 rest]]; try (now intros [= <-]).
      destruct (ParseHexOctet h1 h2) as [B|]; [|now intros [= <-]].
      simpl in Hlen.
      destruct j as [|[|j']].
      * destruct (utf8_code_point (octets ++ [B])); [|now intros [= <-]].
        apply Hrec. lia.
      * destruct (utf8_code_point (octets ++ [B])); [|now intros [= <-]].
        apply Hrec. lia.
      * apply IH. lia.
    + destruct (N.eqb c 37).
      * destruct s as [|h1 [|h2 rest]]; try (now intros [= <-]).
        destruct (ParseHexOctet h1 h2) as [B|]; [|now intros [= <-]].
        simpl in Hlen.
        destruct (leading_ones B) as [|[|[|[|[|k]]]]]; try (now intros [= <-]).
        -- apply Hrec. lia.
        -- apply IH. lia.
        -- apply IH. lia.
        -- apply IH. lia.
      * apply Hrec. lia.
Qed.

Lemma decodeURIComponent_throws_URIError (s : JsString) (e : Exception) :
  decodeURIComponent s = Throw e -> e = URIError.
Proof. apply (Decode_throws_URIError (List.length s)). lia. Qed.

(** Text without a percent sign decodes to itself. *)
Lemma decodeURIComponent_plain (s : JsString) :
  has_percent s = false -> decodeURIComponent s = Ok s.
Proof.
  unfold decodeURIComponent, has_percent.
  induction s as [|c s IH]; [reflexivity|].
  cbn [existsb Decode]. intros H. apply orb_false_iff in H as [Hc Hs].
  rewrite N.eqb_sym in Hc. rewrite Hc, (IH Hs). reflexivity.
Qed.

(** ** The read handler, case by case *)

Lemma read_settle_rejected
      (rt : Runtime) (request_uri : JsString) (response : option Value) (message : JsString) :
  (reason <- ToString rt (Directions.error_message response message) ;;
   Throw (McpError InternalError (lit "Google Maps API error: " ++ reason)))
  = read_settle rt request_uri (Rejected (AxiosError response message)).
Proof.
  unfold read_settle, Directions.error_message, or_else, upstream_message.
  match goal with |- context [ToString rt ?v] => destruct (can_stringify rt v) eqn:E end.
  - now rewrite (can_stringify_Ok _ _ E).
  - now rewrite (can_stringify_Throw _ _ E).
Qed.

Lemma read_resource_run
      (rt : Runtime) (API_KEY request_uri : JsString) (net : GetCall -> GetOutcome) :
  run (Directions.ReadResource rt API_KEY request_uri) net
  = match String_match request_uri Directions.regex with
    | None => ([], Throw (McpError InvalidRequest (lit "Invalid URI: " ++ request_uri)))
    | Some caps =>
        match decodeURIComponent (group caps 1) with
        | Throw e => ([], Throw e)
        | Ok origin =>
            match decodeURIComponent (group caps 2) with
            | Throw e => ([], Throw e)
            | Ok destination =>
                ([resource_call API_KEY origin destination],
                 read_settle rt request_uri
                   (net (resource_call API_KEY origin destination)))
            end
        end
    end.
Proof.
  unfold Directions.ReadResource, sync, axios_get, resource_call.
  destruct (String_match request_uri Directions.regex) as [caps|]; [|reflexivity].
  destruct (decodeURIComponent (group caps 1)) as [origin|]; [|reflexivity].
  destruct (decodeURIComponent (group caps 2)) as [destination|]; [|reflexivity].
  cbn.
  match goal with
  | |- context [net ?c] => destruct (net c) as [data | []]; try reflexivity
  end.
  cbn. f_equal. exact (read_settle_rejected rt request_uri _ _).
Qed.

(** X5.  The read handler answers "Invalid URI" exactly for the URIs that are
    not ['directions://'] followed by two non-empty segments around a ['/'],
    free of line terminators; for those it sends nothing. *)
Theorem read_rejects_exactly_malformed_uris
        (rt : Runtime) (API_KEY request_uri : JsString) (net : GetCall -> GetOutcome) :
  run (Directions.ReadResource rt API_KEY request_uri) net
  = ([], Throw (McpError InvalidRequest (lit "Invalid URI: " ++ request_uri)))
  <-> ~ (exists X Y, two_segments request_uri X Y).
Proof.
  rewrite read_resource_run.
  destruct (String_match request_uri Directions.regex) as [caps|] eqn:E.
  - destruct (regex_match_sound _ _ E) as (X & Y & -> & Hseg & _).
    split.
    + intros H. exfalso.
      destruct (decodeURIComponent (group [X; Y] 1)) as [o|e1] eqn:E1.
      * destruct (decodeURIComponent (group [X; Y] 2)) as [d|e2] eqn:E2.
        -- discriminate.
        -- apply decodeURIComponent_throws_URIError in E2. subst e2. discriminate.
      * apply decodeURIComponent_throws_URIError in E1. subst e1. discriminate.
    + intros H. exfalso. apply H. eauto.
  - split; [|reflexivity].
    intros _ (X & Y & Hseg). now apply (regex_match_complete _ _ _ Hseg).
Qed.

(** X6.  Every resource the directions server lists is one its own read
    handler rejects: ['directions://ExampleRoute'] has no second segment. *)
Theorem listed_resources_are_rejected
        (rt : Runtime) (API_KEY request_uri : JsString) (net : GetCall -> GetOutcome) :
  In request_uri directions_resources ->
  run (Directions.ReadResource rt API_KEY request_uri) net
  = ([], Throw (McpError InvalidRequest (lit "Invalid URI: " ++ request_uri))).
Proof. intros [<- | []]. reflexivity. Qed.

Lemma listed_resources_witness :
  In (lit "directions://ExampleRoute") directions_resources /\
  run (Directions.ReadResource sample_runtime (lit "key") (lit "directions://ExampleRoute"))
      no_network
  = ([], Throw (McpError InvalidRequest (lit "Invalid URI: directions://ExampleRoute"))).
Proof.
  assert (H : In (lit "directions://ExampleRoute") directions_resources) by (left; reflexivity).
  split; [exact H|].
  exact (listed_resources_are_rejected
           sample_runtime (lit "key") (lit "directions://ExampleRoute") no_network H).
Defined.

(** X7.  Whenever the read handler sends a request, the URI is
    ['directions://' X '/' Y] with [X] the longest first segment that leaves a
    non-empty second one, the request is the only one, it asks for the
    decoded [X] and [Y] with the key, and it carries no [mode]. *)
Theorem read_request_comes_from_the_uri
        (rt : Runtime) (API_KEY request_uri : JsString) (net : GetCall -> GetOutcome)
        (call : GetCall) (calls : list GetCall) :
  issued (run (Directions.ReadResource rt API_KEY request_uri) net) = call :: calls ->
  exists X Y origin destination,
    two_segments request_uri X Y /\
    (forall X' Y', two_segments request_uri X' Y' -> List.length X' <= List.length X) /\
    decodeURIComponent X = Ok origin /\
    decodeURIComponent Y = Ok destination /\
    call = resource_call API_KEY origin destination /\
    calls = [] /\
    lookup (lit "mode") (params call) = None.
Proof.
  rewrite read_resource_run. unfold issued.
  destruct (String_match request_uri Directions.regex) as [caps|] eqn:E; [|discriminate].
  destruct (regex_match_sound _ _ E) as (X & Y & -> & Hseg & Hmax).
  change (group [X; Y] 1) with X. change (group [X; Y] 2) with Y.
  destruct (decodeURIComponent X) as [o|] eqn:E1; [|discriminate].
  destruct (decodeURIComponent Y) as [d|] eqn:E2; [|discriminate].
  simpl. intros [= <- <-].
  exists X, Y, o, d. repeat split; try assumption; try reflexivity.
  - apply Hseg.
  - apply Hseg.
  - apply Hseg.
  - apply Hseg.
  - apply Hseg.
Qed.

Lemma read_request_witness :
  issued (run (Directions.ReadResource sample_runtime (lit "key")
                 (lit "directions://Kyoto%20Station/Nara/Park")) no_network)
  = [resource_call (lit "key") (lit "Kyoto Station/Nara") (lit "Park")] /\
  exists X Y origin destination,
    two_segments (lit "directions://Kyoto%20Station/Nara/Park") X Y /\
    (forall X' Y', two_segments (lit "directions://Kyoto%20Station/Nara/Park") X' Y' ->
                   List.length X' <= List.length X) /\
    decodeURIComponent X = Ok origin /\
    decodeURIComponent Y = Ok destination /\
    resource_call (lit "key") (lit "Kyoto Station/Nara") (lit "Park")
    = resource_call (lit "key") origin destination /\
    @nil GetCall = [] /\
    lookup (lit "mode")
           (params (resource_call (lit "key") (lit "Kyoto Station/Nara") (lit "Park")))
    = None.
Proof.
  split; [reflexivity|].
  exact (read_request_comes_from_the_uri
           sample_runtime (lit "key") (lit "directions://Kyoto%20Station/Nara/Park")
           no_network _ _ eq_refl).
Defined.

(** X8.  When a segment of a URI that matches the pattern does not
    URL-decode, the read handler raises a [URIError] before sending anything:
    it is neither the invalid-URI error nor the internal-error mapping of
    the [catch].  The segments are the two captures of the pattern, whatever
    the URI. *)
Theorem read_undecodable_segment_raises_URIError
        (rt : Runtime) (API_KEY request_uri : JsString) (caps : list JsString)
        (net : GetCall -> GetOutcome) :
  String_match request_uri Directions.regex = Some caps ->
  undecodable (group caps 1) \/ undecodable (group caps 2) ->
  run (Directions.ReadResource rt API_KEY request_uri) net = ([], Throw URIError).
Proof.
  intros Hm Hbad. rewrite read_resource_run, Hm.
  destruct (decodeURIComponent (group caps 1)) as [o|e1] eqn:E1.
  - destruct (decodeURIComponent (group caps 2)) as [d|e2] eqn:E2.
    + exfalso. destruct Hbad as [H | H]; [now apply (H o) | now apply (H d)].
    + now rewrite (decodeURIComponent_throws_URIError _ _ E2).
  - now rewrite (decodeURIComponent_throws_URIError _ _ E1).
Qed.

Lemma read_undecodable_witness :
  String_match (lit "directions://%ZZ/b/") Directions.regex = Some [lit "%ZZ"; lit "b/"] /\
  undecodable (lit "%ZZ") /\
  run (Directions.ReadResource sample_runtime (lit "key") (lit "directions://%ZZ/b/"))
      no_network
  = ([], Throw URIError) /\
  run (Directions.ReadResource sample_runtime (lit "key") (lit "directions://Tokyo/%ZZ"))
      no_network
  = ([], Throw URIError).
Proof.
  assert (U : undecodable (lit "%ZZ")) by (intros d; discriminate).
  split; [reflexivity|]. split; [exact U|]. apply conj.
  - exact (read_undecodable_segment_raises_URIError
             sample_runtime (lit "key") (lit "directions://%ZZ/b/")
             [lit "%ZZ"; lit "b/"] no_network eq_refl (or_introl U)).
  - exact (read_undecodable_segment_raises_URIError
             sample_runtime (lit "key") (lit "directions://Tokyo/%ZZ")
             [lit "Tokyo"; lit "%ZZ"] no_network eq_refl (or_intror U)).
Defined.

(** X9.  Segments without a percent sign are taken as they are: for
    ['directions://' X '/' Y] with [Y] free of ['/'] the read handler asks for
    the route from [X] to [Y], and on a successful response returns one
    [application/json] content whose [uri] is the request URI and whose text
    is the serialised body. *)
Theorem read_plain_segments
        (rt : Runtime) (API_KEY X Y : JsString) (net : GetCall -> GetOutcome) :
  X <> [] -> Y <> [] ->
  dot_matches_all X = true -> dot_matches_all Y = true ->
  has_slash Y = false ->
  has_percent X = false -> has_percent Y = false ->
  let request_uri := lit "directions://" ++ X ++ lit "/" ++ Y in
  run (Directions.ReadResource rt API_KEY request_uri) net
  = ([resource_call API_KEY X Y],
     read_settle rt request_uri (net (resource_call API_KEY X Y))) /\
  (forall data,
      net (resource_call API_KEY X Y) = Resolved data ->
      outcome (run (Directions.ReadResource rt API_KEY request_uri) net)
      = Ok (read_result rt request_uri data)).
Proof.
  intros HX HY HdX HdY Hs HpX HpY request_uri. subst request_uri.
  assert (E : run (Directions.ReadResource rt API_KEY
                     (lit "directions://" ++ X ++ lit "/" ++ Y)) net
              = ([resource_call API_KEY X Y],
                 read_settle rt (lit "directions://" ++ X ++ lit "/" ++ Y)
                             (net (resource_call API_KEY X Y)))).
  { rewrite read_resource_run, directions_regex_match by assumption.
    change (group [X; Y] 1) with X. change (group [X; Y] 2) with Y.
    now rewrite !decodeURIComponent_plain by assumption. }
  split; [exact E|].
  intros data Hnet. rewrite E. unfold outcome. simpl. now rewrite Hnet.
Qed.

Lemma read_plain_segments_witness :
  run (Directions.ReadResource sample_runtime (lit "key") (lit "directions://Tokyo/Osaka"))
      (fun _ => Resolved (obj [("status", str "OK")]%string))
  = ([resource_call (lit "key") (lit "Tokyo") (lit "Osaka")],
     Ok (read_result sample_runtime (lit "directions://Tokyo/Osaka")
                     (obj [("status", str "OK")]%string))).
Proof.
  assert (HX : lit "Tokyo" <> []) by discriminate.
  assert (HY : lit "Osaka" <> []) by discriminate.
  exact (proj1 (read_plain_segments
                  sample_runtime (lit "key") (lit "Tokyo") (lit "Osaka")
                  (fun _ => Resolved (obj [("status", str "OK")]%string))
                  HX HY eq_refl eq_refl eq_refl eq_refl eq_refl)).
Defined.

(** ** One request per invocation *)

Lemma single_await_run {R} (h : Async R) (net : GetCall -> GetOutcome) :
  single_await h -> List.length (issued (run h net)) <= 1.
Proof.
  destruct h as [c | call k]; simpl; [lia|].
  intros H. destruct (H (net call)) as [c ->]. simpl. lia.
Qed.

Lemma single_await_bind_sync {A B} (m : Exc A) (f : A -> Async B) :
  (forall x, single_await (f x)) -> single_await (Async_bind (sync m) f).
Proof. intros H. destruct m; simpl; [apply H | exact I]. Qed.

Lemma settles_bind {A B} (a : Async A) (f : A -> Async B) :
  settles a -> (forall x, settles (f x)) -> settles (Async_bind a f).
Proof.
  intros [c ->] H. destruct c; simpl; [apply H | now exists (Throw e)].
Qed.

Lemma settles_sync {A} (m : Exc A) : settles (sync m).
Proof. now exists m. Qed.

Lemma single_await_get_then {B} (u : JsString) (ps : Props) (f : Value -> Async B) :
  (forall data, settles (f data)) -> single_await (Async_bind (axios_get u ps) f).
Proof.
  intros H o. destruct o; simpl; [apply H | now exists (Throw error)].
Qed.

Lemma single_await_try_catch {R} (h : Async R) (handler : Exception -> Async R) :
  single_await h -> (forall e, settles (handler e)) -> single_await (try_catch h handler).
Proof.
  intros Hh Hc. destruct h as [[r | e] | call k]; simpl.
  - exact I.
  - destruct (Hc e) as [c ->]. exact I.
  - intros o. destruct (Hh o) as [[r | e] ->]; simpl;
      [now exists (Ok r) | apply Hc].
Qed.


(** X10.  No invocation sends more than one request: whatever the arguments
    and whatever the network answers, each tool handler and the read handler
    issue at most one GET. *)
Theorem at_most_one_get
        (rt : Runtime) (API_KEY name request_uri : JsString) (arguments : Value)
        (net : GetCall -> GetOutcome) :
  List.length (issued (run (Directions.CallTool rt API_KEY name arguments) net)) <= 1 /\
  List.length (issued (run (Directions.ReadResource rt API_KEY request_uri) net)) <= 1 /\
  List.length (issued (run (Transit.CallTool rt name arguments) net)) <= 1 /\
  List.length (issued (run (Places.CallTool rt name arguments) net)) <= 1.
Proof.
  repeat split; apply single_await_run;
    unfold Directions.CallTool, Directions.ReadResource, Transit.CallTool,
      Places.CallTool, Places.handleSearchPlaces, Places.handleGetPlaceDetails,
      Places.handleNearbySearch;
    repeat first
      [ exact I
      | apply settles_sync
      | apply single_await_get_then; intros ?
      | apply single_await_try_catch; [| intros ? ]
      | apply single_await_bind_sync; intros ?
      | apply settles_bind; [| intros ? ]
      | match goal with
        | |- single_await (match ?e with _ => _ end) => destruct e
        | |- single_await (if ?b then _ else _) => destruct b
        | |- settles (match ?e with _ => _ end) => destruct e
        | |- settles (if ?b then _ else _) => destruct b
        end ].
Qed.

(** ** What the translators forward *)

Lemma normalizeTime_includes_plus (s : JsString) :
  String_includes (Transit.normalizeTime s) (lit "+") = true.
Proof.
  unfold Transit.normalizeTime.
  destruct (String_includes s (lit "+")) eqn:E; [exact E|].
  apply String_includes_suffixed.
Qed.

Lemma or_else_truthy (v d : Value) : ToBoolean v = true -> or_else v d = v.
Proof. unfold or_else. now intros ->. Qed.

(** X11.  Whatever [start_time] a valid transit call carries, the
    [start_time] sent upstream is a string that contains ['+']. *)
Theorem start_time_sent_contains_plus
        (rt : Runtime) (args : Value) (net : GetCall -> GetOutcome) :
  Transit.isValidRouteTransitArgs args = Ok true ->
  exists s,
    sent_param (run (Transit.CallTool rt (lit "route_transit") args) net) "start_time"
    = Some (VStr s) /\
    String_includes s (lit "+") = true.
Proof.
  intros Hv. destruct (transit_sent rt args net Hv) as (-> & _).
  eexists. split; [reflexivity|].
  destruct (Get_opt args (lit "start_time")) as [| | | |[|c s]| |];
    try reflexivity.
  apply normalizeTime_includes_plus.
Qed.

Lemma start_time_sent_witness :
  Transit.isValidRouteTransitArgs (transit_call_with (str "tomorrow 9am")) = Ok true /\
  exists s,
    sent_param (run (Transit.CallTool sample_runtime (lit "route_transit")
                       (transit_call_with (str "tomorrow 9am"))) no_network) "start_time"
    = Some (VStr s) /\
    String_includes s (lit "+") = true.
Proof.
  split; [reflexivity|].
  exact (start_time_sent_contains_plus
           sample_runtime (transit_call_with (str "tomorrow 9am")) no_network eq_refl).
Defined.

Lemma transit_sent_endpoints
      (rt : Runtime) (args : Value) (net : GetCall -> GetOutcome) :
  Transit.isValidRouteTransitArgs args = Ok true ->
  let r := run (Transit.CallTool rt (lit "route_transit") args) net in
  sent_param r "start" = Some (Get_opt args (lit "start")) /\
  sent_param r "goal" = Some (Get_opt args (lit "goal")).
Proof.
  intros Hv r. subst r.
  destruct (transit_issues rt args net Hv) as (ps & Hps & Hr).
  unfold sent_param. rewrite Hr. cbn [params].
  rewrite isValidRouteTransitArgs_eq in Hv. injection Hv as Hs.
  destruct (request_params_valid rt _ Hs) as (st & _ & Hps').
  rewrite Hps' in Hps. injection Hps as <-.
  split; reflexivity.
Qed.

(** X12.  Values are forwarded as they are, with no check of range or of
    known names.  Transit: [start] and [goal] always, and [term], [limit],
    [datum], [coord_unit] when non-empty; directions: a non-empty [mode];
    places: [type] always, and [language] and [radius] when truthy, whatever
    their type, in a nearby search whose [lat] and [lng] convert to
    strings. *)
Theorem supplied_values_are_forwarded
        (rt : Runtime) (API_KEY : JsString) (args : Value) (net : GetCall -> GetOutcome) :
  (Transit.isValidRouteTransitArgs args = Ok true ->
   let r := run (Transit.CallTool rt (lit "route_transit") args) net in
   sent_param r "start" = Some (Get_opt args (lit "start")) /\
   sent_param r "goal" = Some (Get_opt args (lit "goal")) /\
   (ToBoolean (Get_opt args (lit "term")) = true ->
    sent_param r "term" = Some (Get_opt args (lit "term"))) /\
   (ToBoolean (Get_opt args (lit "limit")) = true ->
    sent_param r "limit" = Some (Get_opt args (lit "limit"))) /\
   (ToBoolean (Get_opt args (lit "datum")) = true ->
    sent_param r "datum" = Some (Get_opt args (lit "datum"))) /\
   (ToBoolean (Get_opt args (lit "coord_unit")) = true ->
    sent_param r "coord_unit" = Some (Get_opt args (lit "coord_unit")))) /\
  (Directions.isValidDirectionsArgs args = Ok true ->
   ToBoolean (Get_opt args (lit "mode")) = true ->
   sent_param (run (Directions.CallTool rt API_KEY (lit "get_directions") args) net) "mode"
   = Some (Get_opt args (lit "mode"))) /\
  (is_nullish args = false ->
   ToBoolean (Get_opt args (lit "language")) = true ->
   sent_param (run (Places.CallTool rt (lit "search_places") args) net) "language"
   = Some (Get_opt args (lit "language")) /\
   sent_param (run (Places.CallTool rt (lit "get_place_details") args) net) "language"
   = Some (Get_opt args (lit "language"))) /\
  (is_nullish args = false ->
   is_nullish (Get_opt args (lit "location")) = false ->
   can_stringify rt (Get_opt (Get_opt args (lit "location")) (lit "lat")) = true ->
   can_stringify rt (Get_opt (Get_opt args (lit "location")) (lit "lng")) = true ->
   let r := run (Places.CallTool rt (lit "nearby_search") args) net in
   sent_param r "type" = Some (Get_opt args (lit "type")) /\
   (ToBoolean (Get_opt args (lit "language")) = true ->
    sent_param r "language" = Some (Get_opt args (lit "language"))) /\
   (ToBoolean (Get_opt args (lit "radius")) = true ->
    sent_param r "radius" = Some (Get_opt args (lit "radius")))).
Proof.
  repeat apply conj.
  - intros Hv r. subst r.
    destruct (transit_sent_endpoints rt args net Hv) as (-> & ->).
    destruct (transit_sent rt args net Hv) as (_ & -> & -> & -> & ->).
    repeat apply conj; try reflexivity; intros H; now rewrite or_else_truthy.
  - intros Hv H. rewrite (directions_sent_mode rt API_KEY args net Hv).
    now rewrite or_else_truthy.
  - intros Hn H. rewrite !places_sent_language by auto.
    now rewrite or_else_truthy.
  - intros Hn Hl Hlat Hlng r. subst r.
    destruct (places_sent_nearby rt args net Hn Hl Hlat Hlng) as (-> & -> & ->).
    repeat apply conj; try reflexivity; intros H; now rewrite or_else_truthy.
Qed.

Lemma supplied_values_witness :
  Directions.isValidDirectionsArgs directions_by_teleport = Ok true /\
  ToBoolean (Get_opt directions_by_teleport (lit "mode")) = true /\
  sent_param (run (Directions.CallTool sample_runtime (lit "key") (lit "get_directions")
                     directions_by_teleport) no_network) "mode"
  = Some (str "teleport") /\
  ToBoolean (Get_opt nearby_negative_radius (lit "radius")) = true /\
  sent_param (run (Places.CallTool sample_runtime (lit "nearby_search")
                     nearby_negative_radius) no_network) "radius"
  = Some (VNum (-5)%float).
Proof.
  split; [reflexivity|]. split; [reflexivity|]. split; [|split; [reflexivity|]].
  - exact (proj1 (proj2 (supplied_values_are_forwarded
                           sample_runtime (lit "key") directions_by_teleport no_network))
                 eq_refl eq_refl).
  - exact (proj2 (proj2 (proj2 (proj2 (proj2 (supplied_values_are_forwarded
                           sample_runtime (lit "key") nearby_negative_radius no_network)))
                        eq_refl eq_refl eq_refl eq_refl)) eq_refl).
Defined.

(** ** How the normalizer fails *)

Lemma only_TypeError_Ok {A} (a : A) : only_TypeError (Ok a).
Proof. intros e. discriminate. Qed.

Lemma only_TypeError_bind {A B} (m : Exc A) (f : A -> Exc B) :
  only_TypeError m -> (forall a, only_TypeError (f a)) -> only_TypeError (bind m f).
Proof.
  intros Hm Hf e. destruct m as [a | e']; simpl.
  - apply Hf.
  - intros [= <-]. now apply Hm.
Qed.

Lemma only_TypeError_Get (v : Value) (k : JsString) : only_TypeError (Get v k).
Proof. intros e. destruct v; simpl; try discriminate; now intros [= <-]. Qed.

Lemma only_TypeError_Set (v : Value) (k : JsString) (x : Value) :
  only_TypeError (Set_ v k x).
Proof. intros e. destruct v; simpl; try discriminate; now intros [= <-]. Qed.

Lemma only_TypeError_ToString (rt : Runtime) (v : Value) :
  only_TypeError (ToString rt v).
Proof. intros e. apply ToString_TypeError. Qed.

Lemma only_TypeError_addTimezone (rt : Runtime) (v : Value) :
  only_TypeError (Transit.apply_addTimezone rt v).
Proof.
  destruct v; try (intros e; simpl; try discriminate; now intros [= <-]).
  unfold Transit.apply_addTimezone.
  destruct (Array_includes elems (lit "+")); [intros e; discriminate|].
  apply only_TypeError_bind; [apply only_TypeError_ToString|].
  intros s e. discriminate.
Qed.

Lemma only_TypeError_mapM {A B} (f : A -> Exc B) (l : list A) :
  (forall x, only_TypeError (f x)) -> only_TypeError (mapM f l).
Proof.
  intros Hf. induction l as [|a l IH]; simpl.
  - apply only_TypeError_Ok.
  - apply only_TypeError_bind; [apply Hf|]. intros y.
    apply only_TypeError_bind; [exact IH|]. intros ys. apply only_TypeError_Ok.
Qed.

Create HintDb type_errors.
#[local] Hint Resolve only_TypeError_Ok only_TypeError_Get only_TypeError_Set
  only_TypeError_addTimezone : type_errors.

Lemma only_TypeError_map_section (rt : Runtime) (section : Value) :
  only_TypeError (Transit.map_section rt section).
Proof.
  unfold Transit.map_section.
  repeat first
    [ solve [auto with type_errors]
    | apply only_TypeError_bind; [| intros ? ]
    | match goal with
      | |- only_TypeError (if ?b then _ else _) => destruct b
      | |- only_TypeError (match ?v with _ => _ end) => destruct v
      | |- only_TypeError (mapM _ _) => apply only_TypeError_mapM; intros ?
      end ].
Qed.

#[local] Hint Resolve only_TypeError_map_section : type_errors.

Lemma only_TypeError_map_item (rt : Runtime) (item : Value) :
  only_TypeError (Transit.map_item rt item).
Proof.
  unfold Transit.map_item.
  repeat first
    [ solve [auto with type_errors]
    | apply only_TypeError_bind; [| intros ? ]
    | match goal with
      | |- only_TypeError (if ?b then _ else _) => destruct b
      | |- only_TypeError (match ?v with _ => _ end) => destruct v
      | |- only_TypeError (mapM _ _) => apply only_TypeError_mapM; intros ?
      end ].
Qed.

#[local] Hint Resolve only_TypeError_map_item : type_errors.

Lemma only_TypeError_transform (rt : Runtime) (data : Value) :
  only_TypeError (Transit.transform rt data).
Proof.
  unfold Transit.transform.
  repeat first
    [ solve [auto with type_errors]
    | apply only_TypeError_bind; [| intros ? ]
    | match goal with
      | |- only_TypeError (if ?b then _ else _) => destruct b
      | |- only_TypeError (match ?v with _ => _ end) => destruct v
      | |- only_TypeError (mapM _ _) => apply only_TypeError_mapM; intros ?
      end ].
Qed.

Lemma lookup_assign_other (k k' : JsString) (v : Value) (o : Props) :
  (k =?s k') = false -> lookup k' (assign k v o) = lookup k' o.
Proof.
  intros Hk. induction o as [|[k0 x] o IH]; simpl.
  - rewrite Hk. reflexivity.
  - destruct (k0 =?s k) eqn:E0; simpl.
    + apply JsString_eqb_eq in E0. subst k0. now rewrite Hk.
    + now rewrite IH.
Qed.

Lemma mapM_Ok_In {A B} (f : A -> Exc B) (l : list A) (l' : list B) (x : A) :
  mapM f l = Ok l' -> In x l -> exists y, f x = Ok y.
Proof.
  revert l'. induction l as [|a l IH]; intros l' H Hin; [contradiction|].
  simpl in H. destruct (f a) as [y|] eqn:Ea; [|discriminate]. simpl in H.
  destruct (mapM f l) as [ys|] eqn:El; [|discriminate].
  destruct Hin as [<- | Hin]; [eauto | exact (IH ys eq_refl Hin)].
Qed.

Lemma truthy_defined (v : Value) : ToBoolean v = true -> is_nullish v = false.
Proof. destruct v; simpl; intros H; try discriminate; reflexivity. Qed.

Lemma has_includes_call (rt : Runtime) (v : Value) :
  has_includes v = false -> Transit.apply_addTimezone rt v = Throw TypeError.
Proof. destruct v; simpl; intros H; try discriminate; reflexivity. Qed.

Lemma map_item_unusable_time (rt : Runtime) (item : Value) :
  let move := Get_opt (Get_opt item (lit "summary")) (lit "move") in
  ToBoolean move = true ->
  has_includes (Get_opt move (lit "from_time")) = false
  \/ has_includes (Get_opt move (lit "to_time")) = false ->
  Transit.map_item rt item = Throw TypeError.
Proof.
  intros move Hb Hbad. subst move. unfold Transit.map_item.
  destruct (Get_opt_defined_parent _ _ Hb) as [Hsn Hmu].
  assert (Hsb : ToBoolean (Get_opt item (lit "summary")) = true).
  { destruct (Get_opt item (lit "summary")); try discriminate; try reflexivity;
      simpl in Hmu; congruence. }
  destruct (Get_opt_defined_parent _ _ Hsb) as [Hin _].
  rewrite (Get_defined _ _ Hin). cbn [bind]. rewrite Hsb.
  rewrite !(Get_defined _ _ Hsn). cbn [bind]. rewrite Hb.
  rewrite (Get_defined _ _ (truthy_defined _ Hb)). cbn [bind].
  set (move := Get_opt (Get_opt item (lit "summary")) (lit "move")) in *.
  destruct (has_includes (Get_opt move (lit "from_time"))) eqn:Hf.
  - destruct Hbad as [Hbad | Hbad]; [discriminate|].
    destruct move as [| | | | | |m] eqn:Em; try discriminate Hf.
    destruct (Transit.apply_addTimezone rt (Get_opt (VObj m) (lit "from_time")))
      as [ft|e] eqn:Ea.
    + cbn [bind Set_ Get].
      rewrite lookup_assign_other by reflexivity.
      change (match lookup (lit "to_time") m with Some x => x | None => VUndefined end)
        with (Get_opt (VObj m) (lit "to_time")).
      now rewrite (has_includes_call rt _ Hbad).
    + cbn [bind]. now rewrite (only_TypeError_addTimezone rt _ e Ea).
  - now rewrite (has_includes_call rt _ Hf).
Qed.

Lemma transform_unusable_time (rt : Runtime) (data : Value) (items : list Value)
      (item : Value) :
  Get_opt data (lit "items") = VArr items ->
  In item items ->
  let move := Get_opt (Get_opt item (lit "summary")) (lit "move") in
  ToBoolean move = true ->
  has_includes (Get_opt move (lit "from_time")) = false
  \/ has_includes (Get_opt move (lit "to_time")) = false ->
  Transit.transform rt data = Throw TypeError.
Proof.
  intros Hitems Hin move Hb Hbad.
  destruct (Transit.transform rt data) as [data'|e] eqn:E.
  - exfalso. unfold Transit.transform in E.
    assert (Hn : is_nullish data = false)
      by (destruct data; try discriminate; reflexivity).
    rewrite (Get_defined _ _ Hn), Hitems in E. cbn in E.
    destruct (mapM (Transit.map_item rt) items) as [mapped|] eqn:Em; [|discriminate].
    destruct (mapM_Ok_In _ _ _ item Em Hin) as [y Hy].
    rewrite (map_item_unusable_time rt item Hb Hbad) in Hy. discriminate.
  - now rewrite (only_TypeError_transform rt data e E).
Qed.

Lemma transit_run_resolved
      (rt : Runtime) (args data : Value) (net : GetCall -> GetOutcome) :
  Transit.isValidRouteTransitArgs args = Ok true ->
  (forall call, net call = Resolved data) ->
  exists call,
    run (Transit.CallTool rt (lit "route_transit") args) net
    = ([call], match Transit.transform rt data with
               | Ok data' => Ok (text_result rt data')
               | Throw e => Throw e
               end).
Proof.
  intros Hv Hnet.
  unfold Transit.CallTool, sync, axios_get. rewrite Hv.
  rewrite isValidRouteTransitArgs_eq in Hv. injection Hv as Hs.
  destruct (request_params_valid rt _ Hs) as (st & _ & ->). cbn.
  rewrite Hnet. cbn. eexists.
  destruct (Transit.transform rt data) as [data'|e] eqn:E; cbn; [reflexivity|].
  rewrite (only_TypeError_transform rt data e E). reflexivity.
Qed.

(** X13.  Once the upstream has answered a valid transit call, the handler
    has two outcomes only: the envelope, without [isError], of the serialised
    reshaped body, or a [TypeError] raised by the reshaping, which the
    [catch] rethrows.  The request has been sent in both. *)
Theorem transit_response_outcomes
        (rt : Runtime) (args data : Value) (net : GetCall -> GetOutcome) :
  Transit.isValidRouteTransitArgs args = Ok true ->
  (forall call, net call = Resolved data) ->
  let r := run (Transit.CallTool rt (lit "route_transit") args) net in
  List.length (issued r) = 1 /\
  ((exists data', Transit.transform rt data = Ok data' /\
                  outcome r = Ok (text_result rt data'))
   \/ (Transit.transform rt data = Throw TypeError /\ outcome r = Throw TypeError)).
Proof.
  intros Hv Hnet r. subst r.
  destruct (transit_run_resolved rt args data net Hv Hnet) as (call & ->).
  split; [reflexivity|]. unfold outcome. simpl.
  destruct (Transit.transform rt data) as [data'|e] eqn:E.
  - left. eauto.
  - right. rewrite (only_TypeError_transform rt data e E). split; reflexivity.
Qed.

Lemma transit_response_witness :
  Transit.isValidRouteTransitArgs (transit_call_with VUndefined) = Ok true /\
  List.length (issued (run (Transit.CallTool sample_runtime (lit "route_transit")
                              (transit_call_with VUndefined))
                           (fun _ => Resolved VNull))) = 1 /\
  ((exists data', Transit.transform sample_runtime VNull = Ok data' /\
                  outcome (run (Transit.CallTool sample_runtime (lit "route_transit")
                                  (transit_call_with VUndefined))
                               (fun _ => Resolved VNull))
                  = Ok (text_result sample_runtime data'))
   \/ (Transit.transform sample_runtime VNull = Throw TypeError /\
       outcome (run (Transit.CallTool sample_runtime (lit "route_transit")
                       (transit_call_with VUndefined))
                    (fun _ => Resolved VNull)) = Throw TypeError)).
Proof.
  split; [reflexivity|].
  exact (transit_response_outcomes
           sample_runtime (transit_call_with VUndefined) VNull (fun _ => Resolved VNull)
           eq_refl (fun _ => eq_refl)).
Defined.

(** X14.  If some item of the body has a truthy [summary.move] whose
    [from_time] or [to_time] is neither a string nor an array (missing,
    [null], a number, ...), a valid transit call fails with a [TypeError]
    after its request was answered, and returns no envelope. *)
Theorem unusable_summary_time_fails_the_call
        (rt : Runtime) (args data : Value) (items : list Value) (item : Value)
        (net : GetCall -> GetOutcome) :
  Transit.isValidRouteTransitArgs args = Ok true ->
  (forall call, net call = Resolved data) ->
  Get_opt data (lit "items") = VArr items ->
  In item items ->
  let move := Get_opt (Get_opt item (lit "summary")) (lit "move") in
  ToBoolean move = true ->
  has_includes (Get_opt move (lit "from_time")) = false
  \/ has_includes (Get_opt move (lit "to_time")) = false ->
  Transit.transform rt data = Throw TypeError /\
  outcome (run (Transit.CallTool rt (lit "route_transit") args) net) = Throw TypeError.
Proof.
  intros Hv Hnet Hitems Hin move Hb Hbad.
  pose proof (transform_unusable_time rt data items item Hitems Hin Hb Hbad) as E.
  split; [exact E|].
  destruct (transit_run_resolved rt args data net Hv Hnet) as (call & ->).
  unfold outcome. simpl. now rewrite E.
Qed.

Lemma unusable_summary_time_witness :
  Transit.transform sample_runtime body_with_numeric_time = Throw TypeError /\
  outcome (run (Transit.CallTool sample_runtime (lit "route_transit")
                  (transit_call_with VUndefined))
               (fun _ => Resolved body_with_numeric_time))
  = Throw TypeError.
Proof.
  refine (unusable_summary_time_fails_the_call
            sample_runtime (transit_call_with VUndefined) body_with_numeric_time
            _ _ (fun _ => Resolved body_with_numeric_time)
            eq_refl (fun _ => eq_refl) eq_refl (or_introl eq_refl) eq_refl
            (or_intror eq_refl)).
Defined.

(** ** The normalizer applied to its own output *)

Lemma update_first_twice (k : JsString) (f g : Value -> Value) (o : Props) :
  update_first k g (update_first k f o) = update_first k (fun x => g (f x)) o.
Proof.
  induction o as [|[k0 x] o IH]; simpl; [reflexivity|].
  destruct (k0 =?s k) eqn:E; simpl; rewrite E; [reflexivity | now rewrite IH].
Qed.

Lemma update_first_ext (k : JsString) (f g : Value -> Value) (o : Props) :
  (forall x, f x = g x) -> update_first k f o = update_first k g o.
Proof.
  intros H. induction o as [|[k0 x] o IH]; simpl; [reflexivity|].
  destruct (k0 =?s k); [now rewrite H | now rewrite IH].
Qed.

Lemma update_first_comm (k1 k2 : JsString) (f g : Value -> Value) (o : Props) :
  (k1 =?s k2) = false ->
  update_first k1 f (update_first k2 g o) = update_first k2 g (update_first k1 f o).
Proof.
  intros Hk. induction o as [|[k0 x] o IH]; simpl; [reflexivity|].
  destruct (k0 =?s k2) eqn:E2; destruct (k0 =?s k1) eqn:E1; simpl;
    rewrite ?E1, ?E2; try reflexivity.
  - apply JsString_eqb_eq in E1, E2. subst. rewrite JsString_eqb_refl in Hk. discriminate.
  - now rewrite IH.
Qed.

Lemma update_prop_idem (k : string) (f : Value -> Value) (v : Value) :
  (forall x, f (f x) = f x) -> update_prop k f (update_prop k f v) = update_prop k f v.
Proof.
  intros H. destruct v; try reflexivity. simpl.
  rewrite update_first_twice. f_equal. now apply update_first_ext.
Qed.

Lemma update_prop_comm (k1 k2 : string) (f g : Value -> Value) (v : Value) :
  (lit k1 =?s lit k2) = false ->
  update_prop k1 f (update_prop k2 g v) = update_prop k2 g (update_prop k1 f v).
Proof.
  intros Hk. destruct v; try reflexivity. simpl. f_equal. now apply update_first_comm.
Qed.

Lemma two_updates_idem (k1 k2 : string) (f g : Value -> Value) (v : Value) :
  (lit k1 =?s lit k2) = false ->
  (forall x, f (f x) = f x) -> (forall x, g (g x) = g x) ->
  update_prop k2 g (update_prop k1 f (update_prop k2 g (update_prop k1 f v)))
  = update_prop k2 g (update_prop k1 f v).
Proof.
  intros Hk Hf Hg.
  rewrite (update_prop_comm k1 k2 f g (update_prop k1 f v) Hk).
  rewrite (update_prop_idem k1 f v Hf).
  now rewrite (update_prop_idem k2 g _ Hg).
Qed.

Lemma update_elements_idem (f : Value -> Value) (v : Value) :
  (forall x, f (f x) = f x) ->
  update_elements f (update_elements f v) = update_elements f v.
Proof.
  intros H. destruct v; try reflexivity. simpl. f_equal.
  rewrite map_map. apply map_ext. exact H.
Qed.

Lemma addTimezone_settled (s : JsString) :
  Transit.addTimezone (Transit.addTimezone s) = Transit.addTimezone s.
Proof.
  unfold Transit.addTimezone.
  destruct (String_includes s (lit "+")) eqn:E; [now rewrite E|].
  now rewrite String_includes_suffixed.
Qed.

Lemma suffix_time_idem (v : Value) : suffix_time (suffix_time v) = suffix_time v.
Proof. destruct v; try reflexivity. simpl. now rewrite addTimezone_settled. Qed.

Lemma ToBoolean_suffix_time (v : Value) :
  ToBoolean v = true -> ToBoolean (suffix_time v) = true.
Proof.
  destruct v; try (intros; assumption). simpl. unfold Transit.addTimezone.
  destruct (String_includes s (lit "+")); [intros; assumption|].
  destruct s; [discriminate | reflexivity].
Qed.

Lemma suffix_time_when_present_idem (v : Value) :
  suffix_time_when_present (suffix_time_when_present v) = suffix_time_when_present v.
Proof.
  unfold suffix_time_when_present.
  destruct (ToBoolean v) eqn:E.
  - now rewrite (ToBoolean_suffix_time v E), suffix_time_idem.
  - now rewrite E.
Qed.

Lemma suffix_times_idem (f : Value -> Value) (v : Value) :
  (forall x, f (f x) = f x) -> suffix_times f (suffix_times f v) = suffix_times f v.
Proof. intros H. unfold suffix_times. now apply two_updates_idem. Qed.

Lemma ToBoolean_update_prop (k : string) (f : Value -> Value) (v : Value) :
  ToBoolean (update_prop k f v) = ToBoolean v.
Proof. destruct v; reflexivity. Qed.

Lemma Get_opt_suffix_times_type (f : Value -> Value) (v : Value) :
  Get_opt (suffix_times f v) (lit "type") = Get_opt v (lit "type").
Proof.
  unfold suffix_times. now rewrite !Get_opt_update_prop_other by reflexivity.
Qed.

Lemma ToBoolean_suffix_times (f : Value -> Value) (v : Value) :
  ToBoolean (suffix_times f v) = ToBoolean v.
Proof. unfold suffix_times. now rewrite !ToBoolean_update_prop. Qed.

Lemma normalize_section_idem (section : Value) :
  normalize_section (normalize_section section) = normalize_section section.
Proof.
  unfold normalize_section.
  destruct (strict_eq_string (Get_opt section (lit "type")) (lit "move")) eqn:E.
  - rewrite Get_opt_suffix_times_type, E.
    apply suffix_times_idem, suffix_time_when_present_idem.
  - now rewrite E.
Qed.

Lemma move_update_idem (move : Value) :
  let F := fun m : Value => if ToBoolean m then suffix_times suffix_time m else m in
  F (F move) = F move.
Proof.
  intros F. unfold F.
  destruct (ToBoolean move) eqn:E.
  - rewrite ToBoolean_suffix_times, E.
    apply suffix_times_idem, suffix_time_idem.
  - now rewrite E.
Qed.

Lemma normalize_item_idem (item : Value) :
  normalize_item (normalize_item item) = normalize_item item.
Proof.
  unfold normalize_item. apply two_updates_idem.
  - reflexivity.
  - intros x. apply update_prop_idem. exact move_update_idem.
  - intros x. apply update_elements_idem. exact normalize_section_idem.
Qed.

Lemma normalize_idem (data : Value) : normalize (normalize data) = normalize data.
Proof.
  unfold normalize. apply update_prop_idem.
  intros x. apply update_elements_idem. exact normalize_item_idem.
Qed.

(** The bodies on which the normalizer is specified are closed under it. *)

Lemma lookup_update_first_same (k : JsString) (f : Value -> Value) (o : Props) :
  lookup k (update_first k f o) = option_map f (lookup k o).
Proof.
  induction o as [|[k0 x] o IH]; simpl; [reflexivity|].
  destruct (k0 =?s k) eqn:E; simpl; rewrite E; [reflexivity | exact IH].
Qed.

Lemma Get_opt_update_prop_same (k : string) (f : Value -> Value) (v : Value) :
  f VUndefined = VUndefined ->
  Get_opt (update_prop k f v) (lit k) = f (Get_opt v (lit k)).
Proof.
  intros H0. destruct v; simpl; try (now rewrite H0).
  rewrite lookup_update_first_same.
  destruct (lookup (lit k) props); simpl; [reflexivity | now rewrite H0].
Qed.

Lemma is_nullish_update_prop (k : string) (f : Value -> Value) (v : Value) :
  is_nullish (update_prop k f v) = is_nullish v.
Proof. destruct v; reflexivity. Qed.

Lemma time_when_present_suffix (v : Value) :
  time_when_present v = true -> time_when_present (suffix_time_when_present v) = true.
Proof.
  unfold time_when_present, suffix_time_when_present.
  destruct (ToBoolean v) eqn:E; [|now rewrite E].
  simpl. intros H. destruct v; try discriminate. simpl. apply orb_true_r.
Qed.

Lemma section_ok_normalize (section : Value) :
  section_ok section = true -> section_ok (normalize_section section) = true.
Proof.
  unfold section_ok, normalize_section. intros H.
  apply andb_true_iff in H as [Hn H].
  destruct (strict_eq_string (Get_opt section (lit "type")) (lit "move")) eqn:E.
  - apply andb_true_iff in H as [Hf Ht].
    unfold suffix_times. rewrite !is_nullish_update_prop, Hn.
    rewrite !Get_opt_update_prop_other by reflexivity. rewrite E.
    rewrite (Get_opt_update_prop_same "to_time") by reflexivity.
    rewrite (Get_opt_update_prop_other "from_time" "to_time") by reflexivity.
    rewrite (Get_opt_update_prop_same "from_time") by reflexivity.
    now rewrite !time_when_present_suffix.
  - now rewrite Hn, E.
Qed.

Lemma item_ok_normalize (item : Value) :
  item_ok item = true -> item_ok (normalize_item item) = true.
Proof.
  unfold item_ok, normalize_item. intros H.
  apply andb_true_iff in H as [H Hsec]. apply andb_true_iff in H as [Hn Hmove].
  rewrite !is_nullish_update_prop, Hn.
  rewrite (Get_opt_update_prop_other "sections" "summary") by reflexivity.
  rewrite (Get_opt_update_prop_same "summary") by reflexivity.
  rewrite (Get_opt_update_prop_same "move") by reflexivity.
  rewrite (Get_opt_update_prop_same "sections") by reflexivity.
  rewrite (Get_opt_update_prop_other "summary" "sections") by reflexivity.
  set (move := Get_opt (Get_opt item (lit "summary")) (lit "move")) in *.
  apply andb_true_iff. split; [apply andb_true_iff; split; [reflexivity|]|].
  - cbv zeta in Hmove |- *. destruct (ToBoolean move) eqn:Hb.
    + unfold suffix_times. rewrite !ToBoolean_update_prop, Hb.
      apply andb_true_iff in Hmove as [Hf Ht].
      rewrite (Get_opt_update_prop_other "to_time" "from_time") by reflexivity.
      rewrite (Get_opt_update_prop_same "from_time") by reflexivity.
      rewrite (Get_opt_update_prop_same "to_time") by reflexivity.
      rewrite (Get_opt_update_prop_other "from_time" "to_time") by reflexivity.
      destruct (Get_opt move (lit "from_time")); try discriminate.
      destruct (Get_opt move (lit "to_time")); try discriminate. reflexivity.
    + now rewrite Hb.
  - destruct (Get_opt item (lit "sections")) as [| | | | |sections|]; try reflexivity.
    simpl. rewrite forallb_forall in Hsec |- *.
    intros y Hy. apply in_map_iff in Hy as (x & <- & Hx).
    apply section_ok_normalize. now apply Hsec.
Qed.

Lemma body_ok_normalize (data : Value) :
  body_ok data = true -> body_ok (normalize data) = true.
Proof.
  unfold body_ok, normalize. intros H.
  apply andb_true_iff in H as [Hn Hitems].
  rewrite is_nullish_update_prop, Hn.
  rewrite (Get_opt_update_prop_same "items") by reflexivity.
  destruct (Get_opt data (lit "items")) as [| | | | |items|]; try reflexivity.
  simpl. rewrite forallb_forall in Hitems |- *.
  intros y Hy. apply in_map_iff in Hy as (x & <- & Hx).
  apply item_ok_normalize. now apply Hitems.
Qed.

(** X15.  The normalizer is idempotent: on a body whose time fields are
    strings where it reads them, running it on its own result succeeds and
    changes nothing more. *)
Theorem normalizer_idempotent (rt : Runtime) (data data' : Value) :
  body_ok data = true ->
  Transit.transform rt data = Ok data' ->
  Transit.transform rt data' = Ok data'.
Proof.
  intros Hb H. rewrite (transform_ok rt data Hb) in H. injection H as <-.
  rewrite (transform_ok rt _ (body_ok_normalize data Hb)).
  now rewrite normalize_idem.
Qed.

Lemma normalizer_idempotent_witness :
  body_ok (sample_body "2024-02-11T12:05:00") = true /\
  Transit.transform sample_runtime (sample_body "2024-02-11T12:05:00")
  = Ok (sample_body_normalized "2024-02-11T12:05:00+09:00") /\
  Transit.transform sample_runtime (sample_body_normalized "2024-02-11T12:05:00+09:00")
  = Ok (sample_body_normalized "2024-02-11T12:05:00+09:00").
Proof.
  split; [reflexivity|]. split; [reflexivity|].
  exact (normalizer_idempotent
           sample_runtime (sample_body "2024-02-11T12:05:00")
           (sample_body_normalized "2024-02-11T12:05:00+09:00") eq_refl eq_refl).
Defined.

(** ** The frame of the normalizer on arbitrary bodies *)

Lemma props_rel_refl (R : JsString -> Value -> Value -> Prop) (o : Props) :
  (forall k x, R k x x) -> props_rel R o o.
Proof. intros H. induction o as [|[k x] o IH]; constructor; auto. Qed.

Lemma assign_rel (R : JsString -> Value -> Value -> Prop)
      (k : JsString) (x y : Value) (o : Props) :
  lookup k o = Some y ->
  (forall k' z, R k' z z) -> R k y x ->
  props_rel R o (assign k x o).
Proof.
  intros Hl Hrefl Hk. induction o as [|[k0 z] o IH]; simpl in *; [discriminate|].
  destruct (k0 =?s k) eqn:E.
  - injection Hl as ->. apply JsString_eqb_eq in E. subst k0.
    constructor; [split; [reflexivity | exact Hk] | now apply props_rel_refl].
  - constructor; [split; [reflexivity | apply Hrefl] | now apply IH].
Qed.

Lemma props_rel_compose (R1 R2 R : JsString -> Value -> Value -> Prop)
      (o o1 o2 : Props) :
  (forall k a b c, R1 k a b -> R2 k b c -> R k a c) ->
  props_rel R1 o o1 -> props_rel R2 o1 o2 -> props_rel R o o2.
Proof.
  intros Hc H1. revert o2. induction H1 as [|[k a] [k1 b] o o1 [Hk Hab] _ IH];
    intros o2 H2; inversion H2 as [|p [k2 c] l l' [Hk' Hbc] H2']; subst; constructor.
  - simpl in *. subst. split; [reflexivity | eapply Hc; eauto].
  - now apply IH.
Qed.

Lemma objects_rel_compose (R1 R2 R : JsString -> Value -> Value -> Prop)
      (v v1 v2 : Value) :
  (forall k a b c, R1 k a b -> R2 k b c -> R k a c) ->
  (forall k a, R1 k a a) -> (forall k a, R2 k a a) ->
  objects_rel R1 v v1 -> objects_rel R2 v1 v2 -> objects_rel R v v2.
Proof.
  intros Hc Hr1 Hr2 [-> | (o & o1 & -> & -> & H1)] [-> | (o1' & o2 & E & -> & H2)].
  - now left.
  - right. exists o1', o2. repeat split; try assumption.
    eapply props_rel_compose; [exact Hc | apply props_rel_refl, Hr1 | exact H2].
  - right. exists o, o1. repeat split.
    eapply props_rel_compose; [exact Hc | exact H1 | apply props_rel_refl, Hr2].
  - injection E as <-. right. exists o, o2. repeat split.
    eapply props_rel_compose; eauto.
Qed.

(** Writing a property that was read as defined keeps every other property
    and the order. *)
Lemma Set_present_rel (R : JsString -> Value -> Value -> Prop)
      (v v' : Value) (k : JsString) (x : Value) :
  Set_ v k x = Ok v' ->
  Get_opt v k <> VUndefined ->
  (forall k' z, R k' z z) -> R k (Get_opt v k) x ->
  objects_rel R v v'.
Proof.
  destruct v; simpl; try discriminate. intros [= <-] Hdef Hrefl Hk.
  destruct (lookup k props) as [y|] eqn:E; [|contradiction].
  right. exists props, (assign k x props). repeat split.
  apply (assign_rel R k x y); auto.
Qed.

Lemma any_time_refl (k : JsString) (x : Value) : any_time k x x.
Proof. unfold any_time. now destruct (_ || _). Qed.

Lemma any_time_trans (k : JsString) (a b c : Value) :
  any_time k a b -> any_time k b c -> any_time k a c.
Proof. unfold any_time. destruct (_ || _); [trivial | congruence]. Qed.

Lemma bind_Ok {A B} (m : Exc A) (f : A -> Exc B) (r : B) :
  bind m f = Ok r -> exists a, m = Ok a /\ f a = Ok r.
Proof. destruct m as [a|]; simpl; [eauto | discriminate]. Qed.

Lemma Get_Ok (v : Value) (k : JsString) (x : Value) :
  Get v k = Ok x -> is_nullish v = false /\ x = Get_opt v k.
Proof. destruct v; simpl; try discriminate; intros [= <-]; auto. Qed.

Lemma objects_rel_defined (R : JsString -> Value -> Value -> Prop) (v v' : Value) :
  objects_rel R v v' -> is_nullish v' = is_nullish v.
Proof. intros [-> | (o & o' & -> & -> & _)]; reflexivity. Qed.

Lemma mapM_Forall2 {A B} (f : A -> Exc B) (R : A -> B -> Prop) (l : list A) (l' : list B) :
  (forall x y, f x = Ok y -> R x y) -> mapM f l = Ok l' -> Forall2 R l l'.
Proof.
  intros Hf. revert l'. induction l as [|a l IH]; intros l'; simpl.
  - intros [= <-]. constructor.
  - destruct (f a) as [y|] eqn:Ea; [|discriminate]. cbn [bind].
    destruct (mapM f l) as [ys|]; [|discriminate]. intros [= <-].
    constructor; auto.
Qed.

Section Frame.

Variable rt : Runtime.

(** [t' <- addTimezone(v.k) ;; v.k = t'] for a time field [k]. *)
Lemma time_write_frame (k : string) (v v' t t' : Value) :
  k = "from_time"%string \/ k = "to_time"%string ->
  t = Get_opt v (lit k) ->
  Transit.apply_addTimezone rt t = Ok t' ->
  Set_ v (lit k) t' = Ok v' ->
  objects_rel any_time v v'.
Proof.
  intros Hk -> Ha Hs.
  apply (Set_present_rel any_time v v' (lit k) t' Hs).
  - intros E. rewrite E in Ha. discriminate.
  - apply any_time_refl.
  - destruct Hk as [-> | ->]; exact I.
Qed.

Lemma guarded_time_write_frame (k : string) (v v' : Value) :
  k = "from_time"%string \/ k = "to_time"%string ->
  is_nullish v = false ->
  (t0 <- Get v (lit k) ;;
   if ToBoolean t0 then
     t <- Get v (lit k) ;;
     t' <- Transit.apply_addTimezone rt t ;;
     Set_ v (lit k) t'
   else Ok v) = Ok v' ->
  objects_rel any_time v v'.
Proof.
  intros Hk Hn H. rewrite !(Get_defined _ _ Hn) in H. cbn [bind] in H.
  destruct (ToBoolean (Get_opt v (lit k))).
  - apply bind_Ok in H as (t' & Ha & Hs).
    exact (time_write_frame k v v' _ t' Hk eq_refl Ha Hs).
  - injection H as <-. now left.
Qed.

Lemma map_section_frame (section section' : Value) :
  Transit.map_section rt section = Ok section' -> section_frame section section'.
Proof.
  unfold Transit.map_section, section_frame. intros H.
  apply bind_Ok in H as (ty & Hty & H). apply Get_Ok in Hty as [Hn ->].
  destruct (strict_eq_string (Get_opt section (lit "type")) (lit "move")) eqn:E.
  2:{ injection H as <-. now left. }
  right. split.
  { destruct (Get_opt section (lit "type")); try discriminate.
    simpl in E. apply JsString_eqb_eq in E. now subst. }
  apply bind_Ok in H as (from_time & Hf & H). apply Get_Ok in Hf as [_ ->].
  apply bind_Ok in H as (section1 & H1 & H).
  assert (F1 : objects_rel any_time section section1).
  { apply (guarded_time_write_frame "from_time"); [now left | exact Hn |].
    rewrite !(Get_defined _ _ Hn). rewrite !(Get_defined _ _ Hn) in H1.
    cbn [bind] in H1 |- *. exact H1. }
  assert (Hn1 : is_nullish section1 = false)
    by now rewrite (objects_rel_defined _ _ _ F1).
  assert (F2 : objects_rel any_time section1 section')
    by (apply (guarded_time_write_frame "to_time"); [now right | exact Hn1 | exact H]).
  exact (objects_rel_compose any_time any_time any_time section section1 section'
           any_time_trans any_time_refl any_time_refl F1 F2).
Qed.

(** [if (v.k && Array.isArray(v.k)) v.k = v.k.map(f)] *)
Lemma array_write_frame (R : JsString -> Value -> Value -> Prop)
      (Re : Value -> Value -> Prop) (f : Value -> Exc Value)
      (k : string) (v v' : Value) :
  (forall x y, f x = Ok y -> Re x y) ->
  (forall k' z, R k' z z) ->
  (forall l l', Forall2 Re l l' -> R (lit k) (VArr l) (VArr l')) ->
  (a <- Get v (lit k) ;;
   if ToBoolean a && Array_isArray a then
     match a with
     | VArr elems => mapped <- mapM f elems ;; Set_ v (lit k) (VArr mapped)
     | _ => Ok v
     end
   else Ok v) = Ok v' ->
  objects_rel R v v'.
Proof.
  intros Hf Hrefl Hk H.
  apply bind_Ok in H as (a & Ha & H). apply Get_Ok in Ha as [Hn ->].
  destruct (Get_opt v (lit k)) as [| | | | |elems|] eqn:E;
    try (destruct (_ && _); injection H as <-; now left).
  cbn [ToBoolean Array_isArray andb] in H.
  apply bind_Ok in H as (mapped & Hm & Hs).
  apply (Set_present_rel R v v' (lit k) (VArr mapped) Hs).
  - rewrite E. discriminate.
  - exact Hrefl.
  - rewrite E. apply Hk. now apply (mapM_Forall2 f Re).
Qed.

Lemma map_item_frame (item item' : Value) :
  Transit.map_item rt item = Ok item' -> item_frame item item'.
Proof.
  unfold Transit.map_item. intros H.
  apply bind_Ok in H as (summary & Hs & H). apply Get_Ok in Hs as [Hn ->].
  set (summary := Get_opt item (lit "summary")) in *.
  set (Rsum := fun (k : JsString) (v v' : Value) =>
                 if k =?s lit "summary"
                 then objects_rel (at_prop "move" (objects_rel any_time)) v v'
                 else v' = v).
  set (Rsec := fun (k : JsString) (v v' : Value) =>
                 if k =?s lit "sections" then arrays_rel section_frame v v' else v' = v).
  assert (Hmove_refl : forall k a, at_prop "move" (objects_rel any_time) k a a).
  { intros k a. unfold at_prop. destruct (k =?s lit "move"); [left|]; reflexivity. }
  assert (HRsum : forall k a, Rsum k a a).
  { intros k a. unfold Rsum. destruct (k =?s lit "summary"); [left|]; reflexivity. }
  assert (HRsec : forall k a, Rsec k a a).
  { intros k a. unfold Rsec. destruct (k =?s lit "sections"); [left|]; reflexivity. }
  apply bind_Ok in H as (has_move & Hh & H).
  apply bind_Ok in H as (item1 & H1 & H).
  assert (F1 : objects_rel Rsum item item1).
  { destruct has_move; [|injection H1 as <-; now left].
    destruct (ToBoolean summary) eqn:Hsb; [|discriminate].
    apply bind_Ok in Hh as (m & Hm & Hmb). apply Get_Ok in Hm as [Hsn ->].
    injection Hmb as Hmb.
    apply bind_Ok in H1 as (move & Hmv & H1). apply Get_Ok in Hmv as [_ ->].
    set (move := Get_opt summary (lit "move")) in *.
    apply bind_Ok in H1 as (ft & Hft & H1). apply Get_Ok in Hft as [Hmn ->].
    apply bind_Ok in H1 as (ft' & Ha1 & H1).
    apply bind_Ok in H1 as (move1 & S1 & H1).
    pose proof (time_write_frame "from_time" move move1 _ ft'
                  (or_introl eq_refl) eq_refl Ha1 S1) as M1.
    apply bind_Ok in H1 as (tt & Htt & H1). apply Get_Ok in Htt as [Hm1n ->].
    apply bind_Ok in H1 as (tt' & Ha2 & H1).
    apply bind_Ok in H1 as (move2 & S2 & H1).
    pose proof (time_write_frame "to_time" move1 move2 _ tt'
                  (or_intror eq_refl) eq_refl Ha2 S2) as M2.
    assert (M : objects_rel any_time move move2).
    { exact (objects_rel_compose any_time any_time any_time move move1 move2
               any_time_trans any_time_refl any_time_refl M1 M2). }
    apply bind_Ok in H1 as (summary' & S3 & S4).
    assert (Fs : objects_rel (at_prop "move" (objects_rel any_time)) summary summary').
    { apply (Set_present_rel _ summary summary' (lit "move") move2 S3).
      - fold move. intros E. rewrite E in Hmb. discriminate.
      - exact Hmove_refl.
      - exact M. }
    apply (Set_present_rel Rsum item item1 (lit "summary") summary' S4).
    - fold summary. intros E. rewrite E in Hsb. discriminate.
    - exact HRsum.
    - exact Fs. }
  assert (F2 : objects_rel Rsec item1 item').
  { apply (array_write_frame Rsec section_frame (Transit.map_section rt) "sections").
    - exact map_section_frame.
    - exact HRsec.
    - intros l l' Hl. right. eauto.
    - exact H. }
  unfold item_frame.
  apply (objects_rel_compose Rsum Rsec _ item item1 item'); try assumption.
  intros k a b c. unfold Rsum, Rsec.
  destruct (k =?s lit "summary") eqn:Ek.
  - apply JsString_eqb_eq in Ek. subst k.
    change (lit "summary" =?s lit "sections") with false. cbv iota.
    now intros Hab ->.
  - destruct (k =?s lit "sections"); [now intros -> | intros -> ->; reflexivity].
Qed.

Lemma transform_frame (data data' : Value) :
  Transit.transform rt data = Ok data' -> body_frame data data'.
Proof.
  unfold Transit.transform, body_frame. intros H.
  apply (array_write_frame (at_prop "items" (arrays_rel item_frame)) item_frame
           (Transit.map_item rt) "items").
  - exact map_item_frame.
  - intros k z. unfold at_prop. destruct (k =?s lit "items"); [left|]; reflexivity.
  - intros l l' Hl. right. eauto.
  - exact H.
Qed.

End Frame.

Lemma props_rel_lookup (R : JsString -> Value -> Value -> Prop)
      (o o' : Props) (k : JsString) :
  props_rel R o o' ->
  match lookup k o, lookup k o' with
  | Some x, Some x' => R k x x'
  | None, None => True
  | _, _ => False
  end.
Proof.
  intros H. induction H as [|[k0 x] [k1 x'] o o' [Hk Hx] _ IH]; simpl; [exact I|].
  simpl in Hk, Hx. subst k1.
  destruct (k0 =?s k) eqn:E; [|exact IH].
  apply JsString_eqb_eq in E. now subst k0.
Qed.

(** X16.  Whenever the normalizer returns, on any body at all, the result has
    the same fields in the same order as the body: only the values of
    [from_time] and [to_time] inside a [summary.move] and inside the sections
    of type ['move'] can differ.  In particular every top-level field but
    [items] is returned as it is, and [items] keeps its length. *)
Theorem normalizer_frame (rt : Runtime) (data data' : Value) :
  Transit.transform rt data = Ok data' ->
  body_frame data data' /\
  (forall k, (k =?s lit "items") = false -> Get_opt data' k = Get_opt data k) /\
  (forall items, Get_opt data (lit "items") = VArr items ->
                 exists items', Get_opt data' (lit "items") = VArr items'
                                /\ Forall2 item_frame items items'
                                /\ List.length items' = List.length items).
Proof.
  intros H. pose proof (transform_frame rt data data' H) as F.
  split; [exact F|].
  destruct F as [-> | (o & o' & -> & -> & Hrel)].
  - split; [reflexivity|]. intros items E. exists items. repeat split; [exact E|].
    clear. induction items; constructor; [left; reflexivity | assumption].
  - split.
    + intros k Hk. simpl. pose proof (props_rel_lookup _ o o' k Hrel) as L.
      unfold at_prop in L. rewrite Hk in L.
      destruct (lookup k o), (lookup k o'); try contradiction; [exact L | reflexivity].
    + intros items E. simpl in E |- *.
      pose proof (props_rel_lookup _ o o' (lit "items") Hrel) as L.
      unfold at_prop in L. change (lit "items" =?s lit "items") with true in L.
      cbv iota in L.
      destruct (lookup (lit "items") o) as [x|]; [|discriminate]. subst x.
      destruct (lookup (lit "items") o') as [x'|]; [|contradiction].
      destruct L as [-> | (l & l' & [= <-] & -> & HF)].
      * exists items. repeat split.
        clear. induction items; constructor; [left; reflexivity | assumption].
      * exists l'. repeat split; [exact HF|].
        symmetry. exact (Forall2_length HF).
Qed.

Lemma normalizer_frame_witness :
  Transit.transform sample_runtime body_with_array_time
  = Ok body_with_array_time_normalized /\
  body_frame body_with_array_time body_with_array_time_normalized /\
  Get_opt body_with_array_time_normalized (lit "unit") = str "wgs84".
Proof.
  split; [reflexivity|].
  destruct (normalizer_frame sample_runtime body_with_array_time
              body_with_array_time_normalized eq_refl) as (F & Hk & _).
  split; [exact F|]. exact (Hk (lit "unit") eq_refl).
Defined.

(** ** The catalogues and the dispatchers *)

Lemma is_string_typeof (v : Value) :
  is_string v = TypeTag_eqb (typeof v) TString.
Proof. now destruct v. Qed.

Lemma directions_known_name
      (rt : Runtime) (API_KEY : JsString) (args : Value) (net : GetCall -> GetOutcome) :
  ~ method_not_found (run (Directions.CallTool rt API_KEY (lit "get_directions") args) net)
      (lit "get_directions").
Proof.
  unfold method_not_found, Directions.CallTool, sync, axios_get.
  change (lit "get_directions" =?s lit "get_directions") with true. cbv iota.
  cbn [negb]. cbv iota.
  rewrite isValidDirectionsArgs_eq.
  destruct (shape_ok _ _ args) eqn:Hs; [|cbn; discriminate].
  apply shape_ok_defined in Hs.
  rewrite !Get_defined by exact Hs. cbn.
  match goal with |- context [net ?c] => destruct (net c) as [data | []] end;
    cbn; discriminate.
Qed.

Lemma transit_known_name
      (rt : Runtime) (args : Value) (net : GetCall -> GetOutcome) :
  ~ method_not_found (run (Transit.CallTool rt (lit "route_transit") args) net)
      (lit "route_transit").
Proof.
  unfold method_not_found, Transit.CallTool, sync, axios_get.
  change (lit "route_transit" =?s lit "route_transit") with true.
  cbn [negb]. cbv iota.
  rewrite isValidRouteTransitArgs_eq.
  destruct (shape_ok _ _ args) eqn:Hs; [|cbn; discriminate].
  destruct (request_params_valid rt _ Hs) as (st & _ & ->). cbn.
  match goal with |- context [net ?c] => destruct (net c) as [data | []] end.
  1: cbn; destruct (Transit.transform rt data) as [data' | []].
  all: cbn; discriminate.
Qed.

Lemma places_known_name
      (rt : Runtime) (name : JsString) (args : Value) (net : GetCall -> GetOutcome) :
  In name (map tool_name places_catalogue) ->
  ~ method_not_found (run (Places.CallTool rt name args) net) name.
Proof.
  unfold method_not_found. simpl.
  intros [<- | [<- | [<- | []]]]; unfold Places.CallTool.
  - change (lit "search_places" =?s lit "search_places") with true. cbv iota.
    unfold Places.handleSearchPlaces, sync, axios_get.
    destruct (is_nullish args) eqn:Hn.
    + destruct args; try discriminate; cbn; discriminate.
    + rewrite !Get_defined by exact Hn. cbn.
      match goal with |- context [net ?c] => destruct (net c) as [data | []] end;
        cbn; discriminate.
  - change (lit "get_place_details" =?s lit "search_places") with false.
    change (lit "get_place_details" =?s lit "get_place_details") with true. cbv iota.
    unfold Places.handleGetPlaceDetails, sync, axios_get.
    destruct (is_nullish args) eqn:Hn.
    + destruct args; try discriminate; cbn; discriminate.
    + rewrite !Get_defined by exact Hn. cbn.
      match goal with |- context [net ?c] => destruct (net c) as [data | []] end;
        cbn; discriminate.
  - change (lit "nearby_search" =?s lit "search_places") with false.
    change (lit "nearby_search" =?s lit "get_place_details") with false.
    change (lit "nearby_search" =?s lit "nearby_search") with true. cbv iota.
    unfold Places.handleNearbySearch, sync, axios_get.
    destruct (is_nullish args) eqn:Hn.
    + destruct args; try discriminate; cbn; discriminate.
    + destruct (is_nullish (Get_opt args (lit "location"))) eqn:Hl.
      * unfold Places.nearby_params. rewrite !Get_defined by exact Hn. cbn [bind].
        destruct (Get_opt args (lit "location")); try discriminate; cbn; discriminate.
      * rewrite nearby_params_defined by assumption.
        destruct (ToString rt (Get_opt (Get_opt args (lit "location")) (lit "lat")))
          as [lat_text|e1] eqn:E1;
          [|rewrite (ToString_TypeError _ _ _ E1); cbn; discriminate].
        destruct (ToString rt (Get_opt (Get_opt args (lit "location")) (lit "lng")))
          as [lng_text|e2] eqn:E2;
          [|rewrite (ToString_TypeError _ _ _ E2); cbn; discriminate].
        cbn.
        match goal with |- context [net ?c] => destruct (net c) as [data | []] end;
          cbn; discriminate.
Qed.

(** X17.  In each server the dispatcher raises "method not found" before
    sending anything exactly for the names that the server's own tool
    catalogue does not list: every advertised tool is dispatched, and
    nothing else is. *)
Theorem method_not_found_exactly_off_catalogue
        (rt : Runtime) (API_KEY name : JsString) (args : Value)
        (net : GetCall -> GetOutcome) :
  (method_not_found (run (Directions.CallTool rt API_KEY name args) net) name
   <-> ~ In name (map tool_name directions_tools)) /\
  (method_not_found (run (Transit.CallTool rt name args) net) name
   <-> ~ In name (map tool_name transit_tools)) /\
  (method_not_found (run (Places.CallTool rt name args) net) name
   <-> ~ In name (map tool_name places_catalogue)).
Proof.
  repeat split.
  - intros H [<- | []]. exact (directions_known_name rt API_KEY args net H).
  - simpl. intros H. unfold method_not_found, Directions.CallTool.
    assert (E : (name =?s lit "get_directions") = false)
      by (apply JsString_eqb_neq; intros ->; apply H; now left).
    now rewrite E.
  - intros H [<- | []]. exact (transit_known_name rt args net H).
  - simpl. intros H. unfold method_not_found, Transit.CallTool.
    assert (E : (name =?s lit "route_transit") = false)
      by (apply JsString_eqb_neq; intros ->; apply H; now left).
    now rewrite E.
  - intros H Hin. exact (places_known_name rt name args net Hin H).
  - simpl. intros H. unfold method_not_found, Places.CallTool.
    assert (H1 : (name =?s lit "search_places") = false)
      by (apply JsString_eqb_neq; intros ->; apply H; tauto).
    assert (H2 : (name =?s lit "get_place_details") = false)
      by (apply JsString_eqb_neq; intros ->; apply H; tauto).
    assert (H3 : (name =?s lit "nearby_search") = false)
      by (apply JsString_eqb_neq; intros ->; apply H; tauto).
    now rewrite H1, H2, H3.
Qed.

(** ** The validators and the advertised schemas *)

Lemma conforms_directions (args : Value) :
  conforms (SObject [("origin", SString None);
                     ("destination", SString None);
                     ("mode", SString (Some (VStr (lit "driving"))))]
                    ["origin"; "destination"])%string args
  = shape_ok directions_required directions_optional args.
Proof.
  unfold shape_ok, directions_required, directions_optional.
  destruct args as [| | | | | |o]; try reflexivity.
  cbn [conforms forallb typeof is_null TypeTag_eqb negb andb].
  rewrite !is_string_typeof.
  destruct (Get_opt (VObj o) (lit "origin")), (Get_opt (VObj o) (lit "destination"));
    reflexivity.
Qed.

Lemma conforms_transit (args : Value) :
  conforms (SObject [("start", SString None);
                     ("goal", SString None);
                     ("start_time", SString None);
                     ("term", SString None);
                     ("limit", SString None);
                     ("datum", SString None);
                     ("coord_unit", SString None)]
                    ["start"; "goal"])%string args
  = shape_ok transit_required transit_optional args.
Proof.
  unfold shape_ok, transit_required, transit_optional.
  destruct args as [| | | | | |o]; try reflexivity.
  cbn [conforms forallb typeof is_null TypeTag_eqb negb andb].
  rewrite !is_string_typeof.
  destruct (Get_opt (VObj o) (lit "start")), (Get_opt (VObj o) (lit "goal"));
    reflexivity.
Qed.

(** X18.  The hand-written validators of the directions and transit servers
    decide exactly the [inputSchema] that the catalogue advertises for the
    tool: a value is accepted if and only if it is an object that has the
    [required] properties and whose declared properties, when present, are
    strings.  The validators never throw. *)
Theorem validators_decide_the_advertised_schema (args : Value) :
  (forall t, In t directions_tools ->
             Directions.isValidDirectionsArgs args = Ok (conforms (inputSchema t) args)) /\
  (forall t, In t transit_tools ->
             Transit.isValidRouteTransitArgs args = Ok (conforms (inputSchema t) args)).
Proof.
  split; intros t [<- | []]; cbn [inputSchema].
  - now rewrite conforms_directions, isValidDirectionsArgs_eq.
  - now rewrite conforms_transit, isValidRouteTransitArgs_eq.
Qed.

Lemma validators_decide_the_advertised_schema_witness :
  Directions.isValidDirectionsArgs directions_by_teleport = Ok true /\
  Transit.isValidRouteTransitArgs (obj [("start", str "35.6,139.7")]%string) = Ok false.
Proof.
  destruct (validators_decide_the_advertised_schema directions_by_teleport) as [Hd _].
  destruct (validators_decide_the_advertised_schema (obj [("start", str "35.6,139.7")]%string))
    as [_ Ht].
  split.
  - exact (Hd _ (or_introl eq_refl)).
  - exact (Ht _ (or_introl eq_refl)).
Defined.

(** ** Advertised defaults *)

Lemma declared_default_directions (k : string) (d : Value) :
  declared_default (SObject [("origin", SString None);
                             ("destination", SString None);
                             ("mode", SString (Some (VStr (lit "driving"))))]
                            ["origin"; "destination"])%string k = Some d ->
  k = "mode"%string /\ d = VStr (lit "driving").
Proof.
  unfold declared_default. cbn [find fst].
  repeat match goal with
         | |- context [String.eqb ?a k] =>
             let E := fresh "E" in destruct (String.eqb a k) eqn:E
         end; try discriminate.
  apply String.eqb_eq in E1. intros [= <-]. now subst k.
Qed.

Lemma declared_default_language (q k : string) (d : Value) :
  declared_default (SObject [(q, SString None);
                             ("language", SString (Some (VStr (lit "ja"))))]
                            [q])%string k = Some d ->
  k = "language"%string /\ d = VStr (lit "ja").
Proof.
  unfold declared_default. cbn [find fst].
  repeat match goal with
         | |- context [String.eqb ?a k] =>
             let E := fresh "E" in destruct (String.eqb a k) eqn:E
         end; try discriminate.
  apply String.eqb_eq in E0. intros [= <-]. now subst k.
Qed.

Lemma declared_default_nearby (k : string) (d : Value) :
  declared_default (SObject [("location",
                              SObject [("lat", SNumber None); ("lng", SNumber None)]
                                      ["lat"; "lng"]);
                             ("radius", SNumber (Some (VNum 1000%float)));
                             ("type", SString None);
                             ("language", SString (Some (VStr (lit "ja"))))]
                            ["location"])%string k = Some d ->
  (k = "radius"%string /\ d = VNum 1000%float) \/
  (k = "language"%string /\ d = VStr (lit "ja")).
Proof.
  unfold declared_default. cbn [find fst].
  repeat match goal with
         | |- context [String.eqb ?a k] =>
             let E := fresh "E" in destruct (String.eqb a k) eqn:E
         end; try discriminate.
  - apply String.eqb_eq in E0. intros [= <-]. left. now subst k.
  - apply String.eqb_eq in E2. intros [= <-]. right. now subst k.
Qed.

(** X19.  Every default that a catalogue advertises for a property is the
    value the handler sends upstream when the caller leaves the property
    out: [mode] ['driving'] in the directions server, [language] ['ja'] and
    [radius] [1000] in the places server, for a call that reaches its
    request (valid arguments; for the places tools arguments that are not
    [null], and for the nearby search a [location] whose [lat] and [lng]
    convert to strings).  The transit catalogue advertises no default at
    all. *)
Theorem advertised_defaults_are_sent
        (rt : Runtime) (API_KEY : JsString) (args : Value)
        (net : GetCall -> GetOutcome) (t : Tool) (k : string) (d : Value) :
  declared_default (inputSchema t) k = Some d ->
  Get_opt args (lit k) = VUndefined ->
  (In t directions_tools ->
   Directions.isValidDirectionsArgs args = Ok true ->
   sent_param (run (Directions.CallTool rt API_KEY (tool_name t) args) net) k = Some d) /\
  (In t places_catalogue ->
   is_nullish args = false ->
   location_converts rt args = true \/ tool_name t <> lit "nearby_search" ->
   sent_param (run (Places.CallTool rt (tool_name t) args) net) k = Some d) /\
  ~ In t transit_tools.
Proof.
  intros Hd Hk. repeat split.
  - intros [<- | []] Hv. cbn [inputSchema tool_name] in *.
    apply declared_default_directions in Hd as [-> ->].
    rewrite (directions_sent_mode rt API_KEY args net Hv). now rewrite Hk.
  - intros [<- | [<- | [<- | []]]] Hn Hl; cbn [inputSchema tool_name] in *.
    + apply declared_default_language in Hd as [-> ->].
      rewrite (places_sent_language rt _ args net (or_introl eq_refl) Hn). now rewrite Hk.
    + apply declared_default_language in Hd as [-> ->].
      rewrite (places_sent_language rt _ args net (or_intror eq_refl) Hn). now rewrite Hk.
    + destruct Hl as [Hl | Hl]; [|now contradiction Hl].
      unfold location_converts in Hl.
      apply andb_true_iff in Hl as [Hl Hlng]. apply andb_true_iff in Hl as [Hl Hlat].
      apply negb_true_iff in Hl.
      destruct (places_sent_nearby rt args net Hn Hl Hlat Hlng) as (Hlang & Hrad & _).
      apply declared_default_nearby in Hd as [[-> ->] | [-> ->]].
      * rewrite Hrad. now rewrite Hk.
      * rewrite Hlang. now rewrite Hk.
  - intros [<- | []]. cbn [inputSchema] in Hd. unfold declared_default in Hd.
    cbn [find fst] in Hd.
    repeat match type of Hd with
           | context [String.eqb ?a k] => destruct (String.eqb a k)
           end; discriminate.
Qed.

Lemma advertised_defaults_witness :
  sent_param (run (Places.CallTool sample_runtime (lit "nearby_search")
                     nearby_location_only) no_network) "radius"
  = Some (VNum 1000%float).
Proof.
  refine (proj1 (proj2 (advertised_defaults_are_sent sample_runtime (lit "key")
            nearby_location_only no_network
            {| tool_name := lit "nearby_search";
               inputSchema :=
                 SObject [("location",
                           SObject [("lat", SNumber None); ("lng", SNumber None)]
                                   ["lat"; "lng"]);
                          ("radius", SNumber (Some (VNum 1000%float)));
                          ("type", SString None);
                          ("language", SString (Some (VStr (lit "ja"))))]
                         ["location"] |}%string
            "radius" (VNum 1000%float) eq_refl eq_refl)) _ eq_refl (or_introl eq_refl)).
  simpl. tauto.
Defined.

(** ** Empty upstream messages *)

(** X20.  When the upstream rejects a call with a body whose message is the
    empty string, the directions and places servers fall back on the message
    of the error itself, while the transit server keeps the empty message:
    the first two select with [||], the third with [??]. *)
Theorem empty_upstream_message
        (rt : Runtime) (API_KEY name : JsString) (arguments : Value)
        (net : GetCall -> GetOutcome) (call : GetCall)
        (data : Value) (message : JsString)
        (calls : list GetCall) (result : Exc ToolResult) :
  net call = Rejected (AxiosError (Some data) message) ->
  In call calls ->
  (empty_message "error_message" data ->
   run (Directions.CallTool rt API_KEY name arguments) net = (calls, result) ->
   result = Ok (error_result (lit "Google Maps API error: " ++ message))) /\
  (empty_message "error_message" data ->
   run (Places.CallTool rt name arguments) net = (calls, result) ->
   result = Ok (error_result (lit "Google Places API error: " ++ message))) /\
  (empty_message "message" data ->
   run (Transit.CallTool rt name arguments) net = (calls, result) ->
   result = Ok (error_result (lit "Navitime API error: "))).
Proof.
  intros Hnet Hin. unfold empty_message. repeat split; intros He Hrun.
  - rewrite (directions_upstream_failure rt API_KEY name arguments net call
               (Some data) message calls result Hnet Hrun Hin).
    unfold Directions.error_message. now rewrite He.
  - rewrite (places_upstream_failure rt name arguments net call
               (Some data) message calls result Hnet Hrun Hin).
    unfold Places.error_message. now rewrite He.
  - rewrite (transit_upstream_failure rt name arguments net call
               (Some data) message calls result Hnet Hrun Hin).
    unfold Transit.error_message. now rewrite He.
Qed.

Lemma empty_upstream_message_witness :
  outcome (run (Directions.CallTool sample_runtime (lit "key") (lit "get_directions")
                  tokyo_osaka) fails_without_message)
  = Ok (error_result (lit "Google Maps API error: Request failed with status code 500")) /\
  outcome (run (Transit.CallTool sample_runtime (lit "route_transit")
                  (transit_call_with VUndefined)) fails_without_message)
  = Ok (error_result (lit "Navitime API error: ")).
Proof.
  split.
  - set (r := run (Directions.CallTool sample_runtime (lit "key") (lit "get_directions")
                     tokyo_osaka) fails_without_message).
    refine (proj1 (empty_upstream_message sample_runtime (lit "key") (lit "get_directions")
              tokyo_osaka fails_without_message (first_call r) empty_failure_body
              (lit "Request failed with status code 500") (issued r) (outcome r)
              eq_refl _) eq_refl eq_refl).
    left. reflexivity.
  - set (r := run (Transit.CallTool sample_runtime (lit "route_transit")
                     (transit_call_with VUndefined)) fails_without_message).
    refine (proj2 (proj2 (empty_upstream_message sample_runtime (lit "key") (lit "route_transit")
              (transit_call_with VUndefined) fails_without_message (first_call r)
              empty_failure_body
              (lit "Request failed with status code 500") (issued r) (outcome r)
              eq_refl _)) eq_refl eq_refl).
    left. reflexivity.
Defined.

(** ** The tool and the resource of the directions server *)

Lemma read_plain_run
      (rt : Runtime) (API_KEY X Y : JsString) (net : GetCall -> GetOutcome) :
  X <> [] -> Y <> [] ->
  dot_matches_all X = true -> dot_matches_all Y = true ->
  has_slash Y = false ->
  has_percent X = false -> has_percent Y = false ->
  run (Directions.ReadResource rt API_KEY (lit "directions://" ++ X ++ lit "/" ++ Y)) net
  = ([resource_call API_KEY X Y],
     read_settle rt (lit "directions://" ++ X ++ lit "/" ++ Y)
                 (net (resource_call API_KEY X Y))).
Proof.
  intros HX HY HdX HdY Hs HpX HpY.
  rewrite read_resource_run, directions_regex_match by assumption.
  change (group [X; Y] 1) with X. change (group [X; Y] 2) with Y.
  now rewrite !decodeURIComponent_plain by assumption.
Qed.

(** X21.  Reading ['directions://' X '/' Y] and calling [get_directions]
    with origin [X] and destination [Y] ask the upstream for the same route
    with the same key, and on the same answer carry the same text; the only
    difference in the request is [mode], which the tool sends (as
    ['driving']) and the resource does not send at all. *)
Theorem tool_and_resource_agree
        (rt : Runtime) (API_KEY X Y : JsString) (data : Value)
        (net : GetCall -> GetOutcome) :
  X <> [] -> Y <> [] ->
  dot_matches_all X = true -> dot_matches_all Y = true ->
  has_slash Y = false ->
  has_percent X = false -> has_percent Y = false ->
  (forall call, net call = Resolved data) ->
  let tool := run (Directions.CallTool rt API_KEY (lit "get_directions")
                     (route_arguments X Y)) net in
  let read := run (Directions.ReadResource rt API_KEY
                     (lit "directions://" ++ X ++ lit "/" ++ Y)) net in
  (forall k, In k ["origin"; "destination"; "key"]%string ->
             sent_param tool k = sent_param read k /\ sent_param read k <> None) /\
  sent_param tool "mode" = Some (VStr (lit "driving")) /\
  sent_param read "mode" = None /\
  exists result resource,
    outcome tool = Ok result /\ outcome read = Ok resource /\
    map text (content result)
    = map Directions.Resource.text (Directions.Resource.contents resource).
Proof.
  intros HX HY HdX HdY Hs HpX HpY Hnet tool read.
  assert (Et : tool = ([ {| url := [];
                            params := [(lit "origin", VStr X);
                                       (lit "destination", VStr Y);
                                       (lit "mode", VStr (lit "driving"));
                                       (lit "key", VStr API_KEY)] |} ],
                       Ok (text_result rt data))).
  { subst tool. unfold Directions.CallTool, route_arguments, sync, axios_get.
    cbn. now rewrite Hnet. }
  assert (Er : read = ([resource_call API_KEY X Y],
                       Ok (read_result rt (lit "directions://" ++ X ++ lit "/" ++ Y) data))).
  { subst read. rewrite read_plain_run by assumption. now rewrite Hnet. }
  rewrite Et, Er. repeat split.
  - destruct H as [<- | [<- | [<- | []]]]; reflexivity.
  - destruct H as [<- | [<- | [<- | []]]]; discriminate.
  - exists (text_result rt data), (read_result rt (lit "directions://" ++ X ++ lit "/" ++ Y) data).
    repeat split.
Qed.

Lemma tool_and_resource_witness :
  outcome (run (Directions.CallTool sample_runtime (lit "key") (lit "get_directions")
                  (route_arguments (lit "Tokyo") (lit "Osaka")))
               (fun _ => Resolved (obj [("status", str "OK")]%string)))
  = Ok (text_result sample_runtime (obj [("status", str "OK")]%string)) /\
  sent_param (run (Directions.ReadResource sample_runtime (lit "key")
                     (lit "directions://Tokyo/Osaka"))
                  (fun _ => Resolved (obj [("status", str "OK")]%string))) "mode"
  = None.
Proof.
  assert (HX : lit "Tokyo" <> []) by discriminate.
  assert (HY : lit "Osaka" <> []) by discriminate.
  destruct (tool_and_resource_agree sample_runtime (lit "key") (lit "Tokyo") (lit "Osaka")
              (obj [("status", str "OK")]%string)
              (fun _ => Resolved (obj [("status", str "OK")]%string))
              HX HY eq_refl eq_refl eq_refl eq_refl eq_refl (fun _ => eq_refl))
    as (_ & _ & Hm & _).
  split; [reflexivity | exact Hm].
Defined.
